(** * Workflow comparative analysis: [analyze_wfs.py] and [str_wfs.py]

    A shallow embedding of the two analysis scripts.  Python [str] values are
    modelled by Rocq strings (byte sequences); character classes, case
    folding and integer conversion are those of the ASCII range, bytes
    above 127 being ordinary non-space, non-digit, caseless characters,
    and what is proved of case folding and of digits is stated for ASCII
    text.  Python [int] is [Z], a [dict] is an association list in
    insertion order, and an exception is a value of [exn] returned on the
    left of a sum; reading a file gives its text or the exception of the
    read.  The third-party vectoriser is a parameter of the functions that
    call it; numpy's [argsort] and scikit-learn's [cosine_similarity] are
    written out from their library definitions, the latter both on real
    weights, for the shape of its result, and in binary64, for its
    entries. *)

From Stdlib Require Import String Ascii List ZArith Lia Bool Arith.
From Stdlib Require Import Permutation Sorted.
From Stdlib Require Import Floats.PrimFloat Floats.SpecFloat Floats.FloatOps Uint63.
From Stdlib Require Import Floats.FloatAxioms.
From Stdlib Require Import DecimalString.
From Stdlib Require Import QArith Reals Qreals Lra.
Import ListNotations.

Close Scope Q_scope.
Local Open Scope string_scope.
Local Open Scope list_scope.
Local Open Scope bool_scope.

(** ** Python built-ins used by the scripts *)

Module Py.

Inductive exn : Type :=
| IndexError (msg : string)
| KeyError (msg : string)
| ValueError (msg : string)
| UnicodeDecodeError (msg : string)
| OSError (msg : string).

Definition result (A : Type) : Type := (exn + A)%type.

(** What [xs[0]] raises on an empty list. *)
Definition index_error : exn := IndexError "list index out of range".

Definition newline : ascii := "010"%char.

(** The one-character string ['\n']. *)
Definition nl : string := String newline EmptyString.

(** [c.isdigit()] and the class [\d] on ASCII. *)
Definition is_digit (c : ascii) : bool :=
  let n := nat_of_ascii c in (48 <=? n)%nat && (n <=? 57)%nat.

(** [c.isspace()] and the class [\s] on ASCII: tab to carriage return,
    the four separators 28..31, and the blank. *)
Definition is_space (c : ascii) : bool :=
  let n := nat_of_ascii c in
  ((9 <=? n)%nat && (n <=? 13)%nat) || ((28 <=? n)%nat && (n <=? 32)%nat).

Definition is_upper (c : ascii) : bool :=
  let n := nat_of_ascii c in (65 <=? n)%nat && (n <=? 90)%nat.

Definition is_lower (c : ascii) : bool :=
  let n := nat_of_ascii c in (97 <=? n)%nat && (n <=? 122)%nat.

Definition lower_char (c : ascii) : ascii :=
  if is_upper c then ascii_of_nat (nat_of_ascii c + 32) else c.

Definition upper_char (c : ascii) : ascii :=
  if is_lower c then ascii_of_nat (nat_of_ascii c - 32) else c.

(** [s.lower()] *)
Fixpoint lower (s : string) : string :=
  match s with
  | EmptyString => EmptyString
  | String c r => String (lower_char c) (lower r)
  end.

(** [s.lstrip()]; also the greedy [\s*] at the head of a pattern. *)
Fixpoint lstrip (s : string) : string :=
  match s with
  | EmptyString => EmptyString
  | String c r => if is_space c then lstrip r else s
  end.

Fixpoint all_space (s : string) : bool :=
  match s with
  | EmptyString => true
  | String c r => is_space c && all_space r
  end.

Fixpoint rstrip (s : string) : string :=
  match s with
  | EmptyString => EmptyString
  | String c r => if all_space s then EmptyString else String c (rstrip r)
  end.

(** [s.strip()] *)
Definition strip (s : string) : string := rstrip (lstrip s).

(** [s.split('\n')]: never empty, the empty string gives one empty line. *)
Fixpoint split_lines (s : string) : list string :=
  match s with
  | EmptyString => [EmptyString]
  | String c r =>
      if Ascii.eqb c newline then EmptyString :: split_lines r
      else match split_lines r with
           | l :: ls => String c l :: ls
           | [] => [String c EmptyString]
           end
  end.

(** [kw in s] on strings: [kw] occurs in [s] as a contiguous block. *)
Fixpoint isin (kw s : string) : bool :=
  String.prefix kw s
  || match s with
     | EmptyString => false
     | String _ r => isin kw r
     end.

(** [any(p(x) for x in l)] *)
Definition any {A : Type} (p : A -> bool) (l : list A) : bool := existsb p l.

(** The greedy [\d+] prefix of a string and what follows it. *)
Fixpoint span_digits (s : string) : string * string :=
  match s with
  | EmptyString => (EmptyString, EmptyString)
  | String c r =>
      if is_digit c
      then let (d, rest) := span_digits r in (String c d, rest)
      else (EmptyString, s)
  end.

Definition digit_val (c : ascii) : Z := Z.of_nat (nat_of_ascii c) - 48.

Fixpoint int_acc (acc : Z) (s : string) : Z :=
  match s with
  | EmptyString => acc
  | String c r => int_acc (10 * acc + digit_val c) r
  end.

(** [int(s)] for a string of decimal digits: the value of the call when
    it returns, see [int_raises]. *)
Definition int (s : string) : Z := int_acc 0 s.

(** The interpreter's default limit on the number of digits [int]
    converts, [sys.int_info.default_max_str_digits]. *)
Definition int_max_str_digits : nat := 4300.

(** [int(s)] raises [ValueError] for a string of more decimal digits
    than the limit. *)
Definition int_raises (s : string) : bool :=
  (int_max_str_digits <? String.length s)%nat.

(** A text of ASCII characters only, on which the classes and the case
    folding above are Python's. *)
Fixpoint is_ascii (s : string) : bool :=
  match s with
  | EmptyString => true
  | String c r => (nat_of_ascii c <? 128)%nat && is_ascii r
  end.

(** [str(n)] for a non-negative integer. *)
Definition str_of_Z (n : Z) : string :=
  NilZero.string_of_uint (N.to_uint (Z.to_N n)).

(** [s.replace(old, '')] for the two-character [old] the script passes. *)
Fixpoint remove2 (a b : ascii) (s : string) : string :=
  match s with
  | EmptyString => EmptyString
  | String c r =>
      match r with
      | String c' r' =>
          if Ascii.eqb c a && Ascii.eqb c' b then remove2 a b r'
          else String c (remove2 a b r)
      | EmptyString => s
      end
  end.

(** [s.title()]: a cased letter is upper-cased when the previous character
    is not a cased letter and lower-cased otherwise. *)
Fixpoint title_from (prev_cased : bool) (s : string) : string :=
  match s with
  | EmptyString => EmptyString
  | String c r =>
      let cased := is_upper c || is_lower c in
      String (if prev_cased then lower_char c else upper_char c)
             (title_from cased r)
  end.

Definition title (s : string) : string := title_from false s.

(** [os.path.join(a, b)] on POSIX. *)
Fixpoint ends_with_slash (s : string) : bool :=
  match s with
  | EmptyString => false
  | String c EmptyString => Ascii.eqb c "/"
  | String _ r => ends_with_slash r
  end.

Definition path_join (a b : string) : string :=
  if String.prefix "/" b then b
  else if String.eqb a "" || ends_with_slash a then a ++ b
  else a ++ "/" ++ b.

(** [a / b] on integers: the quotient rounded to binary64.  Operands are
    converted through 63-bit integers, exact below 2^53. *)
Definition truediv (a b : Z) : float :=
  PrimFloat.div (PrimFloat.of_uint63 (Uint63.of_Z a))
                (PrimFloat.of_uint63 (Uint63.of_Z b)).

Definition two_digits (n : Z) : string :=
  str_of_Z (n / 10) ++ str_of_Z (n mod 10).

(** Nearest integer to [100 * m * 2^e], ties to even. *)
Definition round_cents (m e : Z) : Z :=
  if (0 <=? e)%Z then (100 * m * 2 ^ e)%Z
  else
    let den := (2 ^ (- e))%Z in
    let q := (100 * m / den)%Z in
    let r := ((100 * m) mod den)%Z in
    if (den <? 2 * r)%Z then (q + 1)%Z
    else if (den =? 2 * r)%Z then (q + q mod 2)%Z
    else q.

(** [f"{x:.2f}"]: the exact binary value of [x] rounded to two decimals,
    ties to even. *)
Definition format_2f (x : float) : string :=
  let sign (s : bool) := if s then "-" else "" in
  match Prim2SF x with
  | S754_zero s => sign s ++ "0.00"
  | S754_infinity s => sign s ++ "inf"
  | S754_nan => "nan"
  | S754_finite s m e =>
      let n := round_cents (Zpos m) e in
      sign s ++ str_of_Z (n / 100) ++ "." ++ two_digits (n mod 100)
  end.

End Py.

(** ** numpy and pandas sorting *)

Module Np.

Section Argsort.
Context {A : Type} (less : A -> A -> bool).

(** One pass of the insertion loop: the index [i] with key [key] moves
    left past every index whose value is greater.  The ordered prefix is
    held right to left, so the scan starts at its head. *)
Fixpoint insert_index (v : list A) (key : A) (i : nat) (rprefix : list nat)
  : list nat :=
  match rprefix with
  | [] => [i]
  | k :: rest =>
      match nth_error v k with
      | Some x => if less key x then k :: insert_index v key i rest
                  else i :: rprefix
      | None => i :: rprefix
      end
  end.

(** The insertion loop over the entries still [pending], the first of
    which has index [i]. *)
Fixpoint insertion_pass (v : list A) (pending : list A) (i : nat)
         (rprefix : list nat) : list nat :=
  match pending with
  | [] => rprefix
  | key :: rest =>
      insertion_pass v rest (S i) (insert_index v key i rprefix)
  end.

(** [v.argsort()].  numpy's default kind is not stable: which of two
    equal entries comes first depends on the array's length and on the
    sorting routine the build selects.  This is the result of the
    insertion loop, which keeps equal entries in index order; every
    admissible result is a permutation of the indices along which the
    entries do not decrease, see [Props.is_argsort].  What is proved of
    the order of terms for every input, below, holds for each such
    result. *)
Definition argsort (v : list A) : list nat :=
  rev (insertion_pass v v 0 []).

End Argsort.

(** [a[-n:]] *)
Definition last_n {A : Type} (n : nat) (l : list A) : list A :=
  skipn (length l - n) l.

(** [[xs[j] for j in idxs]] with every index in range. *)
Definition take {A : Type} (xs : list A) (idxs : list nat) : list A :=
  flat_map (fun j => match nth_error xs j with
                     | Some x => [x]
                     | None => []
                     end) idxs.

(** pandas' [nargsort] on a column without missing values: for a
    descending sort the column is reversed, sorted, and the positions
    reversed back. *)
Definition nargsort (ascending : bool) (keys : list string) : list nat :=
  if ascending then argsort String.ltb keys
  else
    let n := length keys in
    rev (map (fun k => n - 1 - k) (argsort String.ltb (rev keys))).

(** [DataFrame(rows).sort_values(by=col, ascending=asc)] on a string column;
    an empty frame has no column to sort by. *)
Definition sort_values {R : Type} (col : string) (by_col : R -> string)
           (ascending : bool) (rows : list R) : Py.result (list R) :=
  match rows with
  | [] => inl (Py.KeyError col)
  | _ => inr (take rows (nargsort ascending (map by_col rows)))
  end.

End Np.


(** ** [str_wfs.py]: step structure and intervention position *)

Module Str_wfs.
Import Py.

Local Open Scope Z_scope.

Definition WF_FOLDERS : list string :=
  ["mayowf"; "clevelandwf"; "merckwf"; "webmdwf"; "wikiwf"].

Definition DISEASE_LIST : list string :=
  ["atopicdermatitis"; "commoncold"; "type2diabetes"; "multiplesclerosis";
   "gerd"; "cataracts"; "pcos"; "marfansyndrome"; "asthma"; "hemophilia";
   "hearingloss"; "narcolepsy"; "bph"; "bellspalsy"; "chronickidneydisease";
   "carpaltunnelsyndrome"; "chlamydia"; "tetanus"; "acromegaly"; "progeria"].

(** [SUFFIX_MAP[folder]]; the script only looks up the five folders. *)
Definition SUFFIX_MAP (folder : string) : string :=
  if String.eqb folder "mayowf" then "mayo"
  else if String.eqb folder "clevelandwf" then "cleveland"
  else if String.eqb folder "merckwf" then "merck"
  else if String.eqb folder "webmdwf" then "webmd"
  else "wiki".

Definition DEFINITIVE_INTERVENTION_KEYWORDS : list string :=
  ["surgery"; "surgical"; "transplant"; "radiation"; "dialysis";
   "fundoplication"; "replacement"; "ablation"; "resection"; "cut";
   "operative"; "implant"; "neuro"; "graft"; "laser"; "artery"; "steroids"].

(** The bullet U+2022 as its three UTF-8 bytes. *)
Definition bullet : string :=
  String "226"%char (String "128"%char (String "162"%char EmptyString)).

Definition is_step_mark (c : ascii) : bool :=
  Ascii.eqb c "."%char || Ascii.eqb c ")"%char.

(** [major_step_re.match(line)] for [^\s*(\d+)\s*[\.\)]\s*]: the captured
    digits when the line matches. *)
Definition major_step_re (line : string) : option string :=
  let (digits, rest) := span_digits (lstrip line) in
  match digits with
  | EmptyString => None
  | String _ _ =>
      match lstrip rest with
      | String c _ => if is_step_mark c then Some digits else None
      | EmptyString => None
      end
  end.

(** [sub_step_re.match(line)] for [^\s*[-*•]\s*], as a truth value. *)
Definition sub_step_re (line : string) : bool :=
  let r := lstrip line in
  String.prefix "-" r || String.prefix "*" r || String.prefix bullet r.

(** [any(keyword in lower_line for keyword in ...)] *)
Definition has_keyword (lower_line : string) : bool :=
  any (fun keyword => isin keyword lower_line) DEFINITIVE_INTERVENTION_KEYWORDS.

(** The loop variables of [analyze_workflow]. *)
Record scan : Type := mkScan {
  major_steps : Z;
  sub_steps : Z;
  intervention_step_position : option Z;
  current_major_step : Z
}.

Definition scan0 : scan := mkScan 0 0 None 0.

(** One iteration of [for line in lines]. *)
Definition scan_line (st : scan) (line : string) : scan :=
  let '(major, current) :=
    match major_step_re line with
    | Some digits => (major_steps st + 1, int digits)
    | None => (major_steps st, current_major_step st)
    end in
  let sub := if sub_step_re line then sub_steps st + 1 else sub_steps st in
  let position :=
    match intervention_step_position st with
    | Some p => Some p
    | None =>
        if has_keyword (lower line) then
          if 0 <? current then Some current
          else if 0 <? major then Some 1
          else None
        else None
    end in
  mkScan major sub position current.

Definition scan_lines (lines : list string) (st : scan) : scan :=
  fold_left scan_line lines st.

(** What [analyze_workflow(text)] returns when it returns, see
    [analyze_workflow_raises]. *)
Definition analyze_workflow (text : string) : Z * Z * option Z :=
  let lines := split_lines (strip text) in
  let st := scan_lines lines scan0 in
  (major_steps st, sub_steps st, intervention_step_position st).

(** [analyze_workflow(text)] raises, by the [int] of a captured step
    number, when the number of some major step line has more digits than
    [int] converts. *)
Definition analyze_workflow_raises (text : string) : bool :=
  existsb (fun line => match major_step_re line with
                       | Some digits => int_raises digits
                       | None => false
                       end)
          (split_lines (strip text)).

(** Per-source running totals, the values of [results]. *)
Record totals : Type := mkTotals {
  major : Z;
  sub : Z;
  aggression_pos_sum : Z;
  aggression_count : Z;
  count : Z
}.

Definition totals0 : totals := mkTotals 0 0 0 0 0.

(** [results], a [defaultdict] in insertion order. *)
Definition results_t : Type := list (string * totals).

Fixpoint update (site : string) (f : totals -> totals) (results : results_t)
  : results_t :=
  match results with
  | [] => [(site, f totals0)]
  | (k, t) :: rest =>
      if String.eqb k site then (k, f t) :: rest
      else (k, t) :: update site f rest
  end.

(** The body of the [try] for one file that was read and analysed. *)
Definition accumulate (site_key : string) (text : string) (results : results_t)
  : results_t :=
  let '(major_steps, sub_steps, intervention_pos) := analyze_workflow text in
  update site_key
    (fun t =>
       let t := mkTotals (major t + major_steps) (sub t + sub_steps)
                         (aggression_pos_sum t) (aggression_count t)
                         (count t + 1) in
       match intervention_pos with
       | Some p => mkTotals (major t) (sub t) (aggression_pos_sum t + p)
                            (aggression_count t + 1) (count t)
       | None => t
       end)
    results.

(** A path that does not exist is [None]; one that exists but cannot be
    opened or decoded is [Some None]. *)
Definition file_system : Type := string -> option (option string).

(** One iteration of the inner loop.  Whatever is raised inside the
    [try], by the read or by the analysis, is caught and the file is
    skipped; the totals are only touched after the analysis returned. *)
Definition scan_folder (fs : file_system) (root_dir disease : string)
           (results : results_t) (folder : string) : results_t :=
  let site_suffix := SUFFIX_MAP folder in
  let filename :=
    ("wf_" ++ disease ++ "_" ++ site_suffix ++ ".txt")%string in
  let file_path := path_join (path_join root_dir folder) filename in
  match fs file_path with
  | Some (Some text) =>
      if analyze_workflow_raises text then results
      else accumulate folder text results
  | Some None => results
  | None => results
  end.

Definition scan_corpus (fs : file_system) (root_dir : string) : results_t :=
  fold_left
    (fun results disease =>
       fold_left (scan_folder fs root_dir disease) WF_FOLDERS results)
    DISEASE_LIST [].

Record step_row : Type := mkStepRow {
  Source : string;
  Avg_Major_Steps : string;
  Avg_Sub_Steps : string;
  Total_WFs_Processed : Z
}.

Record aggression_row : Type := mkAggressionRow {
  Source' : string;
  Avg_Intervention_Step_Position : string;
  Applicable_WFs_Count : Z
}.

Definition source_name (site : string) : string :=
  title (remove2 "w" "f" site).

Definition step_data (results : results_t) : list step_row :=
  flat_map
    (fun '(site, data) =>
       if 0 <? count data then
         [mkStepRow (source_name site)
                    (format_2f (truediv (major data) (count data)))
                    (format_2f (truediv (sub data) (count data)))
                    (count data)]
       else [])
    results.

Definition aggression_data (results : results_t) : list aggression_row :=
  flat_map
    (fun '(site, data) =>
       if 0 <? aggression_count data then
         [mkAggressionRow
            (source_name site)
            (format_2f (truediv (aggression_pos_sum data)
                                (aggression_count data)))
            (aggression_count data)]
       else [])
    results.

(** [df_steps] *)
Definition df_steps (results : results_t) : result (list step_row) :=
  Np.sort_values "Avg Major Steps" Avg_Major_Steps false (step_data results).

(** [df_aggression] *)
Definition df_aggression (results : results_t)
  : result (list aggression_row) :=
  Np.sort_values "Avg Intervention Step Position"
                 Avg_Intervention_Step_Position true
                 (aggression_data results).

(** The two tables [structural_analysis] prints, or the exception that
    ends it. *)
Definition structural_analysis (fs : file_system) (root_dir : string)
  : result (list step_row * list aggression_row) :=
  let results := scan_corpus fs root_dir in
  match df_steps results with
  | inl e => inl e
  | inr t1 =>
      match df_aggression results with
      | inl e => inl e
      | inr t2 => inr (t1, t2)
      end
  end.

End Str_wfs.

(** ** [analyze_wfs.py]: similarity and distinctive terms *)

Module Analyze_wfs.
Import Py.

Definition WF_FOLDERS : list string :=
  ["mayowf"; "clevelandwf"; "merckwf"; "webmdwf"; "wikiwf"].

(** *** Dictionaries in insertion order *)

Definition dict (V : Type) : Type := list (string * V).

Fixpoint get_item {V : Type} (k : string) (d : dict V) : option V :=
  match d with
  | [] => None
  | (k', v) :: rest => if String.eqb k' k then Some v else get_item k rest
  end.

(** [d[k] = v]: an existing key keeps its place, a new one goes last. *)
Fixpoint set_item {V : Type} (k : string) (v : V) (d : dict V) : dict V :=
  match d with
  | [] => [(k, v)]
  | (k', v') :: rest =>
      if String.eqb k' k then (k', v) :: rest
      else (k', v') :: set_item k v rest
  end.

Definition keys {V : Type} (d : dict V) : list string := map fst d.
Definition values {V : Type} (d : dict V) : list V := map snd d.

(** *** The corpus loader *)

(** A lazy [(.*?)_] at the head of a string: the characters before the
    first underscore, none of them a newline. *)
Fixpoint lazy_group (s : string) : option string :=
  match s with
  | EmptyString => None
  | String c r =>
      if Ascii.eqb c "_"%char then Some EmptyString
      else if Ascii.eqb c newline then None
      else option_map (String c) (lazy_group r)
  end.

Definition drop3 (s : string) : string :=
  match s with
  | String _ (String _ (String _ r)) => r
  | _ => EmptyString
  end.

(** [wf_(.*?)_] matched at the head of a string: the captured group. *)
Definition match_wf (s : string) : option string :=
  if String.prefix "wf_" s then lazy_group (drop3 s) else None.

(** The scan of [re.findall]: [skip] characters of the last match are
    still to be passed over. *)
Fixpoint findall_from (skip : nat) (s : string) : list string :=
  match s with
  | EmptyString => []
  | String c r =>
      match skip with
      | S k => findall_from k r
      | O =>
          match match_wf s with
          | Some g => g :: findall_from (String.length g + 3) r
          | None => findall_from 0 r
          end
      end
  end.

(** [re.findall(r"wf_(.*?)_", name)] *)
Definition findall_wf (name : string) : list string := findall_from 0 name.

(** [xs[0]] *)
Definition first_item {A : Type} (xs : list A) : result A :=
  match xs with
  | x :: _ => inr x
  | [] => inl index_error
  end.

(** A directory is the list of its entries in the order the operating
    system enumerates them, each a base name with what
    [open(f, encoding="utf-8").read()] gives for it: the decoded text, or
    the exception raised when the file cannot be opened or decoded.  A
    path that is not a directory is [None]. *)
Definition directory : Type := list (string * result string).
Definition file_system : Type := string -> option directory.

Fixpoint ends_with_txt (s : string) : bool :=
  String.eqb s ".txt"
  || match s with
     | EmptyString => false
     | String _ r => ends_with_txt r
     end.

(** [glob.glob(os.path.join(path, "*.txt"))]: the entries ending in
    [.txt] that are not hidden, in enumeration order. *)
Definition glob_txt (entries : directory) : directory :=
  filter (fun '(name, _) => ends_with_txt name && negb (String.prefix "." name))
         entries.

Definition corpus : Type := dict (dict string).

(** The body of the inner loop for one file of [folder]: the file is
    read first, then its name is searched. *)
Definition load_file (folder : string) (data : corpus)
           (entry : string * result string) : result corpus :=
  let '(name, content) := entry in
  match content with
  | inl e => inl e
  | inr text =>
      match first_item (findall_wf name) with
      | inl e => inl e
      | inr disease =>
          let data := match get_item disease data with
                      | None => set_item disease [] data
                      | Some _ => data
                      end in
          let inner := match get_item disease data with
                       | Some d => d
                       | None => []
                       end in
          inr (set_item disease (set_item folder text inner) data)
      end
  end.

Fixpoint load_files (folder : string) (files : directory) (data : corpus)
  : result corpus :=
  match files with
  | [] => inr data
  | entry :: rest =>
      match load_file folder data entry with
      | inl e => inl e
      | inr data' => load_files folder rest data'
      end
  end.

Fixpoint load_folders (fs : file_system) (root : string)
         (folders : list string) (data : corpus) : result corpus :=
  match folders with
  | [] => inr data
  | folder :: rest =>
      match fs (path_join root folder) with
      | None => load_folders fs root rest data
      | Some entries =>
          match load_files folder (glob_txt entries) data with
          | inl e => inl e
          | inr data' => load_folders fs root rest data'
          end
      end
  end.

Definition load_workflows (fs : file_system) (root : string) : result corpus :=
  load_folders fs root WF_FOLDERS [].

(** *** The text normaliser *)

Definition is_enum_mark (c : ascii) : bool :=
  Ascii.eqb c "."%char || Ascii.eqb c ")"%char.

(** Length of the match of [\d+[\.\)]] at the head of a string. *)
Definition match_enum (s : string) : option nat :=
  let (digits, rest) := span_digits s in
  match digits, rest with
  | String _ _, String c _ =>
      if is_enum_mark c then Some (S (String.length digits)) else None
  | _, _ => None
  end.

(** The scan of [re.sub(pattern, " ", s)]: each match is replaced by one
    blank, and [skip] characters of the last match remain to be dropped. *)
Fixpoint sub_from (skip : nat) (s : string) : string :=
  match s with
  | EmptyString => EmptyString
  | String c r =>
      match skip with
      | S k => sub_from k r
      | O =>
          match match_enum s with
          | Some (S k) => String " "%char (sub_from k r)
          | _ => String c (sub_from 0 r)
          end
      end
  end.

Definition re_sub_enum (text : string) : string := sub_from 0 text.

(** A string made of digits only. *)
Fixpoint all_digits (s : string) : bool :=
  match s with
  | EmptyString => true
  | String c r => is_digit c && all_digits r
  end.

(** What may follow a run of digits that the pattern does not match: the
    end of the text, or a character that is neither a digit nor a mark. *)
Definition bare_end (s : string) : bool :=
  match s with
  | EmptyString => true
  | String c _ => negb (is_digit c) && negb (is_enum_mark c)
  end.

Definition starts_with_mark (s : string) : bool :=
  match s with
  | EmptyString => false
  | String c _ => is_enum_mark c
  end.


Definition preprocess (text : string) : string :=
  let text := re_sub_enum text in
  let text := lower text in
  text.

(** *** Cosine similarity *)

(** Here weights are the real numbers that the binary64 weights denote
    and the arithmetic is exact.  The order of weights, the shape of the
    matrix and the keys of the report do not depend on rounding and are
    studied on this form; the values of the entries are studied on the
    binary64 form below. *)

Local Open Scope R_scope.

Definition dot (x y : list R) : R :=
  fold_right Rplus 0 (map (fun '(a, b) => a * b) (combine x y)).

Definition norm (x : list R) : R := sqrt (dot x x).

(** scikit-learn's [normalize]: each row is divided by its Euclidean
    norm, a zero norm being replaced by one. *)
Definition normalize_row (x : list R) : list R :=
  let n := norm x in
  let n := if Req_dec_T n 0 then 1 else n in
  map (fun a => a / n) x.

(** scikit-learn's [cosine_similarity(X)]: the product of the normalised
    matrix with its transpose, as nested lists. *)
Definition cosine_similarity (X : list (list R)) : list (list R) :=
  let Xn := map normalize_row X in
  map (fun x => map (fun y => dot x y) Xn) Xn.

Definition entry (M : list (list R)) (i j : nat) : R :=
  nth j (nth i M []) 0.

(** numpy's [<] on weights. *)
Definition Rltb (a b : R) : bool := if Rlt_dec a b then true else false.

Local Close Scope R_scope.

(** *** Cosine similarity in binary64 *)

(** The entries of the matrix as the libraries compute them on the
    sparse matrix the vectoriser returns.  A row is given by its dense
    list of binary64 weights; the entries equal to zero are the ones the
    sparse matrix does not store, and they take no part in the sums.  Sums
    run over the stored entries by increasing index. *)

Module Binary64.

(** [a == 0.0] *)
Definition is_zero (a : float) : bool := PrimFloat.eqb a 0%float.

(** The sum of the squares of the stored entries of a row. *)
Definition squared_norm (x : list float) : float :=
  fold_left (fun acc a =>
               if is_zero a then acc
               else PrimFloat.add acc (PrimFloat.mul a a))
            x 0%float.

(** scikit-learn's [normalize] on a sparse row: the stored entries are
    divided by the square root of the sum of their squares; a row for
    which that sum is zero is left as it is. *)
Definition normalize_row (x : list float) : list float :=
  let sum_ := squared_norm x in
  if is_zero sum_ then x
  else
    let n := PrimFloat.sqrt sum_ in
    map (fun a => if is_zero a then a else PrimFloat.div a n) x.

(** An entry of the product of the normalised matrix with its transpose:
    the products of the entries stored in both rows, added up from zero. *)
Definition dot (x y : list float) : float :=
  fold_left (fun acc '(a, b) =>
               if is_zero a || is_zero b then acc
               else PrimFloat.add acc (PrimFloat.mul a b))
            (combine x y) 0%float.

(** scikit-learn's [cosine_similarity(X)] with its dense output. *)
Definition cosine_similarity (X : list (list float)) : list (list float) :=
  let Xn := map normalize_row X in
  map (fun x => map (fun y => dot x y) Xn) Xn.

Definition entry (M : list (list float)) (i j : nat) : float :=
  nth j (nth i M []) 0%float.

Section Vectoriser.

(** The vectoriser with the rows of [fit_transform] in binary64. *)
Variable tfidf
  : option nat -> list string -> result (list string * list (list float)).

Definition compute_similarity (workflows : dict string)
  : result (list string * list (list float)) :=
  let sites := keys workflows in
  let texts := map preprocess (values workflows) in
  match tfidf None texts with
  | inl e => inl e
  | inr (_, rows) =>
      let sim := cosine_similarity rows in
      inr (sites, sim)
  end.

End Vectoriser.

End Binary64.

(** *** The analysis proper, over the vectoriser *)

Section Vectoriser.

(** [TfidfVectorizer(stop_words="english", max_features=m)] applied to a
    list of documents: the feature names of [get_feature_names_out] and
    the dense rows of [fit_transform], or the exception it raises. *)
Variable tfidf : option nat -> list string -> result (list string * list (list R)).

Definition compute_similarity (workflows : dict string)
  : result (list string * list (list R)) :=
  let sites := keys workflows in
  let texts := map preprocess (values workflows) in
  match tfidf None texts with
  | inl e => inl e
  | inr (_, rows) =>
      let sim := cosine_similarity rows in
      inr (sites, sim)
  end.

(** [[terms[j] for j in top_idxs]] *)
Fixpoint index_all (terms : list string) (idxs : list nat)
  : result (list string) :=
  match idxs with
  | [] => inr []
  | j :: rest =>
      match nth_error terms j with
      | None => inl (IndexError "index out of bounds")
      | Some t =>
          match index_all terms rest with
          | inl e => inl e
          | inr ts => inr (t :: ts)
          end
      end
  end.

(** [row.argsort()[-10:][::-1]] *)
Definition top_idxs (row : list R) : list nat :=
  rev (Np.last_n 10 (Np.argsort Rltb row)).

(** The weight of vocabulary index [j] in [row]. *)
Definition weight (row : list R) (j : nat) : R := nth j row 0%R.

(** Index [i] is listed before index [j]: it weighs more, or as much
    with [i] the later index. *)
Definition ranked_before (row : list R) (i j : nat) : Prop :=
  (weight row j < weight row i)%R \/ (weight row j = weight row i /\ j < i).

(** The number of nonzero entries of a term vector. *)
Definition nonzero_entries (row : list R) : nat :=
  List.length (filter (fun a => if Req_dec_T a 0%R then false else true) row).

(** The loop of [find_unique_terms] from position [i] on. *)
Fixpoint unique_terms_from (terms : list string) (rows : list (list R))
         (i : nat) (sites : list string) : result (dict (list string)) :=
  match sites with
  | [] => inr []
  | site :: rest =>
      match nth_error rows i with
      | None => inl (IndexError "row index out of range")
      | Some row =>
          match index_all terms (top_idxs row) with
          | inl e => inl e
          | inr top =>
              match unique_terms_from terms rows (S i) rest with
              | inl e => inl e
              | inr out => inr ((site, top) :: out)
              end
          end
      end
  end.

Definition find_unique_terms (workflows : dict string)
  : result (dict (list string)) :=
  let all_text := map (fun '(site, text) => (site, preprocess text)) workflows in
  match tfidf (Some 40) (values all_text) with
  | inl e => inl e
  | inr (terms, rows) => unique_terms_from terms rows 0 (keys all_text)
  end.

Record entry_t : Type := mkEntry {
  sites : list string;
  similarity_matrix : list (list R);
  unique_terms : dict (list string)
}.

(** The loop of [analyze] over [wf_data.items()]. *)
Fixpoint analyze_items (items : corpus) : result (dict entry_t) :=
  match items with
  | [] => inr []
  | (disease, workflows) :: rest =>
      if (List.length workflows <? 2)%nat then analyze_items rest
      else
        match compute_similarity workflows with
        | inl e => inl e
        | inr (sites, sim) =>
            match find_unique_terms workflows with
            | inl e => inl e
            | inr uniq =>
                match analyze_items rest with
                | inl e => inl e
                | inr report => inr ((disease, mkEntry sites sim uniq) :: report)
                end
            end
        end
  end.

Definition analyze (fs : file_system) (root : string) : result (dict entry_t) :=
  match load_workflows fs root with
  | inl e => inl e
  | inr wf_data => analyze_items wf_data
  end.

End Vectoriser.

(** *** Enumeration order *)

(** The disease ids of the listed files whose names have one. *)
Definition disease_ids (files : directory) : list string :=
  flat_map (fun '(name, _) => firstn 1 (findall_wf name)) files.

(** Two file systems hold the same directories with the same entries,
    enumerated in possibly different orders. *)
Definition same_contents (fs1 fs2 : file_system) : Prop :=
  forall path,
    match fs1 path, fs2 path with
    | Some a, Some b => Permutation a b
    | None, None => True
    | _, _ => False
    end.

(** No source folder lists two files with the same disease id. *)
Definition one_file_per_disease (fs : file_system) (root : string) : Prop :=
  forall folder entries,
    In folder WF_FOLDERS -> fs (path_join root folder) = Some entries ->
    NoDup (disease_ids (glob_txt entries)).

(** Two dictionaries map every key to the same value. *)
Definition same_lookup {V : Type} (a b : dict V) : Prop :=
  forall k, get_item k a = get_item k b.

(** Two runs both raise, or both return and their dictionaries agree on
    every key. *)
Definition same_outcome {V : Type} (r1 r2 : result (dict V)) : Prop :=
  match r1, r2 with
  | inr a, inr b => same_lookup a b
  | inl _, inl _ => True
  | _, _ => False
  end.

(** The part of the loop of [analyze] that handles one disease. *)
Definition analyze_item
           (tfidf : option nat -> list string
                    -> result (list string * list (list R)))
           (workflows : dict string) : option (result entry_t) :=
  if (List.length workflows <? 2)%nat then None
  else
    Some match compute_similarity tfidf workflows with
         | inl e => inl e
         | inr (sites, sim) =>
             match find_unique_terms tfidf workflows with
             | inl e => inl e
             | inr uniq => inr (mkEntry sites sim uniq)
             end
         end.

End Analyze_wfs.

(** ** Sample inputs *)

Module Samples.
Import Py.

(** A file system holding the listed directories and nothing else. *)
Definition dirs (ds : Analyze_wfs.dict Analyze_wfs.directory)
  : Analyze_wfs.file_system :=
  fun path => Analyze_wfs.get_item path ds.

(** Files that are all read without error. *)
Definition readable (files : list (string * string)) : Analyze_wfs.directory :=
  map (fun '(name, text) => (name, inr text)) files.

(** One source folder with a stray note beside a well-named workflow. *)
Definition stray_note : Analyze_wfs.file_system :=
  dirs [("./mayowf", readable [("notes.txt", "rest");
                               ("wf_asthma_mayo.txt", "1. inhaler")])].

(** A file whose name holds the pattern, but not at its start. *)
Definition unanchored : Analyze_wfs.file_system :=
  dirs [("./mayowf", readable [("notes_wf_asthma_old.txt", "draft")])].

(** What reading a file that is not UTF-8 raises. *)
Definition not_utf8 : exn :=
  UnicodeDecodeError "'utf-8' codec can't decode byte 0xff in position 0: invalid start byte".

(** A well-named workflow that cannot be decoded, listed before a stray
    note. *)
Definition undecodable : Analyze_wfs.file_system :=
  dirs [("./mayowf", [("wf_asthma_mayo.txt", inl not_utf8);
                      ("notes.txt", inr "rest")])].

(** A workflow of [n] numbered lines, the last of which reads [last]. *)
Fixpoint numbered (n : nat) (last : string) : string :=
  match n with
  | O => EmptyString
  | S k => numbered k "rest" ++ str_of_Z (Z.of_nat n) ++ ". " ++ last ++ nl
  end.

(** A tree of workflow files given by path. *)
Definition files (fs : list (string * string)) : Str_wfs.file_system :=
  fun path => option_map Some (Analyze_wfs.get_item path fs).

(** Two Mayo workflows of 10 and 9 steps and four Cleveland workflows of
    11, 10, 10 and 10 steps, each naming surgery on its last step. *)
Definition two_sources : Str_wfs.file_system :=
  files [("./mayowf/wf_asthma_mayo.txt", numbered 10 "surgery");
         ("./mayowf/wf_gerd_mayo.txt", numbered 9 "surgery");
         ("./clevelandwf/wf_asthma_cleveland.txt", numbered 11 "surgery");
         ("./clevelandwf/wf_gerd_cleveland.txt", numbered 10 "surgery");
         ("./clevelandwf/wf_pcos_cleveland.txt", numbered 10 "surgery");
         ("./clevelandwf/wf_bph_cleveland.txt", numbered 10 "surgery")].

(** What the vectoriser returns for the two documents ["1. a"] and
    ["Aspirin"]: one feature, absent from the first document. *)
Definition aspirin_tfidf (max_features : option nat) (texts : list string)
  : result (list string * list (list R)) :=
  inr (["aspirin"], [[0%R]; [1%R]]).



(** [<] on rational weights, for computing with sample rows. *)
Definition Qltb (a b : Q) : bool := negb (Qle_bool b a).

Definition twelve_terms : list string :=
  ["ablation"; "aspirin"; "cream"; "diet"; "exercise"; "fluids"; "inhaler";
   "ointment"; "sleep"; "steroids"; "surgery"; "water"].

Definition first_weights : list Q :=
  [0; 2 # 3; 2 # 3; 0; 0; 0; 0; 1 # 3; 0; 0; 0; 0]%Q.

Definition second_weights : list Q :=
  [1 # 3; 0; 0; 1 # 3; 1 # 3; 1 # 3; 1 # 3; 0; 1 # 3; 1 # 3; 1 # 3; 1 # 3]%Q.

(** What the vectoriser returns for a first document naming aspirin and
    cream twice and ointment once, and a second naming the nine other
    terms once each. *)
Definition twelve_tfidf (max_features : option nat) (texts : list string)
  : result (list string * list (list R)) :=
  inr (twelve_terms, [map Q2R first_weights; map Q2R second_weights]).

Definition twelve_workflows : Analyze_wfs.dict string :=
  [("mayowf", "Aspirin aspirin cream cream ointment");
   ("wikiwf",
    "ablation diet exercise fluids inhaler sleep steroids surgery water")].

(** What the vectoriser returns for two documents that both name alpha
    and beta once. *)
Definition tie_tfidf (max_features : option nat) (texts : list string)
  : result (list string * list (list R)) :=
  inr (["alpha"; "beta"],
       [[(/ sqrt 2)%R; (/ sqrt 2)%R]; [(/ sqrt 2)%R; (/ sqrt 2)%R]]).

(** The binary64 value nearest to the square root of one half, which is
    what the vectoriser returns for each of these weights. *)
Definition half_sqrt : float := 0x1.6a09e667f3bccp-1%float.

Definition tie_tfidf64 (max_features : option nat) (texts : list string)
  : result (list string * list (list float)) :=
  inr (["alpha"; "beta"], [[half_sqrt; half_sqrt]; [half_sqrt; half_sqrt]]).

(** What the vectoriser returns in binary64 for a first document naming
    antacid and a second naming surgery. *)
Definition apart_tfidf64 (max_features : option nat) (texts : list string)
  : result (list string * list (list float)) :=
  inr (["antacid"; "surgery"], [[1%float; 0%float]; [0%float; 1%float]]).

Definition apart_workflows : Analyze_wfs.dict string :=
  [("mayowf", "Antacid"); ("wikiwf", "Surgery")].

Definition tie_workflows : Analyze_wfs.dict string :=
  [("mayowf", "alpha beta"); ("wikiwf", "beta alpha")].

(** One disease in two sources; the first source holds two files for
    it.  The two file systems differ only in the order of those two. *)
Definition listing_a : Analyze_wfs.file_system :=
  dirs [("./mayowf", readable [("wf_gerd_mayo.txt", "Antacid");
                               ("wf_gerd_mayo_old.txt", "Surgery")]);
        ("./wikiwf", readable [("wf_gerd_wiki.txt", "Surgery")])].

Definition listing_b : Analyze_wfs.file_system :=
  dirs [("./mayowf", readable [("wf_gerd_mayo_old.txt", "Surgery");
                               ("wf_gerd_mayo.txt", "Antacid")]);
        ("./wikiwf", readable [("wf_gerd_wiki.txt", "Surgery")])].

(** Two diseases in the first source, one file each, in either order. *)
Definition plain_a : Analyze_wfs.file_system :=
  dirs [("./mayowf", readable [("wf_gerd_mayo.txt", "Antacid");
                               ("wf_asthma_mayo.txt", "Inhaler")]);
        ("./wikiwf", readable [("wf_gerd_wiki.txt", "Surgery")])].

Definition plain_b : Analyze_wfs.file_system :=
  dirs [("./mayowf", readable [("wf_asthma_mayo.txt", "Inhaler");
                               ("wf_gerd_mayo.txt", "Antacid")]);
        ("./wikiwf", readable [("wf_gerd_wiki.txt", "Surgery")])].


(** What the vectoriser returns for the document pairs of these file
    systems: antacid against surgery, and surgery against surgery. *)
Definition gerd_tfidf (max_features : option nat) (texts : list string)
  : result (list string * list (list R)) :=
  if existsb (String.eqb "antacid") texts
  then inr (["antacid"; "surgery"],
            [map Q2R [1; 0]%Q; map Q2R [0; 1]%Q])
  else inr (["surgery"], [map Q2R [1]%Q; map Q2R [1]%Q]).

End Samples.

(** ** Predicates used to state further properties *)

Module Props.
Import Py.

Local Open Scope Z_scope.

(** What every state of the scan of [analyze_workflow] satisfies after
    [lines_seen] lines. *)
Definition scan_ok (lines_seen : Z) (st : Str_wfs.scan) : Prop :=
  0 <= Str_wfs.major_steps st /\ 0 <= Str_wfs.sub_steps st /\
  Str_wfs.major_steps st + Str_wfs.sub_steps st <= lines_seen /\
  0 <= Str_wfs.current_major_step st /\
  (0 < Str_wfs.current_major_step st -> 1 <= Str_wfs.major_steps st) /\
  (forall p, Str_wfs.intervention_step_position st = Some p ->
             1 <= p /\ 1 <= Str_wfs.major_steps st).

(** In an array [v], the entry at index [i] is not less than the entry at
    index [j]. *)
Definition not_below {A : Type} (less : A -> A -> bool) (v : list A)
           (i j : nat) : Prop :=
  forall a b, nth_error v i = Some a -> nth_error v j = Some b ->
              less a b = false.

(** What [v.argsort()] may return: a permutation [p] of the indices of
    [v] along which the entries do not decrease, equal entries in any
    order. *)
Definition is_argsort {A : Type} (less : A -> A -> bool) (v : list A)
           (p : list nat) : Prop :=
  Permutation p (seq 0 (length v)) /\
  StronglySorted (fun i j => not_below less v j i) p.

(** What the running totals of a source satisfy once the corpus is
    scanned. *)
Definition totals_ok (site : string) (t : Str_wfs.totals) : Prop :=
  In site Str_wfs.WF_FOLDERS /\
  1 <= Str_wfs.count t <= 20 /\
  0 <= Str_wfs.aggression_count t <= Str_wfs.count t /\
  0 <= Str_wfs.major t /\ 0 <= Str_wfs.sub t /\
  Str_wfs.aggression_count t <= Str_wfs.aggression_pos_sum t.

(** The path at which [structural_analysis] looks for the workflow of
    [disease] in [folder]. *)
Definition expected_path (root_dir disease folder : string) : string :=
  path_join (path_join root_dir folder)
            ("wf_" ++ disease ++ "_" ++ Str_wfs.SUFFIX_MAP folder ++ ".txt").

(** The invariant of the double loop of [structural_analysis]: [k]
    diseases are done, and of the current disease the folders not in
    [todo]. *)
Definition scanned (k : Z) (todo : list string) (results : Str_wfs.results_t)
  : Prop :=
  NoDup (map fst results) /\
  forall site t,
    In (site, t) results ->
    In site Str_wfs.WF_FOLDERS /\
    1 <= Str_wfs.count t <= k + 1 /\
    (In site todo -> Str_wfs.count t <= k) /\
    0 <= Str_wfs.aggression_count t <= Str_wfs.count t /\
    0 <= Str_wfs.major t /\ 0 <= Str_wfs.sub t /\
    Str_wfs.aggression_count t <= Str_wfs.aggression_pos_sum t.

(** The first list is obtained from the second by dropping entries,
    the order of the others being kept. *)
Inductive in_order {A : Type} : list A -> list A -> Prop :=
| in_order_nil : in_order [] []
| in_order_skip (x : A) (a l : list A) : in_order a l -> in_order a (x :: l)
| in_order_keep (x : A) (a l : list A) :
    in_order a l -> in_order (x :: a) (x :: l).

(** What a loaded corpus satisfies once the folders [processed] are
    read. *)
Definition loaded (processed : list string) (data : Analyze_wfs.corpus)
  : Prop :=
  forall disease inner,
    Analyze_wfs.get_item disease data = Some inner ->
    inner <> [] /\ in_order (Analyze_wfs.keys inner) processed.

(** A disease id that the file name pattern captures whole: it holds
    neither an underscore nor a newline. *)
Fixpoint plain_id (s : string) : bool :=
  match s with
  | EmptyString => true
  | String c r =>
      negb (Ascii.eqb c "_"%char) && negb (Ascii.eqb c newline) && plain_id r
  end.

(** A listed file that is read without error and in whose name the
    pattern occurs: one iteration of the loader's inner loop passes. *)
Definition loads (entry : string * result string) : bool :=
  match snd entry with
  | inr _ =>
      match Analyze_wfs.findall_wf (fst entry) with
      | [] => false
      | _ :: _ => true
      end
  | inl _ => false
  end.

(** [data[disease][folder]], when both keys are present. *)
Definition stored (disease folder : string) (data : Analyze_wfs.corpus)
  : option string :=
  match Analyze_wfs.get_item disease data with
  | Some inner => Analyze_wfs.get_item folder inner
  | None => None
  end.

End Props.

(** ** Further sample inputs *)

Module More_samples.
Import Py.

(** A vectoriser that finds no vocabulary, as for documents made of
    stop words only. *)
Definition failing_tfidf (max_features : option nat) (texts : list string)
  : result (list string * list (list R)) :=
  inl (ValueError "empty vocabulary; perhaps the documents only contain stop words").

Fixpoint repeat_char (n : nat) (c : ascii) : string :=
  match n with
  | O => EmptyString
  | S k => String c (repeat_char k c)
  end.

(** A workflow whose only step carries a number of 4301 digits, one more
    than [int] converts. *)
Definition long_step : string := repeat_char 4301 "7" ++ ". Surgery".

(** A tree given by its paths: the text of a file that can be read, or
    [None] for one that cannot. *)
Definition tree (entries : list (string * option string))
  : Str_wfs.file_system :=
  fun path => Analyze_wfs.get_item path entries.

(** A note that is not an expected file, an expected file that cannot be
    decoded, and an expected file on which the analysis raises. *)
Definition nothing_usable : Str_wfs.file_system :=
  tree [("./mayowf/readme.md", Some "1. Surgery");
        ("./mayowf/wf_asthma_mayo.txt", None);
        ("./wikiwf/wf_gerd_wiki.txt", Some long_step)].

(** One expected file that is analysed and names no intervention, beside
    a note naming one, an expected file on which the analysis raises, and
    one that cannot be decoded. *)
Definition no_position : Str_wfs.file_system :=
  tree [("./mayowf/wf_asthma_mayo.txt", Some "1. Use the inhaler");
        ("./mayowf/notes.txt", Some "1. Surgery");
        ("./wikiwf/wf_gerd_wiki.txt", Some long_step);
        ("./merckwf/wf_gerd_merck.txt", None)].

End More_samples.

(** * Properties of the step structural parser *)

Section Parser_facts.
Import Py Str_wfs.

Local Open Scope Z_scope.

Lemma prefix_app_iff (kw s : string) :
  String.prefix kw s = true <-> exists post, s = (kw ++ post)%string.
Proof.
  revert s; induction kw as [|a kw IH]; intros s; simpl.
  - split; [intros _; exists s; reflexivity | destruct s; reflexivity].
  - destruct s as [|b s]; simpl.
    + split; [discriminate | intros [post H]; discriminate].
    + destruct (ascii_dec a b) as [->|Hab].
      * rewrite IH. split; intros [post H]; exists post; congruence.
      * split; [discriminate | intros [post H]; congruence].
Qed.

Lemma isin_iff (kw s : string) :
  isin kw s = true <-> exists pre post, s = (pre ++ kw ++ post)%string.
Proof.
  induction s as [|c r IH]; cbn [isin].
  - rewrite orb_false_r, prefix_app_iff. split.
    + intros [post H]. exists EmptyString, post. exact H.
    + intros [pre [post H]]. destruct pre; [exists post; exact H | discriminate].
  - rewrite orb_true_iff, prefix_app_iff, IH. split.
    + intros [[post H] | [pre [post H]]].
      * exists EmptyString, post. exact H.
      * exists (String c pre), post. simpl. congruence.
    + intros [pre [post H]]. destruct pre as [|c' pre]; simpl in H.
      * left. exists post. exact H.
      * right. exists pre, post. congruence.
Qed.

Lemma has_keyword_iff (lower_line : string) :
  has_keyword lower_line = true <->
  exists keyword pre post,
    In keyword DEFINITIVE_INTERVENTION_KEYWORDS /\
    lower_line = (pre ++ keyword ++ post)%string.
Proof.
  unfold has_keyword, any. rewrite existsb_exists. split.
  - intros [kw [Hin H]]. apply isin_iff in H. destruct H as [pre [post H]].
    exists kw, pre, post. split; assumption.
  - intros [kw [pre [post [Hin H]]]]. exists kw. split; [assumption|].
    apply isin_iff. exists pre, post. exact H.
Qed.

Lemma position_kept (st : scan) (line : string) (p : Z) :
  intervention_step_position st = Some p ->
  intervention_step_position (scan_line st line) = Some p.
Proof.
  intros H. unfold scan_line.
  destruct (major_step_re line); simpl; rewrite H; reflexivity.
Qed.

Lemma position_kept_lines (lines : list string) (st : scan) (p : Z) :
  intervention_step_position st = Some p ->
  intervention_step_position (scan_lines lines st) = Some p.
Proof.
  revert st; induction lines as [|l ls IH]; intros st H; simpl.
  - exact H.
  - apply IH, position_kept, H.
Qed.

Lemma scan_line_position (st : scan) (line : string) :
  intervention_step_position (scan_line st line) =
  match intervention_step_position st with
  | Some p => Some p
  | None =>
      if has_keyword (lower line) then
        if 0 <? current_major_step (scan_line st line)
        then Some (current_major_step (scan_line st line))
        else if 0 <? major_steps (scan_line st line) then Some 1
        else None
      else None
  end.
Proof.
  unfold scan_line. destruct (major_step_re line); reflexivity.
Qed.

(** C3.  When a line holding a keyword is scanned and no position is
    recorded yet, the position becomes the current major step number if
    that is positive, else 1 if a major step line has been counted, else
    it stays unset; a line without keyword leaves it unset; a recorded
    position survives every later line; and the text with the keyword
    line before the only numbered step yields no position. *)
Theorem intervention_position_two_tier (st : scan) (line : string) :
  let st' := scan_line st line in
  (intervention_step_position st = None ->
   has_keyword (lower line) = true ->
   (0 < current_major_step st' ->
    intervention_step_position st' = Some (current_major_step st')) /\
   (current_major_step st' <= 0 -> 0 < major_steps st' ->
    intervention_step_position st' = Some 1) /\
   (current_major_step st' <= 0 -> major_steps st' <= 0 ->
    intervention_step_position st' = None)) /\
  (intervention_step_position st = None ->
   has_keyword (lower line) = false ->
   intervention_step_position st' = None) /\
  (forall (p : Z) (later : list string),
     intervention_step_position st = Some p ->
     intervention_step_position (scan_lines (line :: later) st) = Some p) /\
  analyze_workflow ("Consider steroids" ++ nl ++ "1. Apply cream")
  = (1, 0, None).
Proof.
  intros st'. split; [|split; [|split]].
  - intros Hnone Hkw. unfold st'.
    rewrite scan_line_position, Hnone, Hkw. fold st'.
    split; [|split].
    + intros Hpos. apply Z.ltb_lt in Hpos. rewrite Hpos. reflexivity.
    + intros Hcur Hmaj. apply Z.ltb_ge in Hcur. apply Z.ltb_lt in Hmaj.
      rewrite Hcur, Hmaj. reflexivity.
    + intros Hcur Hmaj. apply Z.ltb_ge in Hcur. apply Z.ltb_ge in Hmaj.
      rewrite Hcur, Hmaj. reflexivity.
  - intros Hnone Hkw. unfold st'.
    rewrite scan_line_position, Hnone, Hkw. reflexivity.
  - intros p later Hp. apply position_kept_lines. exact Hp.
  - reflexivity.
Qed.

Lemma intervention_position_two_tier_witness :
  intervention_step_position
    (scan_line (mkScan 3 0 None 7) "- then surgery") = Some 7 /\
  intervention_step_position
    (scan_line scan0 "0) Laser first") = Some 1 /\
  intervention_step_position
    (scan_line scan0 "Consider steroids") = None.
Proof.
  split; [|split].
  - apply (proj1 (intervention_position_two_tier
                    (mkScan 3 0 None 7) "- then surgery"));
      [reflexivity | reflexivity | reflexivity].
  - apply (proj1 (intervention_position_two_tier scan0 "0) Laser first"));
      [reflexivity | reflexivity | discriminate | reflexivity].
  - apply (proj1 (intervention_position_two_tier scan0 "Consider steroids"));
      [reflexivity | reflexivity | discriminate | discriminate].
Defined.

(** C4.  The three-line example has two major steps, one sub-step and
    the intervention at step 2; the current major step is the number
    captured on the matched line, so that steps numbered 5 and 7 put the
    intervention at 7 although only two steps were counted. *)
Theorem analyze_workflow_example :
  analyze_workflow
    ("1. Apply cream" ++ nl ++ "2. Consider surgery" ++ nl ++ "- use daily")
  = (2, 1, Some 2) /\
  (forall (st : scan) (line : string),
     current_major_step (scan_line st line) =
     match major_step_re line with
     | Some digits => int digits
     | None => current_major_step st
     end) /\
  major_step_re "2. Consider surgery" = Some "2" /\
  analyze_workflow ("5. Rest" ++ nl ++ "7. Consider surgery") = (2, 0, Some 7).
Proof.
  split; [reflexivity|]. split; [|split; reflexivity].
  intros st line. unfold scan_line. destruct (major_step_re line); reflexivity.
Qed.

(** C10.  A line triggers intervention detection exactly when its
    lower-cased text contains one of the keywords as a contiguous block,
    wherever it sits: [cut] inside [execute] and [neuro] inside
    [neurological] count. *)
Theorem keyword_detection_is_substring :
  (forall line : string,
     has_keyword (lower line) = true <->
     exists keyword pre post,
       In keyword DEFINITIVE_INTERVENTION_KEYWORDS /\
       lower line = (pre ++ keyword ++ post)%string) /\
  (forall (st : scan) (line keyword pre post : string),
     In keyword DEFINITIVE_INTERVENTION_KEYWORDS ->
     lower line = (pre ++ keyword ++ post)%string ->
     intervention_step_position st = None ->
     0 < current_major_step (scan_line st line) ->
     intervention_step_position (scan_line st line)
     = Some (current_major_step (scan_line st line))) /\
  analyze_workflow "1. Execute the plan" = (1, 0, Some 1) /\
  analyze_workflow ("1. Rest" ++ nl ++ "2. Neurological exam")
  = (2, 0, Some 2).
Proof.
  split; [intros line; apply has_keyword_iff|].
  split; [|split; reflexivity].
  intros st line keyword pre post Hin Hline Hnone Hpos.
  assert (Hkw : has_keyword (lower line) = true)
    by (apply has_keyword_iff; exists keyword, pre, post; split; assumption).
  rewrite scan_line_position, Hnone, Hkw.
  apply Z.ltb_lt in Hpos. rewrite Hpos. reflexivity.
Qed.

Lemma keyword_detection_is_substring_witness :
  intervention_step_position
    (scan_line (mkScan 0 0 None 0) "3) Execute the plan") = Some 3.
Proof.
  apply (proj1 (proj2 keyword_detection_is_substring)
               (mkScan 0 0 None 0) "3) Execute the plan"
               "cut" "3) exe" "e the plan");
    [simpl; tauto | reflexivity | reflexivity | reflexivity].
Defined.

End Parser_facts.

(** * Properties of the text normaliser *)

Section Normaliser_facts.
Import Py Analyze_wfs.

Lemma span_digits_nondigit (c : ascii) (r : string) :
  is_digit c = false -> span_digits (String c r) = (EmptyString, String c r).
Proof. intros H. simpl. rewrite H. reflexivity. Qed.

Lemma span_digits_run (d rest : string) :
  all_digits d = true -> bare_end rest = true \/ starts_with_mark rest = true ->
  span_digits (d ++ rest) = (d, rest).
Proof.
  intros Hd Hrest. induction d as [|c d IH]; simpl in *.
  - destruct rest as [|c' rest']; [reflexivity|].
    assert (Hc' : is_digit c' = false).
    { destruct Hrest as [H|H]; simpl in H.
      - apply andb_prop in H. destruct H as [H _].
        apply negb_true_iff in H. exact H.
      - unfold is_enum_mark in H. apply orb_prop in H.
        destruct H as [H|H]; apply Ascii.eqb_eq in H; subst c'; reflexivity. }
    simpl. rewrite Hc'. reflexivity.
  - apply andb_prop in Hd. destruct Hd as [Hc Hd].
    rewrite Hc, (IH Hd). reflexivity.
Qed.

Lemma sub_from_skip (x y : string) :
  sub_from (String.length x) (x ++ y) = sub_from 0 y.
Proof. induction x as [|c x IH]; simpl; [reflexivity | exact IH]. Qed.

Lemma length_append (x y : string) :
  String.length (x ++ y) = String.length x + String.length y.
Proof. induction x as [|c x IH]; simpl; [reflexivity | now rewrite IH]. Qed.

Lemma append_assoc (x y z : string) :
  ((x ++ y) ++ z = x ++ (y ++ z))%string.
Proof. induction x as [|c x IH]; simpl; [reflexivity | now rewrite IH]. Qed.

Lemma sub_enumerator (d : string) (m : ascii) (rest : string) :
  all_digits d = true -> d <> EmptyString -> is_enum_mark m = true ->
  re_sub_enum (d ++ String m rest) = String " "%char (re_sub_enum rest).
Proof.
  intros Hd Hne Hm. unfold re_sub_enum.
  destruct d as [|c d']; [contradiction|].
  change ((String c d' ++ String m rest)%string)
    with (String c (d' ++ String m rest)).
  cbn [sub_from]. unfold match_enum.
  change (String c (d' ++ String m rest))
    with ((String c d' ++ String m rest)%string).
  rewrite (span_digits_run (String c d') (String m rest) Hd)
    by (right; exact Hm).
  rewrite Hm. f_equal.
  replace (d' ++ String m rest)%string
    with ((d' ++ String m EmptyString) ++ rest)%string
    by (rewrite append_assoc; reflexivity).
  replace (String.length (String c d'))
    with (String.length (d' ++ String m EmptyString))
    by (rewrite length_append; simpl; lia).
  apply sub_from_skip.
Qed.

Lemma sub_nondigit (c : ascii) (rest : string) :
  is_digit c = false ->
  re_sub_enum (String c rest) = String c (re_sub_enum rest).
Proof.
  intros Hc. unfold re_sub_enum. cbn [sub_from]. unfold match_enum.
  rewrite (span_digits_nondigit c rest Hc). reflexivity.
Qed.

Lemma sub_bare (d rest : string) :
  all_digits d = true -> bare_end rest = true ->
  re_sub_enum (d ++ rest) = (d ++ re_sub_enum rest)%string.
Proof.
  intros Hd Hrest. induction d as [|c d IH]; [reflexivity|].
  change ((String c d ++ rest)%string) with (String c (d ++ rest)).
  unfold re_sub_enum. cbn [sub_from]. unfold match_enum.
  change (String c (d ++ rest)) with ((String c d ++ rest)%string).
  rewrite (span_digits_run (String c d) rest Hd) by (left; exact Hrest).
  simpl in Hd. apply andb_prop in Hd. destruct Hd as [_ Hd].
  fold (re_sub_enum (d ++ rest)). rewrite (IH Hd).
  destruct rest as [|c' rest']; [reflexivity|].
  simpl in Hrest. apply andb_prop in Hrest. destruct Hrest as [_ Hmark].
  apply negb_true_iff in Hmark. rewrite Hmark. reflexivity.
Qed.



Lemma lower_append (x y : string) : lower (x ++ y) = (lower x ++ lower y)%string.
Proof. induction x as [|c x IH]; simpl; [reflexivity | now rewrite IH]. Qed.




End Normaliser_facts.

(** * Properties of the corpus loader *)

Section Loader_facts.
Import Py Analyze_wfs.

Lemma get_set_same {V : Type} (k : string) (v : V) (d : dict V) :
  get_item k (set_item k v d) = Some v.
Proof.
  induction d as [|[k' v'] d IH]; simpl.
  - rewrite String.eqb_refl. reflexivity.
  - destruct (String.eqb k' k) eqn:E; simpl; rewrite E; [reflexivity | exact IH].
Qed.

Lemma get_set_other {V : Type} (k k0 : string) (v : V) (d : dict V) :
  k0 <> k -> get_item k0 (set_item k v d) = get_item k0 d.
Proof.
  intros Hne. induction d as [|[k' v'] d IH]; simpl.
  - destruct (String.eqb_spec k k0); [congruence | reflexivity].
  - destruct (String.eqb_spec k' k) as [->|Hk]; simpl.
    + destruct (String.eqb_spec k k0); [congruence | reflexivity].
    + destruct (String.eqb k' k0); [reflexivity | exact IH].
Qed.

Lemma load_file_unmatched (folder name text : string) (data : corpus) :
  findall_wf name = [] ->
  load_file folder data (name, inr text) = inl index_error.
Proof. intros H. unfold load_file. rewrite H. reflexivity. Qed.

Lemma load_file_unreadable (folder name : string) (e : exn) (data : corpus) :
  load_file folder data (name, inl e) = inl e.
Proof. reflexivity. Qed.

Lemma load_file_matched (folder name text d : string) (ds : list string)
      (data : corpus) :
  findall_wf name = d :: ds ->
  exists data' inner,
    load_file folder data (name, inr text) = inr data' /\
    get_item d data' = Some inner /\ get_item folder inner = Some text.
Proof.
  intros H. unfold load_file. rewrite H. simpl.
  eexists. eexists. split; [reflexivity|].
  split; [apply get_set_same | apply get_set_same].
Qed.

Lemma loads_cases (entry : string * result string) :
  (Props.loads entry = true /\
   exists name text d ds,
     entry = (name, inr text) /\ findall_wf name = d :: ds) \/
  (Props.loads entry = false /\
   exists e, forall folder data, load_file folder data entry = inl e).
Proof.
  destruct entry as [name [e|text]]; unfold Props.loads; cbn [fst snd].
  - right. split; [reflexivity|]. exists e. reflexivity.
  - destruct (findall_wf name) as [|d ds] eqn:E.
    + right. split; [reflexivity|]. exists index_error. intros folder data.
      apply load_file_unmatched, E.
    + left. split; [reflexivity|]. exists name, text, d, ds. tauto.
Qed.

Lemma load_file_loads (folder : string) (data : corpus)
      (entry : string * result string) :
  Props.loads entry = true ->
  exists data', load_file folder data entry = inr data'.
Proof.
  intros H. destruct (loads_cases entry) as [[_ Hok]|[Hno _]]; [|congruence].
  destruct Hok as [name [text [d [ds [-> E]]]]].
  destruct (load_file_matched folder name text d ds data E) as [data' [_ [H1 _]]].
  exists data'. exact H1.
Qed.

Lemma load_file_ok_loads (folder : string) (data data' : corpus)
      (entry : string * result string) :
  load_file folder data entry = inr data' -> Props.loads entry = true.
Proof.
  intros H. destruct (loads_cases entry) as [[Hok _]|[_ [e He]]]; [exact Hok|].
  rewrite He in H. discriminate.
Qed.

Lemma load_file_ok_shape (folder : string) (data data' : corpus)
      (entry : string * result string) :
  load_file folder data entry = inr data' ->
  exists name text d ds,
    entry = (name, inr text) /\ findall_wf name = d :: ds.
Proof.
  intros H. destruct (loads_cases entry) as [[_ Hok]|[_ [e He]]]; [exact Hok|].
  rewrite He in H. discriminate.
Qed.

(** The first listed file that does not pass decides the outcome. *)
Lemma load_files_first_failure (folder : string) (pre post : directory)
      (x : string * result string) (e : exn) :
  forallb Props.loads pre = true ->
  (forall data, load_file folder data x = inl e) ->
  forall data, load_files folder (pre ++ x :: post) data = inl e.
Proof.
  intros Hpre Hx. induction pre as [|y pre IH]; intros data.
  - simpl. rewrite Hx. reflexivity.
  - simpl in Hpre. apply andb_prop in Hpre. destruct Hpre as [Hy Hpre].
    destruct (load_file_loads folder data y Hy) as [data' E].
    simpl. rewrite E. apply IH, Hpre.
Qed.

Lemma load_files_loads (folder : string) (files : directory) :
  forallb Props.loads files = true ->
  forall data, exists data', load_files folder files data = inr data'.
Proof.
  induction files as [|y files IH]; intros H data.
  - exists data. reflexivity.
  - simpl in H. apply andb_prop in H. destruct H as [Hy H].
    destruct (load_file_loads folder data y Hy) as [data1 E].
    simpl. rewrite E. apply IH, H.
Qed.

(** A listed file that does not pass makes the folder's loop raise. *)
Lemma load_files_fails (folder : string) (files : directory)
      (x : string * result string) :
  In x files -> Props.loads x = false ->
  forall data, exists e, load_files folder files data = inl e.
Proof.
  intros Hin Hx. induction files as [|y files IH]; intros data;
    [contradiction|].
  simpl. destruct (load_file folder data y) as [e|data'] eqn:E.
  - exists e. reflexivity.
  - destruct Hin as [->|Hin]; [|apply IH, Hin].
    apply load_file_ok_loads in E. congruence.
Qed.

Lemma load_folders_first_failure (fs : file_system) (root folder : string)
      (entries : directory) (before after : list string) (e : exn) :
  (forall f entries', In f before -> fs (path_join root f) = Some entries' ->
                      forallb Props.loads (glob_txt entries') = true) ->
  fs (path_join root folder) = Some entries ->
  (forall data, load_files folder (glob_txt entries) data = inl e) ->
  forall data, load_folders fs root (before ++ folder :: after) data = inl e.
Proof.
  intros Hbefore Hdir Hfail. induction before as [|f before IH]; intros data.
  - simpl. rewrite Hdir, Hfail. reflexivity.
  - simpl. destruct (fs (path_join root f)) as [entries'|] eqn:Ef.
    + destruct (load_files_loads f (glob_txt entries')
                  (Hbefore f entries' (or_introl eq_refl) Ef) data)
        as [data' E].
      rewrite E. apply IH. intros g eg Hg. apply Hbefore. right. exact Hg.
    + apply IH. intros g eg Hg. apply Hbefore. right. exact Hg.
Qed.

Lemma match_wf_head (s : string) : match_wf ("wf_" ++ s) = lazy_group s.
Proof.
  unfold match_wf. simpl.
  repeat match goal with
         | |- context [ascii_dec ?a ?b] =>
             destruct (ascii_dec a b); [|congruence]
         end.
  destruct s; reflexivity.
Qed.

Lemma findall_occurrence (pre d post : string) (k : nat) :
  lazy_group (d ++ String "_"%char post) = Some d ->
  k <= String.length pre ->
  findall_from k (pre ++ "wf_" ++ d ++ String "_"%char post) <> [].
Proof.
  intros Hd. revert k. induction pre as [|c pre IH]; intros k Hk.
  - simpl in Hk. assert (k = 0) by lia. subst k.
    change (("" ++ "wf_" ++ d ++ String "_"%char post)%string)
      with (String "w" ("f_" ++ d ++ String "_"%char post)).
    cbn [findall_from].
    change (String "w" ("f_" ++ d ++ String "_"%char post))
      with (("wf_" ++ (d ++ String "_"%char post))%string).
    rewrite match_wf_head, Hd. discriminate.
  - change ((String c pre ++ "wf_" ++ d ++ String "_"%char post)%string)
      with (String c (pre ++ "wf_" ++ d ++ String "_"%char post)).
    cbn [findall_from]. destruct k as [|k].
    + destruct (match_wf _); [discriminate | apply IH; lia].
    + apply IH. simpl in Hk. lia.
Qed.

(** C5, as the code has it.  Each listed file is read before its name
    is searched, and the first listed file, in the order of the folders
    and of each listing, that does not pass ends [load_workflows] and with
    it [analyze]: by the exception of the read when the file cannot be
    read, whatever its name; by the [IndexError] of taking item 0 of an
    empty list when it is read and the pattern [wf_(.*?)_] occurs nowhere
    in its name.  No data is returned for any file.  A file that is read
    and in whose name the pattern occurs, at its start or later, raises
    nothing and is stored under the first capture. *)
Theorem load_workflows_unmatched_name
        (fs : file_system) (root folder name : string)
        (content : result string) (entries pre post : directory)
        (before after : list string) :
  WF_FOLDERS = before ++ folder :: after ->
  (forall f entries', In f before -> fs (path_join root f) = Some entries' ->
                      forallb Props.loads (glob_txt entries') = true) ->
  fs (path_join root folder) = Some entries ->
  glob_txt entries = pre ++ (name, content) :: post ->
  forallb Props.loads pre = true ->
  (forall e, content = inl e ->
     load_workflows fs root = inl e /\
     forall tfidf, analyze tfidf fs root = inl e) /\
  (forall text, content = inr text -> findall_wf name = [] ->
     load_workflows fs root = inl (IndexError "list index out of range") /\
     forall tfidf, analyze tfidf fs root
                   = inl (IndexError "list index out of range")) /\
  (forall (head d tail : string) (data : corpus) (text' : string),
     lazy_group (d ++ String "_"%char tail) = Some d ->
     exists d' ds data' inner,
       findall_wf (head ++ "wf_" ++ d ++ String "_"%char tail) = d' :: ds /\
       load_file folder data
                 ((head ++ "wf_" ++ d ++ String "_"%char tail)%string,
                  inr text')
       = inr data' /\
       get_item d' data' = Some inner /\ get_item folder inner = Some text').
Proof.
  intros Hfolders Hbefore Hdir Hlist Hpre.
  assert (Hends : forall e,
             (forall data, load_file folder data (name, content) = inl e) ->
             load_workflows fs root = inl e /\
             forall tfidf, analyze tfidf fs root = inl e).
  { intros e He.
    assert (H : load_workflows fs root = inl e).
    { unfold load_workflows. rewrite Hfolders.
      apply (load_folders_first_failure fs root folder entries);
        [exact Hbefore | exact Hdir|].
      rewrite Hlist. apply load_files_first_failure; assumption. }
    split; [exact H|]. intros tfidf. unfold analyze. rewrite H. reflexivity. }
  split; [|split].
  - intros e ->. apply Hends. intros data. reflexivity.
  - intros text -> Hbad. apply Hends. intros data.
    apply load_file_unmatched, Hbad.
  - intros head d tail data text' Hd.
    destruct (findall_wf (head ++ "wf_" ++ d ++ String "_"%char tail))
      as [|d' ds] eqn:E.
    + exfalso. revert E. apply findall_occurrence; [exact Hd | lia].
    + destruct (load_file_matched folder _ text' d' ds data E)
        as [data' [inner [H1 [H2 H3]]]].
      exists d', ds, data', inner. repeat split; assumption.
Qed.

Lemma load_workflows_unmatched_name_witness :
  load_workflows Samples.stray_note "./"
  = inl (IndexError "list index out of range") /\
  load_workflows Samples.undecodable "./" = inl Samples.not_utf8.
Proof.
  split.
  - apply (proj1 (proj2 (load_workflows_unmatched_name
             Samples.stray_note "./" "mayowf" "notes.txt" (inr "rest")
             [("notes.txt", inr "rest");
              ("wf_asthma_mayo.txt", inr "1. inhaler")]
             [] [("wf_asthma_mayo.txt", inr "1. inhaler")]
             [] ["clevelandwf"; "merckwf"; "webmdwf"; "wikiwf"]
             eq_refl (fun f entries' (H : In f []) => match H with end)
             eq_refl eq_refl eq_refl)) "rest" eq_refl eq_refl).
  - apply (proj1 (load_workflows_unmatched_name
             Samples.undecodable "./" "mayowf" "wf_asthma_mayo.txt"
             (inl Samples.not_utf8)
             [("wf_asthma_mayo.txt", inl Samples.not_utf8);
              ("notes.txt", inr "rest")]
             [] [("notes.txt", inr "rest")]
             [] ["clevelandwf"; "merckwf"; "webmdwf"; "wikiwf"]
             eq_refl (fun f entries' (H : In f []) => match H with end)
             eq_refl eq_refl eq_refl) Samples.not_utf8 eq_refl).
Defined.

(** C5 as stated fails.  The error raised for [notes.txt] does not name
    the file and the well-named file beside it is lost with it; and a name
    that lacks the prefix but holds the pattern further on is silently
    keyed by what follows. *)
Lemma load_workflows_bare_index_error :
  load_workflows Samples.stray_note "./"
  = inl (IndexError "list index out of range") /\
  isin "notes.txt" "list index out of range" = false /\
  String.prefix "wf_" "notes_wf_asthma_old.txt" = false /\
  load_workflows Samples.unanchored "./"
  = inr [("asthma", [("mayowf", "draft")])].
Proof. repeat split. Qed.

End Loader_facts.

(** * The ranked tables *)

Section Ranking_facts.
Import Py Str_wfs.

Local Open Scope Z_scope.

(** C2 fails on the code.  With a Mayo average of 9.50 and a Cleveland
    average of 10.25 the tables are ordered by the formatted text of the
    averages: Table 1, meant to descend, puts 9.50 above 10.25, and
    Table 2, meant to ascend, puts 10.25 above 9.50. *)
Theorem tables_sorted_as_text :
  scan_corpus Samples.two_sources "./"
  = [("mayowf", mkTotals 19 0 19 2 2);
     ("clevelandwf", mkTotals 41 0 41 4 4)] /\
  structural_analysis Samples.two_sources "./"
  = inr ([mkStepRow "Mayo" "9.50" "0.00" 2;
          mkStepRow "Cleveland" "10.25" "0.00" 4],
         [mkAggressionRow "Cleveland" "10.25" 4;
          mkAggressionRow "Mayo" "9.50" 2]) /\
  String.ltb "10.25" "9.50" = true.
Proof. split; [|split]; vm_compute; reflexivity. Qed.

End Ranking_facts.

(** * The similarity matrix *)

Section Similarity_facts.
Import Py Analyze_wfs.

Lemma nth_of_map {A B : Type} (f : A -> B) (l : list A) (i : nat) (d : B) :
  nth i (map f l) d = match nth_error l i with
                      | Some a => f a
                      | None => d
                      end.
Proof.
  revert i; induction l as [|a l IH]; intros [|i]; simpl; try reflexivity.
  apply IH.
Qed.

Lemma SFmul_comm (prec emax : Z) (x y : spec_float) :
  SFmul prec emax x y = SFmul prec emax y x.
Proof.
  destruct x as [sx|sx| |sx mx ex], y as [sy|sy| |sy my ey]; simpl;
    try reflexivity; rewrite ?(xorb_comm sx sy); try reflexivity.
  rewrite Pos.mul_comm, Z.add_comm. reflexivity.
Qed.

(** The binary64 product does not depend on the order of its factors. *)
Lemma mul_comm (a b : float) : PrimFloat.mul a b = PrimFloat.mul b a.
Proof.
  apply Prim2SF_inj. rewrite !mul_spec. unfold SF64mul. apply SFmul_comm.
Qed.



(** Entries of which one is zero in each pair add nothing. *)
Lemma dot_from_apart (x y : list float) :
  (forall k, Binary64.is_zero (nth k x 0%float) = true \/
             Binary64.is_zero (nth k y 0%float) = true) ->
  forall acc,
    fold_left (fun acc '(a, b) =>
                 if Binary64.is_zero a || Binary64.is_zero b then acc
                 else PrimFloat.add acc (PrimFloat.mul a b))
              (combine x y) acc = acc.
Proof.
  revert y. induction x as [|a x IH]; intros [|b y] H acc; try reflexivity.
  cbn [combine fold_left].
  assert (H0 : Binary64.is_zero a || Binary64.is_zero b = true)
    by (apply orb_true_iff, (H 0%nat)).
  rewrite H0. apply IH. intros k. apply (H (S k)).
Qed.

Lemma dot_apart (x y : list float) :
  (forall k, Binary64.is_zero (nth k x 0%float) = true \/
             Binary64.is_zero (nth k y 0%float) = true) ->
  Binary64.dot x y = 0%float.
Proof. intros H. apply dot_from_apart, H. Qed.


Lemma squared_norm_zero_row (x : list float) :
  forallb Binary64.is_zero x = true -> Binary64.squared_norm x = 0%float.
Proof.
  unfold Binary64.squared_norm. generalize 0%float as acc.
  induction x as [|a x IH]; intros acc H; [reflexivity|].
  simpl in H. apply andb_prop in H. destruct H as [Ha H].
  cbn [fold_left]. rewrite Ha. apply IH, H.
Qed.

Lemma normalize_zero_row (x : list float) :
  forallb Binary64.is_zero x = true -> Binary64.normalize_row x = x.
Proof.
  intros H. unfold Binary64.normalize_row.
  rewrite (squared_norm_zero_row x H). reflexivity.
Qed.

(** Normalising a row leaves its zero entries zero. *)
Lemma normalize_keeps_zero (x : list float) (k : nat) :
  Binary64.is_zero (nth k x 0%float) = true ->
  Binary64.is_zero (nth k (Binary64.normalize_row x) 0%float) = true.
Proof.
  unfold Binary64.normalize_row.
  destruct (Binary64.is_zero (Binary64.squared_norm x)); [trivial|].
  rewrite nth_of_map. intros H.
  destruct (nth_error x k) as [a|] eqn:E; [|reflexivity].
  rewrite (nth_error_nth x k 0%float E) in H. rewrite H. exact H.
Qed.

Lemma entry_cosine (X : list (list float)) (i j : nat) :
  Binary64.entry (Binary64.cosine_similarity X) i j =
  match nth_error X i, nth_error X j with
  | Some x, Some y =>
      Binary64.dot (Binary64.normalize_row x) (Binary64.normalize_row y)
  | _, _ => 0%float
  end.
Proof.
  unfold Binary64.entry, Binary64.cosine_similarity.
  rewrite (nth_of_map _ (map Binary64.normalize_row X) i), nth_error_map.
  destruct (nth_error X i) as [x|]; simpl.
  - rewrite (nth_of_map _ (map Binary64.normalize_row X) j), nth_error_map.
    destruct (nth_error X j); reflexivity.
  - destruct j; reflexivity.
Qed.


Lemma cosine_apart (X : list (list float)) (i j : nat) (x y : list float) :
  nth_error X i = Some x -> nth_error X j = Some y ->
  (forall k, Binary64.is_zero (nth k x 0%float) = true \/
             Binary64.is_zero (nth k y 0%float) = true) ->
  Binary64.entry (Binary64.cosine_similarity X) i j = 0%float.
Proof.
  intros Hi Hj H. rewrite entry_cosine, Hi, Hj. apply dot_apart.
  intros k. destruct (H k) as [Hk|Hk]; [left | right];
    apply normalize_keeps_zero, Hk.
Qed.







(** X20.  Two sources whose term vectors have no term in common, each
    term weighing zero in at least one of them, have similarity 0. *)
Theorem similarity_of_disjoint_sources
        (tfidf : option nat -> list string
                 -> result (list string * list (list float)))
        (workflows : dict string) (site_list terms : list string)
        (sim rows : list (list float)) (i j : nat) (x y : list float) :
  tfidf None (map preprocess (values workflows)) = inr (terms, rows) ->
  Binary64.compute_similarity tfidf workflows = inr (site_list, sim) ->
  nth_error rows i = Some x -> nth_error rows j = Some y ->
  (forall k, Binary64.is_zero (nth k x 0%float) = true \/
             Binary64.is_zero (nth k y 0%float) = true) ->
  Binary64.entry sim i j = 0%float.
Proof.
  unfold Binary64.compute_similarity. intros Ht H Hi Hj Hapart.
  rewrite Ht in H. inversion H; subst.
  eapply cosine_apart; eassumption.
Qed.

Lemma similarity_of_disjoint_sources_witness :
  Binary64.entry [[1%float; 0%float]; [0%float; 1%float]] 0 1 = 0%float.
Proof.
  apply (similarity_of_disjoint_sources
           Samples.apart_tfidf64 Samples.apart_workflows
           ["mayowf"; "wikiwf"] ["antacid"; "surgery"]
           [[1%float; 0%float]; [0%float; 1%float]]
           [[1%float; 0%float]; [0%float; 1%float]]
           0 1 [1%float; 0%float] [0%float; 1%float]).
  - reflexivity.
  - vm_compute. reflexivity.
  - reflexivity.
  - reflexivity.
  - intros [|[|k]]; [right | left | left]; try reflexivity.
    destruct k; reflexivity.
Defined.

End Similarity_facts.

(** * The distinctive term extractor *)

Section Argsort_facts.
Context {A : Type} (less : A -> A -> bool).

Lemma insert_index_length (v : list A) (key : A) (i : nat) (rp : list nat) :
  length (Np.insert_index less v key i rp) = S (length rp).
Proof.
  induction rp as [|k rp IH]; simpl; [reflexivity|].
  destruct (nth_error v k) as [x|]; [|reflexivity].
  destruct (less key x); simpl; [rewrite IH|]; reflexivity.
Qed.

Lemma insertion_pass_length (v pending : list A) (i : nat) (rp : list nat) :
  length (Np.insertion_pass less v pending i rp) = length pending + length rp.
Proof.
  revert i rp; induction pending as [|key rest IH]; intros i rp; simpl.
  - reflexivity.
  - rewrite IH, insert_index_length. lia.
Qed.

Lemma argsort_length (v : list A) : length (Np.argsort less v) = length v.
Proof.
  unfold Np.argsort. rewrite length_rev, insertion_pass_length. simpl. lia.
Qed.

Lemma insert_index_in (v : list A) (key : A) (i : nat) (rp : list nat) (y : nat) :
  In y (Np.insert_index less v key i rp) -> y = i \/ In y rp.
Proof.
  induction rp as [|k rp IH]; simpl.
  - intros [H|[]]. left. symmetry. exact H.
  - destruct (nth_error v k) as [x|].
    + destruct (less key x); simpl.
      * intros [H|H]; [right; left; exact H|].
        destruct (IH H) as [H'|H']; [left | right; right]; exact H'.
      * intros [H|H]; [left; symmetry; exact H | right; exact H].
    + simpl. intros [H|H]; [left; symmetry; exact H | right; exact H].
Qed.

End Argsort_facts.

Lemma last_n_length {A : Type} (n : nat) (l : list A) :
  length (Np.last_n n l) = Nat.min n (length l).
Proof. unfold Np.last_n. rewrite length_skipn. lia. Qed.

Lemma argsort_map {A B : Type} (f : A -> B)
      (lessA : A -> A -> bool) (lessB : B -> B -> bool) (v : list A) :
  (forall a b, lessB (f a) (f b) = lessA a b) ->
  Np.argsort lessB (map f v) = Np.argsort lessA v.
Proof.
  intros Hf. unfold Np.argsort. f_equal.
  assert (Hins : forall key i rp,
             Np.insert_index lessB (map f v) (f key) i rp
             = Np.insert_index lessA v key i rp).
  { intros key i rp. induction rp as [|k rp IH]; simpl; [reflexivity|].
    rewrite nth_error_map. destruct (nth_error v k) as [x|]; simpl;
      [|reflexivity].
    rewrite Hf, IH. reflexivity. }
  assert (Hpass : forall pending i rp,
             Np.insertion_pass lessB (map f v) (map f pending) i rp
             = Np.insertion_pass lessA v pending i rp).
  { induction pending as [|key rest IH]; intros i rp; simpl; [reflexivity|].
    rewrite Hins. apply IH. }
  apply Hpass.
Qed.

Section Extractor_facts.
Import Py Analyze_wfs.

Lemma Rltb_Q2R (a b : Q) : Rltb (Q2R a) (Q2R b) = Samples.Qltb a b.
Proof.
  unfold Rltb, Samples.Qltb. destruct (Rlt_dec (Q2R a) (Q2R b)) as [H|H].
  - apply Rlt_Qlt in H. symmetry. apply negb_true_iff.
    destruct (Qle_bool b a) eqn:E; [|reflexivity].
    apply Qle_bool_iff in E. exfalso. exact (Qlt_not_le _ _ H E).
  - symmetry. apply negb_false_iff. apply Qle_bool_iff.
    apply Qnot_lt_le. intros Hlt. apply H, Qlt_Rlt, Hlt.
Qed.

Lemma top_idxs_Q2R (qs : list Q) :
  top_idxs (map Q2R qs) = rev (Np.last_n 10 (Np.argsort Samples.Qltb qs)).
Proof.
  unfold top_idxs. rewrite (argsort_map Q2R Samples.Qltb Rltb qs Rltb_Q2R).
  reflexivity.
Qed.

Lemma nonzero_entries_Q2R (qs : list Q) :
  nonzero_entries (map Q2R qs)
  = length (filter (fun q => negb (Qeq_bool q 0)) qs).
Proof.
  unfold nonzero_entries. induction qs as [|q qs IH]; [reflexivity|].
  cbn [map filter].
  assert (Hq : (if Req_dec_T (Q2R q) 0%R then false else true)
               = negb (Qeq_bool q 0)).
  { destruct (Req_dec_T (Q2R q) 0%R) as [H|H].
    - symmetry. apply negb_false_iff, Qeq_bool_iff, eqR_Qeq.
      rewrite H. unfold Q2R. simpl. lra.
    - symmetry. apply negb_true_iff. destruct (Qeq_bool q 0) eqn:E;
        [|reflexivity].
      exfalso. apply H. apply Qeq_bool_iff, Qeq_eqR in E. rewrite E.
      unfold Q2R. simpl. lra. }
  rewrite Hq. destruct (negb (Qeq_bool q 0)); simpl; rewrite IH; reflexivity.
Qed.

Lemma top_idxs_length (row : list R) :
  length (top_idxs row) = Nat.min 10 (length row).
Proof.
  unfold top_idxs. rewrite length_rev, last_n_length, argsort_length.
  reflexivity.
Qed.

Lemma index_all_spec (terms : list string) (idxs : list nat)
      (top : list string) :
  index_all terms idxs = inr top ->
  Forall2 (fun j t => nth_error terms j = Some t) idxs top.
Proof.
  revert top; induction idxs as [|j rest IH]; intros top; simpl.
  - intros H. inversion H. constructor.
  - destruct (nth_error terms j) as [t|] eqn:Et; [|discriminate].
    destruct (index_all terms rest) as [e|ts]; [discriminate|].
    intros H. inversion H; subst. constructor; [exact Et | apply IH; reflexivity].
Qed.

Lemma unique_terms_from_spec (terms : list string) (rows : list (list R))
      (sites : list string) :
  forall (i : nat) (out : dict (list string)),
    unique_terms_from terms rows i sites = inr out ->
    keys out = sites /\
    forall k site top,
      nth_error out k = Some (site, top) ->
      exists row,
        nth_error rows (i + k) = Some row /\
        index_all terms (top_idxs row) = inr top.
Proof.
  induction sites as [|s rest IH]; intros i out; simpl.
  - intros H. inversion H. split; [reflexivity|].
    intros [|k] site top Hk; discriminate.
  - destruct (nth_error rows i) as [row|] eqn:Erow; [|discriminate].
    destruct (index_all terms (top_idxs row)) as [e|top0] eqn:Etop;
      [discriminate|].
    destruct (unique_terms_from terms rows (S i) rest) as [e|out'] eqn:Erest;
      [discriminate|].
    intros H. inversion H; subst out. destruct (IH _ _ Erest) as [Hk Hrows].
    split; [simpl; rewrite Hk; reflexivity|].
    intros [|k] site top Hnth; simpl in Hnth.
    + inversion Hnth; subst. exists row. rewrite Nat.add_0_r.
      split; assumption.
    + destruct (Hrows k site top Hnth) as [row' [H1 H2]].
      exists row'. rewrite Nat.add_succ_r. split; assumption.
Qed.

Lemma values_preprocessed (workflows : dict string) :
  values (map (fun '(site, text) => (site, preprocess text)) workflows)
  = map preprocess (values workflows).
Proof.
  unfold values. rewrite !map_map. apply map_ext. intros [s t]. reflexivity.
Qed.

Lemma keys_preprocessed (workflows : dict string) :
  keys (map (fun '(site, text) => (site, preprocess text)) workflows)
  = keys workflows.
Proof.
  unfold keys. rewrite !map_map. apply map_ext. intros [s t]. reflexivity.
Qed.

Lemma find_unique_terms_spec
      (tfidf : option nat -> list string -> result (list string * list (list R)))
      (workflows : dict string) (out : dict (list string)) :
  find_unique_terms tfidf workflows = inr out ->
  exists terms rows,
    tfidf (Some 40) (map preprocess (values workflows)) = inr (terms, rows) /\
    keys out = keys workflows /\
    forall k site top,
      nth_error out k = Some (site, top) ->
      exists row,
        nth_error rows k = Some row /\
        index_all terms (top_idxs row) = inr top.
Proof.
  unfold find_unique_terms. rewrite values_preprocessed, keys_preprocessed.
  destruct (tfidf (Some 40) (map preprocess (values workflows)))
    as [e|[terms rows]]; [discriminate|].
  intros H. exists terms, rows. split; [reflexivity|].
  destruct (unique_terms_from_spec terms rows _ 0 out H) as [Hk Hrows].
  split; [exact Hk | exact Hrows].
Qed.

(** C1, as the code has it.  For every source the list returned by
    [find_unique_terms] has as many terms as the smaller of 10 and the
    length of the source's term vector, whatever the number of its nonzero
    entries. *)
Theorem unique_terms_length
        (tfidf : option nat -> list string -> result (list string * list (list R)))
        (workflows : dict string) (out : dict (list string)) :
  find_unique_terms tfidf workflows = inr out ->
  exists terms rows,
    tfidf (Some 40) (map preprocess (values workflows)) = inr (terms, rows) /\
    keys out = keys workflows /\
    forall k site top,
      nth_error out k = Some (site, top) ->
      exists row,
        nth_error rows k = Some row /\
        length top = Nat.min 10 (length row).
Proof.
  intros H. destruct (find_unique_terms_spec tfidf workflows out H)
    as [terms [rows [Ht [Hk Hrows]]]].
  exists terms, rows. split; [exact Ht|]. split; [exact Hk|].
  intros k site top Hnth. destruct (Hrows k site top Hnth) as [row [H1 H2]].
  exists row. split; [exact H1|].
  apply index_all_spec, Forall2_length in H2.
  rewrite <- H2. apply top_idxs_length.
Qed.

Lemma twelve_unique_terms :
  find_unique_terms Samples.twelve_tfidf Samples.twelve_workflows
  = inr [("mayowf",
          ["cream"; "aspirin"; "ointment"; "water"; "surgery"; "steroids";
           "sleep"; "inhaler"; "fluids"; "exercise"]);
         ("wikiwf",
          ["water"; "surgery"; "steroids"; "sleep"; "inhaler"; "fluids";
           "exercise"; "diet"; "ablation"; "ointment"])].
Proof.
  unfold find_unique_terms, Samples.twelve_tfidf.
  rewrite keys_preprocessed.
  change (keys Samples.twelve_workflows) with ["mayowf"; "wikiwf"].
  cbn [unique_terms_from nth_error].
  rewrite !top_idxs_Q2R.
  vm_compute. reflexivity.
Qed.

Lemma unique_terms_length_witness :
  exists terms rows,
    Samples.twelve_tfidf (Some 40)
      (map preprocess (values Samples.twelve_workflows)) = inr (terms, rows) /\
    keys [("mayowf",
           ["cream"; "aspirin"; "ointment"; "water"; "surgery"; "steroids";
            "sleep"; "inhaler"; "fluids"; "exercise"]);
          ("wikiwf",
           ["water"; "surgery"; "steroids"; "sleep"; "inhaler"; "fluids";
            "exercise"; "diet"; "ablation"; "ointment"])]
    = keys Samples.twelve_workflows /\
    forall k site top,
      nth_error
        [("mayowf",
          ["cream"; "aspirin"; "ointment"; "water"; "surgery"; "steroids";
           "sleep"; "inhaler"; "fluids"; "exercise"]);
         ("wikiwf",
          ["water"; "surgery"; "steroids"; "sleep"; "inhaler"; "fluids";
           "exercise"; "diet"; "ablation"; "ointment"])] k
      = Some (site, top) ->
      exists row,
        nth_error rows k = Some row /\
        length top = Nat.min 10 (length row).
Proof.
  apply (unique_terms_length Samples.twelve_tfidf Samples.twelve_workflows).
  exact twelve_unique_terms.
Defined.

(** C1 as stated fails: the first source's term vector has 3 nonzero
    entries among 12, and its list has 10 terms, seven of them of weight
    zero. *)
Lemma unique_terms_padded :
  nonzero_entries (map Q2R Samples.first_weights) = 3 /\
  exists top,
    find_unique_terms Samples.twelve_tfidf Samples.twelve_workflows
    = inr (("mayowf", top)
             :: [("wikiwf",
                  ["water"; "surgery"; "steroids"; "sleep"; "inhaler";
                   "fluids"; "exercise"; "diet"; "ablation"; "ointment"])]) /\
    length top = 10 /\ length top <> 3.
Proof.
  split.
  - rewrite nonzero_entries_Q2R. vm_compute. reflexivity.
  - eexists. split; [exact twelve_unique_terms|].
    split; [reflexivity | discriminate].
Qed.

End Extractor_facts.

Section Order_facts.
Import Py Analyze_wfs.

Lemma skipn_head {A : Type} (v : list A) (i : nat) (key : A) (rest : list A) :
  skipn i v = key :: rest -> nth_error v i = Some key /\ skipn (S i) v = rest.
Proof.
  revert v; induction i as [|i IH]; intros v H.
  - destruct v as [|a v]; simpl in H; [discriminate|].
    inversion H; subst. split; reflexivity.
  - destruct v as [|a v]; simpl in H; [discriminate|].
    destruct (IH v H) as [H1 H2]. split; assumption.
Qed.

Lemma weight_nth_error (row : list R) (k : nat) (x : R) :
  nth_error row k = Some x -> weight row k = x.
Proof. intros H. unfold weight. apply nth_error_nth, H. Qed.

Lemma Rltb_true (a b : R) : Rltb a b = true -> (a < b)%R.
Proof. unfold Rltb. destruct (Rlt_dec a b); [trivial | discriminate]. Qed.

Lemma Rltb_false (a b : R) : Rltb a b = false -> (b <= a)%R.
Proof. unfold Rltb. destruct (Rlt_dec a b); [discriminate | lra]. Qed.

Lemma Rltb_irrefl (a : R) : Rltb a a = false.
Proof. unfold Rltb. destruct (Rlt_dec a a); [lra | reflexivity]. Qed.

Lemma insert_index_sorted (row : list R) (key : R) (i : nat) (rp : list nat) :
  nth_error row i = Some key ->
  Forall (fun k => k < i) rp ->
  StronglySorted (ranked_before row) rp ->
  StronglySorted (ranked_before row) (Np.insert_index Rltb row key i rp).
Proof.
  intros Hi. pose proof (weight_nth_error row i key Hi) as Hwi.
  assert (Hlen : i < length row) by (apply nth_error_Some; congruence).
  induction rp as [|k rp IH]; intros Hlt Hs; simpl.
  - constructor; constructor.
  - pose proof (Forall_inv Hlt) as Hk. simpl in Hk.
    pose proof (Forall_inv_tail Hlt) as Hlt'.
    apply StronglySorted_inv in Hs. destruct Hs as [Hs Hall].
    destruct (nth_error row k) as [x|] eqn:Ek.
    + pose proof (weight_nth_error row k x Ek) as Hwk.
      destruct (Rltb key x) eqn:Ecmp.
      * apply Rltb_true in Ecmp. constructor; [apply IH; assumption|].
        apply Forall_forall. intros y Hy.
        apply insert_index_in in Hy. destruct Hy as [->|Hy].
        -- left. rewrite Hwi, Hwk. exact Ecmp.
        -- rewrite Forall_forall in Hall. apply Hall, Hy.
      * apply Rltb_false in Ecmp.
        assert (Hik : ranked_before row i k).
        { unfold ranked_before. rewrite Hwi, Hwk.
          destruct (Rle_lt_or_eq_dec _ _ Ecmp) as [H|H];
            [left; exact H | right; split; [exact H | exact Hk]]. }
        constructor; [constructor; assumption|].
        constructor; [exact Hik|].
        eapply Forall_impl; [|exact Hall]. intros y Hy.
        unfold ranked_before in *. rewrite Hwi, Hwk in *.
        destruct Hy as [Hy|[Hy Hy']]; destruct Hik as [H|[H H']];
          try (left; lra); right; split; [lra | lia].
    + exfalso. apply nth_error_None in Ek. lia.
Qed.

Lemma insertion_pass_sorted (row pending : list R) :
  forall (i : nat) (rp : list nat),
    skipn i row = pending ->
    Forall (fun k => k < i) rp ->
    StronglySorted (ranked_before row) rp ->
    StronglySorted (ranked_before row) (Np.insertion_pass Rltb row pending i rp).
Proof.
  induction pending as [|key rest IH]; intros i rp Hskip Hlt Hs; simpl.
  - exact Hs.
  - destruct (skipn_head row i key rest Hskip) as [Hi Hrest].
    apply IH; [exact Hrest | | apply insert_index_sorted; assumption].
    apply Forall_forall. intros y Hy. apply insert_index_in in Hy.
    destruct Hy as [->|Hy]; [lia|].
    rewrite Forall_forall in Hlt. specialize (Hlt y Hy). lia.
Qed.

Lemma firstn_all {A : Type} (P : A -> Prop) (n : nat) (l : list A) :
  Forall P l -> Forall P (firstn n l).
Proof.
  intros H. revert n. induction H as [|a l Ha _ IH]; intros [|n]; simpl;
    constructor; [exact Ha | apply IH].
Qed.

Lemma firstn_sorted {A : Type} (R : A -> A -> Prop) (n : nat) (l : list A) :
  StronglySorted R l -> StronglySorted R (firstn n l).
Proof.
  revert n; induction l as [|a l IH]; intros [|n] H; simpl;
    try constructor.
  - apply StronglySorted_inv in H. apply IH, H.
  - apply StronglySorted_inv in H. apply firstn_all, H.
Qed.

Lemma top_idxs_sorted (row : list R) :
  StronglySorted (ranked_before row) (top_idxs row).
Proof.
  unfold top_idxs, Np.last_n, Np.argsort.
  rewrite skipn_rev, rev_involutive. apply firstn_sorted.
  apply insertion_pass_sorted; [reflexivity | constructor | constructor].
Qed.

Lemma top_idxs_tie (w : R) : top_idxs [w; w] = [1; 0].
Proof.
  unfold top_idxs, Np.argsort.
  cbn [Np.insertion_pass Np.insert_index nth_error].
  rewrite Rltb_irrefl. reflexivity.
Qed.

Lemma tie_unique_terms :
  find_unique_terms Samples.tie_tfidf Samples.tie_workflows
  = inr [("mayowf", ["beta"; "alpha"]); ("wikiwf", ["beta"; "alpha"])].
Proof.
  unfold find_unique_terms, Samples.tie_tfidf.
  rewrite keys_preprocessed.
  change (keys Samples.tie_workflows) with ["mayowf"; "wikiwf"].
  cbn [unique_terms_from nth_error].
  rewrite !top_idxs_tie. reflexivity.
Qed.

(** C7 as stated fails: alpha and beta weigh the same in both sources and
    alpha is the earlier term of the vocabulary, yet beta is listed
    first. *)
Lemma tie_lists_later_term_first :
  weight [(/ sqrt 2)%R; (/ sqrt 2)%R] 0 = weight [(/ sqrt 2)%R; (/ sqrt 2)%R] 1 /\
  find_unique_terms Samples.tie_tfidf Samples.tie_workflows
  = inr [("mayowf", ["beta"; "alpha"]); ("wikiwf", ["beta"; "alpha"])] /\
  find_unique_terms Samples.tie_tfidf Samples.tie_workflows
  <> inr [("mayowf", ["alpha"; "beta"]); ("wikiwf", ["alpha"; "beta"])].
Proof.
  split; [reflexivity|]. split; [exact tie_unique_terms|].
  rewrite tie_unique_terms. discriminate.
Qed.

End Order_facts.

(** * Enumeration order and the report *)

Section Listing_facts.
Import Py Analyze_wfs.

Lemma same_outcome_trans {V : Type} (r1 r2 r3 : result (dict V)) :
  same_outcome r1 r2 -> same_outcome r2 r3 -> same_outcome r1 r3.
Proof.
  destruct r1, r2, r3; simpl; try tauto.
  intros H1 H2 k. rewrite H1. apply H2.
Qed.

Lemma load_file_lookup (folder name text disease : string)
      (ds : list string) (data : corpus) :
  findall_wf name = disease :: ds ->
  exists data',
    load_file folder data (name, inr text) = inr data' /\
    forall k,
      get_item k data' =
      if String.eqb disease k
      then Some (set_item folder text
                          match get_item disease data with
                          | Some m => m
                          | None => []
                          end)
      else get_item k data.
Proof.
  intros H. unfold load_file. rewrite H. simpl.
  eexists. split; [reflexivity|]. intros k.
  destruct (String.eqb_spec disease k) as [<-|Hk].
  - rewrite get_set_same. destruct (get_item disease data) eqn:E.
    + rewrite E. reflexivity.
    + rewrite get_set_same. reflexivity.
  - rewrite get_set_other by congruence.
    destruct (get_item disease data); [reflexivity|].
    apply get_set_other. congruence.
Qed.

Lemma load_file_respects (folder : string) (entry : string * result string)
      (data1 data2 : corpus) :
  same_lookup data1 data2 ->
  same_outcome (load_file folder data1 entry) (load_file folder data2 entry).
Proof.
  intros Hsame. destruct entry as [name [e|text]]; [exact I|].
  change (same_outcome (load_file folder data1 (name, inr text))
                       (load_file folder data2 (name, inr text))).
  destruct (findall_wf name) as [|d ds] eqn:E.
  - rewrite !load_file_unmatched by exact E. exact I.
  - destruct (load_file_lookup folder name text d ds data1 E) as [a [Ha Hla]].
    destruct (load_file_lookup folder name text d ds data2 E) as [b [Hb Hlb]].
    rewrite Ha, Hb. intros k. rewrite Hla, Hlb, (Hsame d), (Hsame k).
    reflexivity.
Qed.

Lemma load_files_respects (folder : string) (files : directory) :
  forall data1 data2,
    same_lookup data1 data2 ->
    same_outcome (load_files folder files data1) (load_files folder files data2).
Proof.
  induction files as [|entry rest IH]; intros data1 data2 Hsame; simpl.
  - exact Hsame.
  - pose proof (load_file_respects folder entry data1 data2 Hsame) as H.
    destruct (load_file folder data1 entry), (load_file folder data2 entry);
      simpl in H; try tauto.
    apply IH, H.
Qed.

Lemma load_files_both_fail (folder : string) (files1 files2 : directory)
      (x : string * result string) (data1 data2 : corpus) :
  In x files1 -> In x files2 -> Props.loads x = false ->
  same_outcome (load_files folder files1 data1) (load_files folder files2 data2).
Proof.
  intros H1 H2 Hx.
  destruct (load_files_fails folder files1 x H1 Hx data1) as [e1 ->].
  destruct (load_files_fails folder files2 x H2 Hx data2) as [e2 ->].
  exact I.
Qed.

Lemma load_files_swap (folder : string) (x y : string * result string)
      (files : directory) (data1 data2 : corpus) :
  NoDup (disease_ids (y :: x :: files)) ->
  same_lookup data1 data2 ->
  same_outcome (load_files folder (y :: x :: files) data1)
               (load_files folder (x :: y :: files) data2).
Proof.
  intros Hnd Hsame.
  destruct (loads_cases x) as [[_ Hx]|[Hx _]];
    [|apply (load_files_both_fail folder _ _ x); simpl; tauto].
  destruct (loads_cases y) as [[_ Hy]|[Hy _]];
    [|apply (load_files_both_fail folder _ _ y); simpl; tauto].
  destruct Hx as [nx [tx [dx [dsx [-> Ex]]]]].
  destruct Hy as [ny [ty [dy [dsy [-> Ey]]]]].
  assert (Hne : dy <> dx).
  { unfold disease_ids in Hnd. simpl in Hnd. rewrite Ex, Ey in Hnd.
    simpl in Hnd. inversion Hnd as [|? ? Hnotin _]; subst.
    intros ->. apply Hnotin. left. reflexivity. }
  cbn [load_files].
  destruct (load_file_lookup folder ny ty dy dsy data1 Ey) as [a1 [Ha1 La1]].
  destruct (load_file_lookup folder nx tx dx dsx a1 Ex) as [a2 [Ha2 La2]].
  destruct (load_file_lookup folder nx tx dx dsx data2 Ex) as [b1 [Hb1 Lb1]].
  destruct (load_file_lookup folder ny ty dy dsy b1 Ey) as [b2 [Hb2 Lb2]].
  rewrite Ha1, Ha2, Hb1, Hb2. apply load_files_respects.
  intros k. rewrite La2, Lb2, (La1 dx), (Lb1 dy), (La1 k), (Lb1 k).
  destruct (String.eqb_spec dy dx) as [|_]; [contradiction|].
  destruct (String.eqb_spec dx dy) as [|_]; [congruence|].
  rewrite (Hsame dx), (Hsame dy), (Hsame k).
  destruct (String.eqb_spec dx k) as [Hxk|Hxk];
    destruct (String.eqb_spec dy k) as [Hyk|Hyk]; try reflexivity.
  exfalso. congruence.
Qed.

Lemma disease_ids_tail (x : string * result string) (files : directory) :
  NoDup (disease_ids (x :: files)) -> NoDup (disease_ids files).
Proof.
  unfold disease_ids. simpl. apply NoDup_app_remove_l.
Qed.

Lemma load_files_permuted (folder : string) (l l' : directory) :
  Permutation l l' ->
  NoDup (disease_ids l) ->
  forall data1 data2,
    same_lookup data1 data2 ->
    same_outcome (load_files folder l data1) (load_files folder l' data2).
Proof.
  induction 1 as [|x l l' Hp IH|x y l|l l' l'' Hp1 IH1 Hp2 IH2];
    intros Hnd data1 data2 Hsame.
  - exact Hsame.
  - simpl. pose proof (load_file_respects folder x data1 data2 Hsame) as H.
    destruct (load_file folder data1 x), (load_file folder data2 x);
      simpl in H; try tauto.
    apply IH; [eapply disease_ids_tail, Hnd | exact H].
  - apply load_files_swap; assumption.
  - eapply same_outcome_trans; [apply IH1; eassumption|].
    apply IH2; [|intros k; reflexivity].
    eapply Permutation_NoDup; [|exact Hnd].
    unfold disease_ids. apply Permutation_flat_map, Hp1.
Qed.

Lemma filter_permuted {A : Type} (p : A -> bool) (l l' : list A) :
  Permutation l l' -> Permutation (filter p l) (filter p l').
Proof.
  induction 1 as [|x l l' Hp IH|x y l|l l' l'' Hp1 IH1 Hp2 IH2]; simpl.
  - constructor.
  - destruct (p x); [constructor|]; exact IH.
  - destruct (p x), (p y); try apply Permutation_refl. apply perm_swap.
  - eapply Permutation_trans; eassumption.
Qed.

Lemma load_folders_permuted (fs1 fs2 : file_system) (root : string)
      (folders : list string) :
  same_contents fs1 fs2 ->
  (forall folder entries,
     In folder folders -> fs1 (path_join root folder) = Some entries ->
     NoDup (disease_ids (glob_txt entries))) ->
  forall data1 data2,
    same_lookup data1 data2 ->
    same_outcome (load_folders fs1 root folders data1)
                 (load_folders fs2 root folders data2).
Proof.
  intros Hfs. induction folders as [|f rest IH]; intros Hnd data1 data2 Hsame.
  - exact Hsame.
  - simpl. pose proof (Hfs (path_join root f)) as Hf.
    destruct (fs1 (path_join root f)) as [e1|] eqn:E1;
      destruct (fs2 (path_join root f)) as [e2|] eqn:E2; try contradiction.
    + assert (H : same_outcome (load_files f (glob_txt e1) data1)
                               (load_files f (glob_txt e2) data2)).
      { apply load_files_permuted; [apply filter_permuted, Hf | | exact Hsame].
        apply (Hnd f e1); [left; reflexivity | exact E1]. }
      destruct (load_files f (glob_txt e1) data1),
               (load_files f (glob_txt e2) data2); simpl in H; try tauto.
      apply IH; [|exact H].
      intros folder entries Hin. apply Hnd. right. exact Hin.
    + apply IH; [|exact Hsame].
      intros folder entries Hin. apply Hnd. right. exact Hin.
Qed.

Lemma set_item_keys_in {V : Type} (k : string) (v : V) (d : dict V) (x : string) :
  In x (keys (set_item k v d)) -> x = k \/ In x (keys d).
Proof.
  induction d as [|[k' v'] d IH]; simpl.
  - intros [H|[]]. left. symmetry. exact H.
  - destruct (String.eqb_spec k' k) as [->|Hk]; simpl.
    + tauto.
    + intros [H|H]; [right; left; exact H|].
      destruct (IH H); [left | right; right]; assumption.
Qed.

Lemma set_item_keys_unique {V : Type} (k : string) (v : V) (d : dict V) :
  NoDup (keys d) -> NoDup (keys (set_item k v d)).
Proof.
  induction d as [|[k' v'] d IH]; simpl; intros H.
  - constructor; [intros [] | constructor].
  - inversion H as [|? ? Hnotin Hd]; subst.
    destruct (String.eqb_spec k' k) as [->|Hk]; simpl.
    + constructor; assumption.
    + constructor; [|apply IH, Hd].
      intros Hin. apply set_item_keys_in in Hin.
      destruct Hin as [->|Hin]; [congruence | contradiction].
Qed.

Lemma load_file_keys_unique (folder : string)
      (entry : string * result string) (data data' : corpus) :
  NoDup (keys data) -> load_file folder data entry = inr data' ->
  NoDup (keys data').
Proof.
  destruct entry as [name [e|text]]; unfold load_file; [discriminate|].
  destruct (findall_wf name) as [|d ds]; simpl; [discriminate|].
  intros Hnd H. inversion H; subst. apply set_item_keys_unique.
  destruct (get_item d data); [exact Hnd | apply set_item_keys_unique, Hnd].
Qed.

Lemma load_files_keys_unique (folder : string) (files : directory) :
  forall data data',
    NoDup (keys data) -> load_files folder files data = inr data' ->
    NoDup (keys data').
Proof.
  induction files as [|entry rest IH]; intros data data' Hnd; simpl.
  - intros H. inversion H; subst. exact Hnd.
  - destruct (load_file folder data entry) as [e|d1] eqn:E; [discriminate|].
    apply IH. eapply load_file_keys_unique; eassumption.
Qed.

Lemma load_folders_keys_unique (fs : file_system) (root : string)
      (folders : list string) :
  forall data data',
    NoDup (keys data) -> load_folders fs root folders data = inr data' ->
    NoDup (keys data').
Proof.
  induction folders as [|f rest IH]; intros data data' Hnd; simpl.
  - intros H. inversion H; subst. exact Hnd.
  - destruct (fs (path_join root f)) as [entries|]; [|apply IH, Hnd].
    destruct (load_files f (glob_txt entries) data) as [e|d1] eqn:E;
      [discriminate|].
    apply IH. eapply load_files_keys_unique; eassumption.
Qed.

End Listing_facts.

Section Report_facts.
Import Py Analyze_wfs.

Variable tfidf : option nat -> list string -> result (list string * list (list R)).

Lemma analyze_items_step (disease : string) (workflows : dict string)
      (rest : corpus) :
  analyze_items tfidf ((disease, workflows) :: rest) =
  match analyze_item tfidf workflows with
  | None => analyze_items tfidf rest
  | Some (inl e) => inl e
  | Some (inr entry) =>
      match analyze_items tfidf rest with
      | inl e => inl e
      | inr report => inr ((disease, entry) :: report)
      end
  end.
Proof.
  unfold analyze_item. cbn [analyze_items].
  destruct (length workflows <? 2)%nat; [reflexivity|].
  destruct (compute_similarity tfidf workflows) as [e|[s m]]; [reflexivity|].
  destruct (find_unique_terms tfidf workflows); reflexivity.
Qed.

Lemma get_item_in {V : Type} (k : string) (v : V) (d : dict V) :
  get_item k d = Some v -> In (k, v) d.
Proof.
  induction d as [|[k' v'] d IH]; simpl; [discriminate|].
  destruct (String.eqb_spec k' k) as [->|Hk].
  - intros H. inversion H; subst. left. reflexivity.
  - intros H. right. apply IH, H.
Qed.

Lemma get_item_absent {V : Type} (k : string) (d : dict V) :
  ~ In k (keys d) -> get_item k d = None.
Proof.
  induction d as [|[k' v'] d IH]; simpl; [reflexivity|].
  intros H. destruct (String.eqb_spec k' k) as [->|Hk]; [tauto|].
  apply IH. tauto.
Qed.

Lemma in_get_item {V : Type} (k : string) (v : V) (d : dict V) :
  NoDup (keys d) -> In (k, v) d -> get_item k d = Some v.
Proof.
  induction d as [|[k' v'] d IH]; simpl; [tauto|].
  intros Hnd [H|H].
  - inversion H; subst. rewrite String.eqb_refl. reflexivity.
  - inversion Hnd as [|? ? Hnotin Hd]; subst.
    destruct (String.eqb_spec k' k) as [->|Hk]; [|apply IH; assumption].
    exfalso. apply Hnotin. apply (in_map fst) in H. exact H.
Qed.

Lemma analyze_items_raises (items : corpus) (e : exn) :
  analyze_items tfidf items = inl e ->
  exists disease workflows e',
    In (disease, workflows) items /\
    analyze_item tfidf workflows = Some (inl e').
Proof.
  revert e. induction items as [|[d wf] rest IH]; intros e; [discriminate|].
  rewrite analyze_items_step.
  destruct (analyze_item tfidf wf) as [[e'|entry]|] eqn:E.
  - intros _. exists d, wf, e'. split; [left; reflexivity | exact E].
  - destruct (analyze_items tfidf rest) as [e'|report]; [|discriminate].
    intros _. destruct (IH e' eq_refl) as [d' [wf' [e'' [Hin H]]]].
    exists d', wf', e''. split; [right; exact Hin | exact H].
  - intros H. destruct (IH e H) as [d' [wf' [e'' [Hin H']]]].
    exists d', wf', e''. split; [right; exact Hin | exact H'].
Qed.

Lemma analyze_items_returns (items : corpus) (report : dict entry_t) :
  analyze_items tfidf items = inr report ->
  (forall disease workflows e,
     In (disease, workflows) items ->
     analyze_item tfidf workflows <> Some (inl e)) /\
  (NoDup (keys items) ->
   forall disease,
     get_item disease report =
     match get_item disease items with
     | Some workflows =>
         match analyze_item tfidf workflows with
         | Some (inr entry) => Some entry
         | _ => None
         end
     | None => None
     end).
Proof.
  revert report. induction items as [|[d wf] rest IH]; intros report.
  - intros H. inversion H; subst. split; [intros ? ? ? []|reflexivity].
  - rewrite analyze_items_step.
    destruct (analyze_item tfidf wf) as [[e'|entry]|] eqn:E; [discriminate| |].
    + destruct (analyze_items tfidf rest) as [e'|report'] eqn:Er;
        [discriminate|].
      intros H. inversion H; subst report.
      destruct (IH report' eq_refl) as [Hok Hget]. split.
      * intros d' wf' e' [Hin|Hin]; [inversion Hin; subst; congruence|].
        eapply Hok, Hin.
      * intros Hnd d'. inversion Hnd as [|? ? Hnotin Hrest]; subst.
        simpl. destruct (String.eqb_spec d d') as [->|Hd].
        -- rewrite E. reflexivity.
        -- apply Hget, Hrest.
    + intros H. destruct (IH report H) as [Hok Hget]. split.
      * intros d' wf' e' [Hin|Hin]; [inversion Hin; subst; congruence|].
        eapply Hok, Hin.
      * intros Hnd d'. inversion Hnd as [|? ? Hnotin Hrest]; subst.
        simpl. destruct (String.eqb_spec d d') as [->|Hd].
        -- rewrite E, (Hget Hrest), (get_item_absent d' rest Hnotin).
           reflexivity.
        -- apply Hget, Hrest.
Qed.

Lemma analyze_items_same (items1 items2 : corpus) :
  NoDup (keys items1) -> NoDup (keys items2) ->
  same_lookup items1 items2 ->
  same_outcome (analyze_items tfidf items1) (analyze_items tfidf items2).
Proof.
  intros Hnd1 Hnd2 Hsame.
  destruct (analyze_items tfidf items1) as [e1|r1] eqn:E1;
    destruct (analyze_items tfidf items2) as [e2|r2] eqn:E2; simpl.
  - exact I.
  - destruct (analyze_items_raises items1 e1 E1) as [d [wf [e' [Hin H]]]].
    destruct (analyze_items_returns items2 r2 E2) as [Hok _].
    apply (Hok d wf e'); [|exact H].
    apply get_item_in. rewrite <- Hsame. apply in_get_item; assumption.
  - destruct (analyze_items_raises items2 e2 E2) as [d [wf [e' [Hin H]]]].
    destruct (analyze_items_returns items1 r1 E1) as [Hok _].
    apply (Hok d wf e'); [|exact H].
    apply get_item_in. rewrite Hsame. apply in_get_item; assumption.
  - destruct (analyze_items_returns items1 r1 E1) as [_ H1].
    destruct (analyze_items_returns items2 r2 E2) as [_ H2].
    intros d. rewrite (H1 Hnd1), (H2 Hnd2), (Hsame d). reflexivity.
Qed.

End Report_facts.

Section Determinism.
Import Py Analyze_wfs.




(** X24.  Two trees that hold the same directories with the same
    entries, enumerated in any two orders, make [analyze] raise on both
    or return reports that agree on every disease, provided no source
    folder lists two files with the same disease id. *)
Theorem analyze_listing_order
        (tfidf : option nat -> list string -> result (list string * list (list R)))
        (fs1 fs2 : file_system) (root : string) :
  same_contents fs1 fs2 ->
  one_file_per_disease fs1 root ->
  same_outcome (analyze tfidf fs1 root) (analyze tfidf fs2 root).
Proof.
  intros Hfs Hone. unfold analyze, load_workflows.
  pose proof (load_folders_permuted fs1 fs2 root WF_FOLDERS Hfs Hone [] []
                (fun k => eq_refl)) as Hload.
  destruct (load_folders fs1 root WF_FOLDERS []) as [e1|d1] eqn:E1;
    destruct (load_folders fs2 root WF_FOLDERS []) as [e2|d2] eqn:E2;
    simpl in Hload; try contradiction.
  - exact I.
  - apply analyze_items_same; [| |exact Hload].
    + eapply load_folders_keys_unique; [|exact E1]. constructor.
    + eapply load_folders_keys_unique; [|exact E2]. constructor.
Qed.

Lemma plain_same_contents : same_contents Samples.plain_a Samples.plain_b.
Proof.
  intros path. unfold Samples.plain_a, Samples.plain_b, Samples.dirs.
  cbn [get_item].
  destruct (String.eqb "./mayowf" path); [apply perm_swap|].
  destruct (String.eqb "./wikiwf" path); [apply Permutation_refl | exact I].
Qed.

Lemma plain_one_file_per_disease : one_file_per_disease Samples.plain_a "./".
Proof.
  intros folder entries Hin Hdir.
  simpl in Hin.
  repeat (destruct Hin as [<-|Hin];
          [vm_compute in Hdir; try discriminate;
           inversion Hdir; subst entries; vm_compute;
           repeat constructor; simpl; intuition discriminate|]).
  contradiction.
Qed.

Lemma analyze_listing_order_witness :
  same_outcome (analyze Samples.gerd_tfidf Samples.plain_a "./")
               (analyze Samples.gerd_tfidf Samples.plain_b "./").
Proof.
  apply (analyze_listing_order Samples.gerd_tfidf
           Samples.plain_a Samples.plain_b "./").
  - exact plain_same_contents.
  - exact plain_one_file_per_disease.
Defined.

End Determinism.

Section Listing_counterexample.
Import Py Analyze_wfs.

Lemma listing_same_contents : same_contents Samples.listing_a Samples.listing_b.
Proof.
  intros path. unfold Samples.listing_a, Samples.listing_b, Samples.dirs.
  cbn [get_item].
  destruct (String.eqb "./mayowf" path); [apply perm_swap|].
  destruct (String.eqb "./wikiwf" path); [apply Permutation_refl | exact I].
Qed.

Lemma analyze_one_disease
      (tfidf : option nat -> list string -> result (list string * list (list R)))
      (fs : file_system) (disease : string) (workflows : dict string)
      (terms terms' : list string) (rows : list (list Q))
      (uniq : dict (list string)) :
  load_workflows fs "./" = inr [(disease, workflows)] ->
  (length workflows <? 2)%nat = false ->
  tfidf None (map preprocess (values workflows))
  = inr (terms, map (map Q2R) rows) ->
  tfidf (Some 40) (map preprocess (values workflows))
  = inr (terms', map (map Q2R) rows) ->
  unique_terms_from terms' (map (map Q2R) rows) 0 (keys workflows) = inr uniq ->
  analyze tfidf fs "./"
  = inr [(disease,
          mkEntry (keys workflows) (cosine_similarity (map (map Q2R) rows))
                  uniq)].
Proof.
  intros Hload Hlen Hsim Hterms Huniq.
  unfold analyze. rewrite Hload. cbn [analyze_items]. rewrite Hlen.
  unfold compute_similarity, find_unique_terms.
  rewrite values_preprocessed, keys_preprocessed, Hsim, Hterms, Huniq.
  reflexivity.
Qed.

Lemma analyze_listing_a :
  analyze Samples.gerd_tfidf Samples.listing_a "./"
  = inr [("gerd",
          mkEntry ["mayowf"; "wikiwf"]
                  (cosine_similarity (map (map Q2R) [[1]; [1]]%Q))
                  [("mayowf", ["surgery"]); ("wikiwf", ["surgery"])])].
Proof.
  apply (analyze_one_disease Samples.gerd_tfidf Samples.listing_a "gerd"
           [("mayowf", "Surgery"); ("wikiwf", "Surgery")]
           ["surgery"] ["surgery"]); try reflexivity.
  all: change (keys _) with ["mayowf"; "wikiwf"].
  all: cbn [unique_terms_from]; rewrite !nth_error_map.
  all: cbn [nth_error option_map]; rewrite !top_idxs_Q2R.
  all: vm_compute; reflexivity.
Qed.

Lemma analyze_listing_b :
  analyze Samples.gerd_tfidf Samples.listing_b "./"
  = inr [("gerd",
          mkEntry ["mayowf"; "wikiwf"]
                  (cosine_similarity (map (map Q2R) [[1; 0]; [0; 1]]%Q))
                  [("mayowf", ["antacid"; "surgery"]);
                   ("wikiwf", ["surgery"; "antacid"])])].
Proof.
  apply (analyze_one_disease Samples.gerd_tfidf Samples.listing_b "gerd"
           [("mayowf", "Antacid"); ("wikiwf", "Surgery")]
           ["antacid"; "surgery"] ["antacid"; "surgery"]); try reflexivity.
  all: change (keys _) with ["mayowf"; "wikiwf"].
  all: cbn [unique_terms_from]; rewrite !nth_error_map.
  all: cbn [nth_error option_map]; rewrite !top_idxs_Q2R.
  all: vm_compute; reflexivity.
Qed.

(** The proviso on the disease ids is needed.  The two trees hold the
    same files; only the order in which the first folder lists its two
    files for the same disease differs, and the reports disagree: the
    later file replaces the earlier one. *)
Lemma report_depends_on_listing_order :
  same_contents Samples.listing_a Samples.listing_b /\
  load_workflows Samples.listing_a "./"
  = inr [("gerd", [("mayowf", "Surgery"); ("wikiwf", "Surgery")])] /\
  load_workflows Samples.listing_b "./"
  = inr [("gerd", [("mayowf", "Antacid"); ("wikiwf", "Surgery")])] /\
  option_map unique_terms
    match analyze Samples.gerd_tfidf Samples.listing_a "./" with
    | inr report => get_item "gerd" report
    | inl _ => None
    end
  = Some [("mayowf", ["surgery"]); ("wikiwf", ["surgery"])] /\
  option_map unique_terms
    match analyze Samples.gerd_tfidf Samples.listing_b "./" with
    | inr report => get_item "gerd" report
    | inl _ => None
    end
  = Some [("mayowf", ["antacid"; "surgery"]);
          ("wikiwf", ["surgery"; "antacid"])] /\
  ~ same_outcome (analyze Samples.gerd_tfidf Samples.listing_a "./")
                 (analyze Samples.gerd_tfidf Samples.listing_b "./").
Proof.
  split; [exact listing_same_contents|].
  split; [reflexivity|]. split; [reflexivity|].
  rewrite analyze_listing_a, analyze_listing_b.
  split; [reflexivity|]. split; [reflexivity|].
  intros H. specialize (H "gerd"). simpl in H.
  apply (f_equal (option_map unique_terms)) in H. discriminate.
Qed.

End Listing_counterexample.

(** * Further properties of the step structural parser *)

Section Parser_counts.
Import Py Str_wfs.

Local Open Scope Z_scope.

Lemma span_digits_all (s : string) :
  Analyze_wfs.all_digits (fst (span_digits s)) = true.
Proof.
  induction s as [|c r IH]; simpl; [reflexivity|].
  destruct (is_digit c) eqn:E; [|reflexivity].
  destruct (span_digits r) as [d rest]. simpl in *. rewrite E, IH. reflexivity.
Qed.

Lemma span_digits_head (s d rest : string) (c : ascii) :
  span_digits s = (String c d, rest) ->
  exists r, s = String c r /\ is_digit c = true.
Proof.
  destruct s as [|c' r]; simpl; [discriminate|].
  destruct (is_digit c') eqn:E.
  - destruct (span_digits r). intros H. inversion H; subst.
    exists r. split; [reflexivity | exact E].
  - discriminate.
Qed.

Lemma major_step_starts_with_digit (line digits : string) :
  major_step_re line = Some digits ->
  exists c r, lstrip line = String c r /\ is_digit c = true.
Proof.
  unfold major_step_re. destruct (span_digits (lstrip line)) as [d rest] eqn:E.
  destruct d as [|c d]; [discriminate|]. intros _.
  destruct (span_digits_head _ _ _ _ E) as [r [H1 H2]].
  exists c, r. split; assumption.
Qed.

Lemma digit_is_no_bullet (c : ascii) (r : string) :
  is_digit c = true ->
  String.prefix "-" (String c r) || String.prefix "*" (String c r)
  || String.prefix bullet (String c r) = false.
Proof.
  intros Hc. unfold bullet. cbn [String.prefix].
  repeat match goal with
         | |- context [ascii_dec ?a c] =>
             destruct (ascii_dec a c) as [<-|_]; [discriminate Hc|]
         end.
  reflexivity.
Qed.

Lemma major_step_is_no_sub_step (line digits : string) :
  major_step_re line = Some digits -> sub_step_re line = false.
Proof.
  intros H. destruct (major_step_starts_with_digit line digits H)
    as [c [r [Hl Hc]]].
  unfold sub_step_re. rewrite Hl. apply digit_is_no_bullet, Hc.
Qed.

Lemma digit_val_nonneg (c : ascii) : is_digit c = true -> 0 <= digit_val c.
Proof.
  unfold is_digit, digit_val. intros H. apply andb_prop in H.
  destruct H as [H _]. apply Nat.leb_le in H. lia.
Qed.

Lemma int_acc_nonneg (s : string) :
  forall acc, Analyze_wfs.all_digits s = true -> 0 <= acc -> 0 <= int_acc acc s.
Proof.
  induction s as [|c r IH]; intros acc Hd Hacc; cbn [int_acc]; [exact Hacc|].
  simpl in Hd. apply andb_prop in Hd. destruct Hd as [Hc Hr].
  apply IH; [exact Hr|]. pose proof (digit_val_nonneg c Hc). lia.
Qed.

Lemma major_step_number_nonneg (line digits : string) :
  major_step_re line = Some digits -> 0 <= int digits.
Proof.
  unfold major_step_re. pose proof (span_digits_all (lstrip line)) as Hall.
  destruct (span_digits (lstrip line)) as [d rest]. simpl in Hall.
  destruct d as [|c d]; [discriminate|].
  destruct (lstrip rest) as [|m ?]; [discriminate|].
  destruct (is_step_mark m); [|discriminate].
  intros H. inversion H; subst. apply int_acc_nonneg; [exact Hall | lia].
Qed.

Lemma scan_line_fields (st : scan) (line : string) :
  major_steps (scan_line st line)
  = match major_step_re line with
    | Some _ => major_steps st + 1
    | None => major_steps st
    end /\
  current_major_step (scan_line st line)
  = match major_step_re line with
    | Some digits => int digits
    | None => current_major_step st
    end /\
  sub_steps (scan_line st line)
  = if sub_step_re line then sub_steps st + 1 else sub_steps st.
Proof.
  unfold scan_line. destruct (major_step_re line); repeat split.
Qed.

Lemma scan_line_ok (n : Z) (st : scan) (line : string) :
  Props.scan_ok n st -> Props.scan_ok (n + 1) (scan_line st line).
Proof.
  unfold Props.scan_ok. intros (Hm & Hs & Hsum & Hc & Hcm & Hp).
  pose proof (scan_line_position st line) as Hpos.
  destruct (scan_line_fields st line) as (Fm & Fc & Fs).
  set (st' := scan_line st line) in *.
  assert (A : 0 <= major_steps st' /\ 0 <= sub_steps st' /\
              major_steps st' + sub_steps st' <= n + 1 /\
              0 <= current_major_step st' /\
              (0 < current_major_step st' -> 1 <= major_steps st') /\
              major_steps st <= major_steps st').
  { rewrite Fm, Fc, Fs. destruct (major_step_re line) as [digits|] eqn:E.
    - rewrite (major_step_is_no_sub_step line digits E).
      pose proof (major_step_number_nonneg line digits E).
      repeat split; lia.
    - destruct (sub_step_re line); repeat split; try lia;
        intros H; apply Hcm in H; lia. }
  destruct A as (A1 & A2 & A3 & A4 & A5 & A6).
  split; [exact A1|]. split; [exact A2|]. split; [exact A3|].
  split; [exact A4|]. split; [exact A5|].
  intros p Hp'. rewrite Hpos in Hp'.
  destruct (intervention_step_position st) as [p0|].
  - inversion Hp'; subst p0. destruct (Hp p eq_refl). lia.
  - destruct (has_keyword (lower line)); [|discriminate].
    destruct (0 <? current_major_step st') eqn:E0.
    + inversion Hp'; subst p. apply Z.ltb_lt in E0. specialize (A5 E0). lia.
    + destruct (0 <? major_steps st') eqn:E1; [|discriminate].
      inversion Hp'; subst p. apply Z.ltb_lt in E1. lia.
Qed.

Lemma scan_lines_ok (lines : list string) :
  forall (n : Z) (st : scan),
    Props.scan_ok n st ->
    Props.scan_ok (n + Z.of_nat (length lines)) (scan_lines lines st).
Proof.
  induction lines as [|l ls IH]; intros n st H.
  - simpl. rewrite Z.add_0_r. exact H.
  - cbn [scan_lines fold_left length].
    replace (n + Z.of_nat (S (length ls)))
      with ((n + 1) + Z.of_nat (length ls)) by lia.
    apply IH, scan_line_ok, H.
Qed.

Lemma analyze_workflow_ok (text : string) :
  Props.scan_ok (Z.of_nat (length (split_lines (strip text))))
                (scan_lines (split_lines (strip text)) scan0).
Proof.
  apply (scan_lines_ok (split_lines (strip text)) 0 scan0).
  unfold Props.scan_ok, scan0. simpl. repeat split; try lia; discriminate.
Qed.

(** X1.  The counts of major steps and of sub-steps are not negative and
    together do not exceed the number of lines of the stripped text: no
    line is counted both as a major step and as a sub-step. *)
Theorem step_counts_bounded (text : string) :
  let '(major, sub, _) := analyze_workflow text in
  0 <= major /\ 0 <= sub /\
  major + sub <= Z.of_nat (length (split_lines (strip text))).
Proof.
  unfold analyze_workflow.
  destruct (analyze_workflow_ok text) as (Hm & Hs & Hsum & _).
  repeat split; assumption.
Qed.

(** X2.  A reported intervention position is at least 1, and a position
    is only reported for a text with at least one major step. *)
Theorem position_is_positive (text : string) (major sub p : Z) :
  analyze_workflow text = (major, sub, Some p) -> 1 <= p /\ 1 <= major.
Proof.
  unfold analyze_workflow. intros H. inversion H as [[Hm Hs Hp]].
  destruct (analyze_workflow_ok text) as (_ & _ & _ & _ & _ & Hpos).
  apply Hpos. exact Hp.
Qed.

Lemma position_is_positive_witness : 1 <= 7 /\ 1 <= 2.
Proof.
  apply (position_is_positive ("5. Rest" ++ nl ++ "7. Consider surgery") 2 0 7).
  reflexivity.
Defined.

End Parser_counts.

Section Parser_text.
Import Py Str_wfs.

Local Open Scope Z_scope.

Lemma first_line_prefix (s : string) :
  exists l ls post, split_lines s = l :: ls /\ s = (l ++ post)%string.
Proof.
  induction s as [|c r IH]; simpl.
  - exists EmptyString, [], EmptyString. split; reflexivity.
  - destruct (Ascii.eqb c newline).
    + exists EmptyString, (split_lines r), (String c r). split; reflexivity.
    + destruct IH as [l [ls [post [H1 H2]]]]. rewrite H1.
      exists (String c l), ls, post. split; [reflexivity|].
      simpl. rewrite <- H2. reflexivity.
Qed.

Lemma line_in_text (s l : string) :
  In l (split_lines s) -> exists pre post, s = (pre ++ l ++ post)%string.
Proof.
  revert l. induction s as [|c r IH]; intros l; simpl.
  - intros [<-|[]]. exists EmptyString, EmptyString. reflexivity.
  - destruct (Ascii.eqb c newline).
    + intros [<-|H].
      * exists EmptyString, (String c r). reflexivity.
      * destruct (IH l H) as [pre [post Hr]].
        exists (String c pre), post. simpl. rewrite <- Hr. reflexivity.
    + destruct (first_line_prefix r) as [l0 [ls [post0 [H1 H2]]]].
      rewrite H1. intros [<-|H].
      * exists EmptyString, post0. simpl. rewrite <- H2. reflexivity.
      * assert (Hin : In l (split_lines r)) by (rewrite H1; right; exact H).
        destruct (IH l Hin) as [pre [post Hr]].
        exists (String c pre), post. simpl. rewrite <- Hr. reflexivity.
Qed.

Lemma lstrip_suffix (s : string) : exists pre, s = (pre ++ lstrip s)%string.
Proof.
  induction s as [|c r IH]; simpl.
  - exists EmptyString. reflexivity.
  - destruct (is_space c).
    + destruct IH as [pre H]. exists (String c pre). simpl.
      rewrite <- H. reflexivity.
    + exists EmptyString. reflexivity.
Qed.

Lemma rstrip_prefix (s : string) : exists post, s = (rstrip s ++ post)%string.
Proof.
  induction s as [|c r IH]; cbn [rstrip].
  - exists EmptyString. reflexivity.
  - destruct (all_space (String c r)).
    + exists (String c r). reflexivity.
    + destruct IH as [post H]. exists post. simpl. rewrite <- H. reflexivity.
Qed.

Lemma strip_in_text (s : string) :
  exists pre post, s = (pre ++ strip s ++ post)%string.
Proof.
  unfold strip. destruct (lstrip_suffix s) as [pre Hpre].
  destruct (rstrip_prefix (lstrip s)) as [post Hpost].
  exists pre, post. rewrite <- Hpost. exact Hpre.
Qed.

Lemma has_keyword_in_part (pre part post : string) :
  has_keyword (lower part) = true ->
  has_keyword (lower (pre ++ part ++ post)) = true.
Proof.
  rewrite !has_keyword_iff. intros [kw [a [b [Hin H]]]].
  exists kw, (lower pre ++ a)%string, (b ++ lower post)%string.
  split; [exact Hin|].
  rewrite !lower_append, H, !append_assoc. reflexivity.
Qed.

Lemma no_keyword_in_lines (text line : string) :
  has_keyword (lower text) = false ->
  In line (split_lines (strip text)) ->
  has_keyword (lower line) = false.
Proof.
  intros Hno Hin. destruct (has_keyword (lower line)) eqn:E; [|reflexivity].
  destruct (line_in_text _ _ Hin) as [a [b Hl]].
  destruct (strip_in_text text) as [pre [post Ht]].
  rewrite <- Hno. symmetry. rewrite Ht, Hl.
  apply has_keyword_in_part, has_keyword_in_part, E.
Qed.

Lemma scan_without_keyword (lines : list string) :
  forall st : scan,
    (forall line, In line lines -> has_keyword (lower line) = false) ->
    intervention_step_position st = None ->
    intervention_step_position (scan_lines lines st) = None.
Proof.
  induction lines as [|l ls IH]; intros st Hno Hst; [exact Hst|].
  cbn [scan_lines fold_left]. apply IH.
  - intros line H. apply Hno. right. exact H.
  - rewrite scan_line_position, Hst, (Hno l) by (left; reflexivity).
    reflexivity.
Qed.

Lemma analyze_without_keyword (text : string) :
  has_keyword (lower text) = false ->
  snd (analyze_workflow text) = None.
Proof.
  intros Hno. unfold analyze_workflow. cbn [snd].
  apply scan_without_keyword; [|reflexivity].
  intros line Hin. eapply no_keyword_in_lines; eassumption.
Qed.

(** X3.  A text whose lower-cased form contains none of the keywords
    has no intervention position. *)
Theorem no_keyword_no_position (text : string) :
  has_keyword (lower text) = false ->
  snd (analyze_workflow text) = None.
Proof. exact (analyze_without_keyword text). Qed.

Lemma no_keyword_no_position_witness :
  snd (analyze_workflow ("1. Apply cream" ++ nl ++ "2. Rest")) = None.
Proof.
  apply (no_keyword_no_position ("1. Apply cream" ++ nl ++ "2. Rest")).
  reflexivity.
Defined.

Lemma all_space_append (a b : string) :
  all_space (a ++ b) = all_space a && all_space b.
Proof.
  induction a as [|c a IH]; simpl; [reflexivity|].
  rewrite IH, andb_assoc. reflexivity.
Qed.

Lemma lstrip_all_space (a : string) : all_space a = true -> lstrip a = EmptyString.
Proof.
  induction a as [|c a IH]; simpl; [reflexivity|]. intros H.
  apply andb_prop in H. destruct H as [Hc Ha]. rewrite Hc. apply IH, Ha.
Qed.

Lemma lstrip_leading (a s : string) :
  all_space a = true -> lstrip (a ++ s) = lstrip s.
Proof.
  induction a as [|c a IH]; simpl; [reflexivity|]. intros H.
  apply andb_prop in H. destruct H as [Hc Ha]. rewrite Hc. apply IH, Ha.
Qed.

Lemma lstrip_keeps_tail (s b : string) :
  all_space s = false -> lstrip (s ++ b) = (lstrip s ++ b)%string.
Proof.
  induction s as [|c s IH]; simpl; [discriminate|].
  destruct (is_space c); simpl; [exact IH | reflexivity].
Qed.

Lemma rstrip_all_space (b : string) : all_space b = true -> rstrip b = EmptyString.
Proof.
  destruct b as [|c b]; [reflexivity|]. cbn [rstrip]. intros H. rewrite H.
  reflexivity.
Qed.

Lemma rstrip_trailing (s b : string) :
  all_space b = true -> rstrip (s ++ b) = rstrip s.
Proof.
  intros Hb. induction s as [|c s IH].
  - simpl. apply rstrip_all_space, Hb.
  - change ((String c s ++ b)%string) with (String c (s ++ b)).
    cbn [rstrip]. change (String c (s ++ b)) with ((String c s ++ b)%string).
    rewrite all_space_append, Hb, andb_true_r.
    destruct (all_space (String c s)); [reflexivity|].
    rewrite IH. reflexivity.
Qed.

Lemma strip_surrounded (a s b : string) :
  all_space a = true -> all_space b = true ->
  strip (a ++ s ++ b) = strip s.
Proof.
  intros Ha Hb. unfold strip. rewrite (lstrip_leading a _ Ha).
  destruct (all_space s) eqn:Es.
  - rewrite lstrip_all_space
      by (rewrite all_space_append, Es, Hb; reflexivity).
    rewrite (lstrip_all_space s Es). reflexivity.
  - rewrite (lstrip_keeps_tail s b Es). apply rstrip_trailing, Hb.
Qed.

(** X4.  White space around a text does not change its analysis. *)
Theorem surrounding_space_ignored (a text b : string) :
  all_space a = true -> all_space b = true ->
  analyze_workflow (a ++ text ++ b) = analyze_workflow text.
Proof.
  intros Ha Hb. unfold analyze_workflow.
  rewrite (strip_surrounded a text b Ha Hb). reflexivity.
Qed.

Lemma surrounding_space_ignored_witness :
  analyze_workflow ((nl ++ "  ") ++ "1. Consider surgery" ++ (" " ++ nl))
  = analyze_workflow "1. Consider surgery".
Proof.
  apply (surrounding_space_ignored (nl ++ "  ") "1. Consider surgery"
                                   (" " ++ nl)); reflexivity.
Defined.

(** X5.  A text made of white space only, the empty text included, has
    no step, no sub-step and no intervention position. *)
Theorem blank_text_has_no_steps (text : string) :
  all_space text = true -> analyze_workflow text = (0, 0, None).
Proof.
  intros H. unfold analyze_workflow, strip.
  rewrite (lstrip_all_space text H). reflexivity.
Qed.

Lemma blank_text_has_no_steps_witness :
  analyze_workflow (" " ++ nl ++ nl) = (0, 0, None).
Proof. apply (blank_text_has_no_steps (" " ++ nl ++ nl)). reflexivity. Defined.

End Parser_text.

(** * Sorting: rows kept and ordered *)

Section Argsort_permutation.
Context {A : Type} (less : A -> A -> bool).

Lemma insert_index_perm (v : list A) (key : A) (i : nat) (rp : list nat) :
  Permutation (Np.insert_index less v key i rp) (i :: rp).
Proof.
  induction rp as [|k rp IH]; simpl; [apply Permutation_refl|].
  destruct (nth_error v k) as [x|]; [|apply Permutation_refl].
  destruct (less key x); [|apply Permutation_refl].
  eapply Permutation_trans; [apply perm_skip, IH | apply perm_swap].
Qed.

Lemma insertion_pass_perm (v pending : list A) :
  forall (i : nat) (rp : list nat),
    Permutation (Np.insertion_pass less v pending i rp)
                (seq i (length pending) ++ rp).
Proof.
  induction pending as [|key rest IH]; intros i rp; simpl.
  - apply Permutation_refl.
  - eapply Permutation_trans; [apply IH|].
    eapply Permutation_trans;
      [apply Permutation_app_head, insert_index_perm|].
    apply Permutation_sym, Permutation_middle.
Qed.

Lemma argsort_perm (v : list A) :
  Permutation (Np.argsort less v) (seq 0 (length v)).
Proof.
  unfold Np.argsort.
  eapply Permutation_trans; [apply Permutation_sym, Permutation_rev|].
  pose proof (insertion_pass_perm v v 0 []) as H.
  rewrite app_nil_r in H. exact H.
Qed.

(** The order the insertion loop needs of [less]. *)
Hypothesis less_asym : forall a b, less a b = true -> less b a = false.
Hypothesis not_less_trans :
  forall a b c, less a b = false -> less b c = false -> less a c = false.

Lemma insert_index_descending (v : list A) (key : A) (i : nat)
      (rp : list nat) :
  nth_error v i = Some key ->
  Forall (fun k => k < length v) rp ->
  StronglySorted (Props.not_below less v) rp ->
  StronglySorted (Props.not_below less v) (Np.insert_index less v key i rp).
Proof.
  intros Hi. induction rp as [|k rp IH]; intros Hv Hs; simpl.
  - constructor; constructor.
  - pose proof (Forall_inv Hv) as Hk. simpl in Hk.
    pose proof (Forall_inv_tail Hv) as Hv'.
    apply StronglySorted_inv in Hs. destruct Hs as [Hs Hall].
    destruct (nth_error v k) as [x|] eqn:Ek;
      [|apply nth_error_None in Ek; lia].
    destruct (less key x) eqn:Ecmp.
    + constructor; [apply IH; assumption|].
      apply Forall_forall. intros y Hy.
      apply insert_index_in in Hy. destruct Hy as [->|Hy].
      * intros a b Ha Hb. rewrite Ek in Ha. rewrite Hi in Hb.
        inversion Ha; inversion Hb; subst. apply less_asym, Ecmp.
      * rewrite Forall_forall in Hall. apply Hall, Hy.
    + constructor; [constructor; assumption|].
      constructor.
      * intros a b Ha Hb. rewrite Hi in Ha. rewrite Ek in Hb.
        inversion Ha; inversion Hb; subst. exact Ecmp.
      * eapply Forall_impl; [|exact Hall]. intros y Hy a b Ha Hb.
        rewrite Hi in Ha. inversion Ha; subst a.
        apply (not_less_trans key x b); [exact Ecmp|].
        apply (Hy x b); [exact Ek | exact Hb].
Qed.

Lemma insertion_pass_descending (v pending : list A) :
  forall (i : nat) (rp : list nat),
    skipn i v = pending ->
    Forall (fun k => k < i) rp ->
    StronglySorted (Props.not_below less v) rp ->
    StronglySorted (Props.not_below less v)
                   (Np.insertion_pass less v pending i rp).
Proof.
  induction pending as [|key rest IH]; intros i rp Hskip Hlt Hs; simpl.
  - exact Hs.
  - destruct (skipn_head v i key rest Hskip) as [Hi Hrest].
    assert (Hlen : i < length v) by (apply nth_error_Some; congruence).
    apply IH; [exact Hrest | |].
    + apply Forall_forall. intros y Hy. apply insert_index_in in Hy.
      destruct Hy as [->|Hy]; [lia|].
      rewrite Forall_forall in Hlt. specialize (Hlt y Hy). lia.
    + apply insert_index_descending; [exact Hi | | exact Hs].
      eapply Forall_impl; [|exact Hlt]. simpl. intros k Hk. lia.
Qed.

Lemma insertion_descending (v : list A) :
  StronglySorted (Props.not_below less v) (Np.insertion_pass less v v 0 []).
Proof.
  apply insertion_pass_descending; [reflexivity | constructor | constructor].
Qed.

End Argsort_permutation.

Section Take_facts.
Context {A : Type}.

Lemma take_all (rows pre : list A) :
  Np.take (pre ++ rows) (seq (length pre) (length rows)) = rows.
Proof.
  revert pre. induction rows as [|r rows IH]; intros pre; [reflexivity|].
  cbn [length seq]. unfold Np.take. cbn [flat_map].
  rewrite nth_error_app2, Nat.sub_diag by lia. cbn [nth_error app].
  f_equal. specialize (IH (pre ++ [r])).
  rewrite <- app_assoc, length_app in IH. cbn [length app] in IH.
  rewrite Nat.add_1_r in IH. exact IH.
Qed.

Lemma take_perm (rows : list A) (idxs : list nat) :
  Permutation idxs (seq 0 (length rows)) -> Permutation (Np.take rows idxs) rows.
Proof.
  intros H. pose proof (take_all rows []) as Hall. cbn [app length] in Hall.
  rewrite <- Hall at 2. unfold Np.take. apply Permutation_flat_map, H.
Qed.

Lemma take_sorted (B : Type) (key : A -> B) (R : B -> B -> Prop)
      (rows : list A) (idxs : list nat) :
  StronglySorted
    (fun i j => forall a b, nth_error (map key rows) i = Some a ->
                            nth_error (map key rows) j = Some b -> R a b)
    idxs ->
  StronglySorted (fun r s => R (key r) (key s)) (Np.take rows idxs).
Proof.
  induction idxs as [|i idxs IH]; intros H; [constructor|].
  apply StronglySorted_inv in H. destruct H as [Hs Hall].
  unfold Np.take. cbn [flat_map]. fold (Np.take rows idxs).
  destruct (nth_error rows i) as [r|] eqn:Er; [|apply IH, Hs].
  cbn [app]. constructor; [apply IH, Hs|].
  apply Forall_forall. intros s Hin. unfold Np.take in Hin.
  apply in_flat_map in Hin. destruct Hin as [j [Hj Hs']].
  destruct (nth_error rows j) as [s'|] eqn:Ej; [|contradiction].
  destruct Hs' as [<-|[]]. rewrite Forall_forall in Hall.
  apply (Hall j Hj); rewrite nth_error_map; [rewrite Er | rewrite Ej];
    reflexivity.
Qed.

End Take_facts.

Lemma mirror_seq (n : nat) :
  map (fun k => n - 1 - k) (seq 0 n) = rev (seq 0 n).
Proof.
  induction n as [|n IH]; [reflexivity|].
  rewrite seq_S at 2. rewrite rev_app_distr. cbn [seq map rev app Nat.add].
  rewrite <- seq_shift, map_map. f_equal; [lia|].
  rewrite <- IH. apply map_ext. intros k. lia.
Qed.

Lemma sorted_snoc {A : Type} (R : A -> A -> Prop) (l : list A) (x : A) :
  StronglySorted R l -> Forall (fun y => R y x) l ->
  StronglySorted R (l ++ [x]).
Proof.
  induction l as [|a l IH]; intros Hs Hall; simpl.
  - constructor; constructor.
  - apply StronglySorted_inv in Hs. destruct Hs as [Hs Ha].
    constructor; [apply IH; [exact Hs | exact (Forall_inv_tail Hall)]|].
    apply Forall_app. split; [exact Ha|].
    constructor; [exact (Forall_inv Hall) | constructor].
Qed.

Lemma sorted_rev {A : Type} (R : A -> A -> Prop) (l : list A) :
  StronglySorted R l -> StronglySorted (fun a b => R b a) (rev l).
Proof.
  induction l as [|a l IH]; intros Hs; simpl; [constructor|].
  apply StronglySorted_inv in Hs. destruct Hs as [Hs Ha].
  apply sorted_snoc; [apply IH, Hs|]. apply Forall_rev. exact Ha.
Qed.

Lemma sorted_impl {A : Type} (R R' : A -> A -> Prop) (l : list A) :
  (forall x y, R x y -> R' x y) -> StronglySorted R l -> StronglySorted R' l.
Proof.
  intros HR. induction 1 as [|a l Hs IH Ha]; constructor; [exact IH|].
  eapply Forall_impl; [|exact Ha]. intros y. apply HR.
Qed.

Lemma sorted_map_in {A B : Type} (R : A -> A -> Prop) (R' : B -> B -> Prop)
      (f : A -> B) (l : list A) :
  (forall x y, In x l -> In y l -> R x y -> R' (f x) (f y)) ->
  StronglySorted R l -> StronglySorted R' (map f l).
Proof.
  induction l as [|a l IH]; intros Hf Hs; simpl; [constructor|].
  apply StronglySorted_inv in Hs. destruct Hs as [Hs Ha].
  constructor.
  - apply IH; [|exact Hs]. intros x y Hx Hy. apply Hf; right; assumption.
  - apply Forall_map, Forall_forall. intros y Hy.
    rewrite Forall_forall in Ha.
    apply Hf; [left; reflexivity | right; exact Hy | apply Ha, Hy].
Qed.

Section String_order.

Lemma ascii_compare_lt_trans (a b c : ascii) :
  Ascii.compare a b = Lt -> Ascii.compare b c = Lt -> Ascii.compare a c = Lt.
Proof.
  unfold Ascii.compare. rewrite !N.compare_lt_iff. apply N.lt_trans.
Qed.

Lemma string_compare_lt_trans (s1 : string) :
  forall s2 s3,
    String.compare s1 s2 = Lt -> String.compare s2 s3 = Lt ->
    String.compare s1 s3 = Lt.
Proof.
  induction s1 as [|a s1 IH]; intros [|b s2] [|c s3]; simpl;
    try discriminate; try reflexivity.
  destruct (Ascii.compare a b) eqn:Eab; try discriminate;
    destruct (Ascii.compare b c) eqn:Ebc; try discriminate; intros H1 H2.
  - apply Ascii.compare_eq_iff in Eab, Ebc. subst.
    assert (Hcc : Ascii.compare c c = Eq)
      by (unfold Ascii.compare; apply N.compare_refl).
    rewrite Hcc. eapply IH; eassumption.
  - apply Ascii.compare_eq_iff in Eab. subst. rewrite Ebc. reflexivity.
  - apply Ascii.compare_eq_iff in Ebc. subst. rewrite Eab. reflexivity.
  - rewrite (ascii_compare_lt_trans a b c Eab Ebc). reflexivity.
Qed.

Lemma string_ltb_asym (a b : string) :
  String.ltb a b = true -> String.ltb b a = false.
Proof.
  unfold String.ltb. rewrite (String.compare_antisym b a).
  destruct (String.compare a b); simpl; congruence.
Qed.

Lemma string_not_ltb_trans (a b c : string) :
  String.ltb a b = false -> String.ltb b c = false -> String.ltb a c = false.
Proof.
  unfold String.ltb. intros Hab Hbc.
  destruct (String.compare a c) eqn:Eac; try reflexivity. exfalso.
  destruct (String.compare a b) eqn:Eab; try discriminate.
  - apply String.compare_eq_iff in Eab. subst b. rewrite Eac in Hbc.
    discriminate.
  - rewrite (String.compare_antisym a b) in Eab.
    destruct (String.compare b a) eqn:Eba; try discriminate.
    rewrite (string_compare_lt_trans b a c Eba Eac) in Hbc. discriminate.
Qed.

End String_order.

Section Sort_values_facts.
Context {R : Type} (col : string) (by_col : R -> string).

Lemma nargsort_perm (ascending : bool) (keys : list string) :
  Permutation (Np.nargsort ascending keys) (seq 0 (length keys)).
Proof.
  unfold Np.nargsort. destruct ascending; [apply argsort_perm|].
  eapply Permutation_trans; [apply Permutation_sym, Permutation_rev|].
  eapply Permutation_trans; [apply Permutation_map, argsort_perm|].
  rewrite length_rev, mirror_seq. apply Permutation_sym, Permutation_rev.
Qed.

Lemma sort_values_perm (ascending : bool) (rows out : list R) :
  Np.sort_values col by_col ascending rows = inr out -> Permutation out rows.
Proof.
  unfold Np.sort_values. destruct rows as [|r rows]; [discriminate|].
  intros H. inversion H; subst out. apply take_perm.
  pose proof (nargsort_perm ascending (map by_col (r :: rows))) as Hp.
  rewrite length_map in Hp. exact Hp.
Qed.

Lemma sort_values_empty (ascending : bool) :
  Np.sort_values col by_col ascending [] = inl (Py.KeyError col).
Proof. reflexivity. Qed.

Lemma sort_values_ascending (rows out : list R) :
  Np.sort_values col by_col true rows = inr out ->
  StronglySorted (fun r s => String.ltb (by_col s) (by_col r) = false) out.
Proof.
  unfold Np.sort_values. intros H.
  assert (Hout : out = Np.take rows (Np.nargsort true (map by_col rows)))
    by (destruct rows; [discriminate | inversion H; reflexivity]).
  subst out.
  apply (take_sorted string by_col (fun a b => String.ltb b a = false)).
  unfold Np.nargsort, Np.argsort.
  eapply sorted_impl;
    [|apply sorted_rev, (insertion_descending String.ltb string_ltb_asym
                           string_not_ltb_trans (map by_col rows))].
  intros i j Hij a b Ha Hb. exact (Hij b a Hb Ha).
Qed.

Lemma sort_values_descending (rows out : list R) :
  Np.sort_values col by_col false rows = inr out ->
  StronglySorted (fun r s => String.ltb (by_col r) (by_col s) = false) out.
Proof.
  unfold Np.sort_values. intros H.
  assert (Hout : out = Np.take rows (Np.nargsort false (map by_col rows)))
    by (destruct rows; [discriminate | inversion H; reflexivity]).
  subst out.
  apply (take_sorted string by_col (fun a b => String.ltb a b = false)).
  unfold Np.nargsort, Np.argsort. set (keys := map by_col rows).
  rewrite map_rev, rev_involutive.
  pose proof (insertion_descending String.ltb string_ltb_asym
                string_not_ltb_trans (rev keys)) as Hs.
  assert (Hrange : forall x,
             In x (Np.insertion_pass String.ltb (rev keys) (rev keys) 0 []) ->
             x < length keys).
  { intros x Hx.
    pose proof (insertion_pass_perm String.ltb (rev keys) (rev keys) 0 [])
      as Hp.
    rewrite app_nil_r in Hp. apply (Permutation_in _ Hp) in Hx.
    apply in_seq in Hx. rewrite length_rev in Hx. lia. }
  eapply sorted_map_in; [|exact Hs].
  intros x y Hx Hy Hxy a b Ha Hb.
  apply Hrange in Hx, Hy. apply (Hxy a b).
  - rewrite nth_error_rev. apply Nat.ltb_lt in Hx. rewrite Hx.
    rewrite <- Ha. f_equal. lia.
  - rewrite nth_error_rev. apply Nat.ltb_lt in Hy. rewrite Hy.
    rewrite <- Hb. f_equal. lia.
Qed.

End Sort_values_facts.

(** * The aggregator *)

Section Aggregator_facts.
Import Py Str_wfs.

Local Open Scope Z_scope.

Lemma update_in (site : string) (f : totals -> totals) (results : results_t)
      (k : string) (t' : totals) :
  In (k, t') (update site f results) ->
  In (k, t') results \/
  (k = site /\ exists t, (In (site, t) results \/ t = totals0) /\ t' = f t).
Proof.
  induction results as [|[k0 t0] rest IH]; simpl.
  - intros [H|[]]. inversion H; subst. right. split; [reflexivity|].
    exists totals0. split; [right; reflexivity | reflexivity].
  - destruct (String.eqb_spec k0 site) as [->|Hne]; simpl.
    + intros [H|H]; [|left; right; exact H].
      inversion H; subst. right. split; [reflexivity|].
      exists t0. split; [left; left; reflexivity | reflexivity].
    + intros [H|H]; [left; left; exact H|].
      destruct (IH H) as [H'|[-> [t [[Ht|Ht] Hf]]]].
      * left; right; exact H'.
      * right. split; [reflexivity|]. exists t.
        split; [left; right; exact Ht | exact Hf].
      * right. split; [reflexivity|]. exists t.
        split; [right; exact Ht | exact Hf].
Qed.

Lemma update_keys_in (site : string) (f : totals -> totals)
      (results : results_t) (k : string) :
  In k (map fst (update site f results)) -> k = site \/ In k (map fst results).
Proof.
  induction results as [|[k0 t0] rest IH]; simpl.
  - intros [H|[]]. left. symmetry. exact H.
  - destruct (String.eqb_spec k0 site) as [->|Hne]; simpl; [tauto|].
    intros [H|H]; [right; left; exact H|].
    destruct (IH H); [left | right; right]; assumption.
Qed.

Lemma update_keys_unique (site : string) (f : totals -> totals)
      (results : results_t) :
  NoDup (map fst results) -> NoDup (map fst (update site f results)).
Proof.
  induction results as [|[k0 t0] rest IH]; simpl; intros H.
  - constructor; [intros [] | constructor].
  - inversion H as [|? ? Hnotin Hd]; subst.
    destruct (String.eqb_spec k0 site) as [->|Hne]; simpl.
    + constructor; assumption.
    + constructor; [|apply IH, Hd].
      intros Hin. apply update_keys_in in Hin.
      destruct Hin as [->|Hin]; [congruence | contradiction].
Qed.

Lemma update_nonempty (site : string) (f : totals -> totals)
      (results : results_t) :
  update site f results <> [].
Proof.
  destruct results as [|[k0 t0] rest]; simpl; [discriminate|].
  destruct (String.eqb k0 site); discriminate.
Qed.

(** What one more file adds to the totals of its source. *)
Lemma accumulate_in (site text : string) (results : results_t)
      (k : string) (t' : totals) :
  In (k, t') (accumulate site text results) ->
  In (k, t') results \/
  (k = site /\
   exists t, (In (site, t) results \/ t = totals0) /\
     count t' = count t + 1 /\
     major t <= major t' /\ sub t <= sub t' /\
     ((snd (analyze_workflow text) = None /\
       aggression_count t' = aggression_count t /\
       aggression_pos_sum t' = aggression_pos_sum t) \/
      (snd (analyze_workflow text) <> None /\
       aggression_count t' = aggression_count t + 1 /\
       aggression_pos_sum t + 1 <= aggression_pos_sum t'))).
Proof.
  unfold accumulate, analyze_workflow.
  destruct (analyze_workflow_ok text) as (Hm & Hs & _ & _ & _ & Hp).
  set (st := scan_lines (split_lines (strip text)) scan0) in *.
  intros H. apply update_in in H.
  destruct H as [H|[-> [t [Ht Hf]]]]; [left; exact H|].
  right. split; [reflexivity|]. exists t. split; [exact Ht|].
  cbn [snd]. destruct (intervention_step_position st) as [p|] eqn:Ep;
    subst t'; cbn.
  - destruct (Hp p eq_refl). repeat split; try lia.
    right. repeat split; try discriminate; lia.
  - repeat split; try lia. left. repeat split; reflexivity.
Qed.

Lemma scan_folder_cases (fs : file_system) (root_dir disease folder : string)
      (results : results_t) :
  scan_folder fs root_dir disease results folder = results \/
  exists text,
    fs (Props.expected_path root_dir disease folder) = Some (Some text) /\
    analyze_workflow_raises text = false /\
    scan_folder fs root_dir disease results folder
    = accumulate folder text results.
Proof.
  unfold scan_folder, Props.expected_path.
  destruct (fs _) as [[text|]|]; [|left; reflexivity | left; reflexivity].
  destruct (analyze_workflow_raises text) eqn:E; [left; reflexivity|].
  right. exists text. split; [reflexivity|]. split; [exact E | reflexivity].
Qed.

Lemma accumulate_keys_unique (site text : string) (results : results_t) :
  NoDup (map fst results) -> NoDup (map fst (accumulate site text results)).
Proof.
  unfold accumulate. destruct (analyze_workflow text) as [[m s] p].
  apply update_keys_unique.
Qed.

Lemma accumulate_nonempty (site text : string) (results : results_t) :
  accumulate site text results <> [].
Proof.
  unfold accumulate. destruct (analyze_workflow text) as [[m s] p].
  apply update_nonempty.
Qed.

Lemma scan_folder_scanned (fs : file_system) (root_dir disease folder : string)
      (k : Z) (todo : list string) (results : results_t) :
  0 <= k -> In folder WF_FOLDERS -> ~ In folder todo ->
  Props.scanned k (folder :: todo) results ->
  Props.scanned k todo (scan_folder fs root_dir disease results folder).
Proof.
  intros Hk Hf Hnot [Hnd Hall].
  destruct (scan_folder_cases fs root_dir disease folder results)
    as [->|[text [_ [_ ->]]]].
  - split; [exact Hnd|]. intros site t Hin.
    destruct (Hall site t Hin) as (H1 & H2 & H3 & H4).
    repeat split; try tauto; try lia. intros Ht. apply H3. right. exact Ht.
  - split; [apply accumulate_keys_unique, Hnd|]. intros site t' Hin.
    apply accumulate_in in Hin.
    destruct Hin as [Hin|[-> [t [Ht (Hc & Hm & Hs & Hagg)]]]].
    + destruct (Hall site t' Hin) as (H1 & H2 & H3 & H4).
      repeat split; try tauto; try lia. intros Ht. apply H3. right. exact Ht.
    + assert (Hold : 0 <= count t <= k /\
                     0 <= aggression_count t <= count t /\
                     0 <= major t /\ 0 <= sub t /\
                     aggression_count t <= aggression_pos_sum t).
      { destruct Ht as [Ht| ->]; [|cbn; lia].
        destruct (Hall folder t Ht) as (_ & H2 & H3 & H4).
        specialize (H3 (or_introl eq_refl)). lia. }
      split; [exact Hf|]. split; [lia|]. split; [intros H; contradiction|].
      destruct Hagg as [(_ & Ha & Hp)|(_ & Ha & Hp)]; lia.
Qed.

Lemma scan_disease_scanned (fs : file_system) (root_dir disease : string)
      (k : Z) (todo : list string) :
  0 <= k -> NoDup todo -> incl todo WF_FOLDERS ->
  forall results,
    Props.scanned k todo results ->
    Props.scanned k []
                  (fold_left (scan_folder fs root_dir disease) todo results).
Proof.
  intros Hk. induction todo as [|f todo IH]; intros Hnd Hincl results H.
  - exact H.
  - cbn [fold_left]. inversion Hnd as [|? ? Hnot Hnd']; subst.
    apply IH; [exact Hnd' | |].
    + intros x Hx. apply Hincl. right. exact Hx.
    + apply scan_folder_scanned; try assumption.
      apply Hincl. left. reflexivity.
Qed.

Lemma scanned_next (k : Z) (results : results_t) :
  Props.scanned k [] results -> Props.scanned (k + 1) WF_FOLDERS results.
Proof.
  intros [Hnd Hall]. split; [exact Hnd|]. intros site t Hin.
  destruct (Hall site t Hin) as (H1 & H2 & H3 & H4).
  repeat split; try tauto; try lia.
Qed.

Lemma scan_diseases_scanned (fs : file_system) (root_dir : string)
      (diseases : list string) :
  forall (k : Z) (results : results_t),
    0 <= k -> Props.scanned k WF_FOLDERS results ->
    Props.scanned
      (k + Z.of_nat (length diseases)) WF_FOLDERS
      (fold_left
         (fun results disease =>
            fold_left (scan_folder fs root_dir disease) WF_FOLDERS results)
         diseases results).
Proof.
  induction diseases as [|d ds IH]; intros k results Hk H.
  - simpl. rewrite Z.add_0_r. exact H.
  - cbn [fold_left length].
    replace (k + Z.of_nat (S (length ds)))
      with ((k + 1) + Z.of_nat (length ds)) by lia.
    apply IH; [lia|]. apply scanned_next.
    apply scan_disease_scanned; try assumption.
    + unfold WF_FOLDERS. repeat constructor; simpl; intuition discriminate.
    + apply incl_refl.
Qed.

Lemma scan_corpus_scanned (fs : file_system) (root_dir : string) :
  Props.scanned 20 WF_FOLDERS (scan_corpus fs root_dir).
Proof.
  apply (scan_diseases_scanned fs root_dir DISEASE_LIST 0 []); [lia|].
  split; [constructor | intros site t []].
Qed.

(** X6.  After the corpus is scanned each source appears once in the
    totals, is one of the five folders, has between 1 and 20 files
    counted, at most that many intervention positions, non-negative step
    sums, and a sum of positions that is at least their number. *)
Theorem scan_corpus_totals (fs : file_system) (root_dir : string) :
  NoDup (map fst (scan_corpus fs root_dir)) /\
  Forall (fun '(site, t) => Props.totals_ok site t) (scan_corpus fs root_dir).
Proof.
  destruct (scan_corpus_scanned fs root_dir) as [Hnd Hall].
  split; [exact Hnd|]. apply Forall_forall. intros [site t] Hin.
  destruct (Hall site t Hin) as (H1 & H2 & H3 & H4 & H5 & H6 & H7).
  unfold Props.totals_ok. specialize (H3 H1). repeat split; try lia.
  exact H1.
Qed.

End Aggregator_facts.

Section Table_facts.
Import Py Str_wfs.

Local Open Scope Z_scope.

Lemma fold_left_fixed {A B : Type} (f : A -> B -> A) (l : list B) (a : A) :
  (forall x, In x l -> f a x = a) -> fold_left f l a = a.
Proof.
  induction l as [|x l IH]; intros H; [reflexivity|].
  cbn [fold_left]. rewrite (H x) by (left; reflexivity).
  apply IH. intros y Hy. apply H. right. exact Hy.
Qed.

Lemma fold_left_kept {A B : Type} (P : A -> Prop) (f : A -> B -> A)
      (l : list B) :
  (forall a x, P a -> P (f a x)) -> forall a, P a -> P (fold_left f l a).
Proof.
  intros Hf. induction l as [|x l IH]; intros a Ha; [exact Ha|].
  cbn [fold_left]. apply IH, Hf, Ha.
Qed.

Lemma fold_left_reached {A B : Type} (P : A -> Prop) (f : A -> B -> A)
      (l : list B) (x : B) :
  (forall a y, P a -> P (f a y)) -> (forall a, P (f a x)) -> In x l ->
  forall a, P (fold_left f l a).
Proof.
  intros Hkept Hx. induction l as [|y l IH]; intros Hin a; [contradiction|].
  cbn [fold_left]. destruct Hin as [->|Hin].
  - apply fold_left_kept; [exact Hkept | apply Hx].
  - apply IH, Hin.
Qed.

Lemma fold_left_kept_in {A B : Type} (P : A -> Prop) (f : A -> B -> A)
      (l : list B) :
  (forall a x, In x l -> P a -> P (f a x)) ->
  forall a, P a -> P (fold_left f l a).
Proof.
  induction l as [|x l IH]; intros Hf a Ha; [exact Ha|].
  cbn [fold_left]. apply IH.
  - intros b y Hy. apply Hf. right. exact Hy.
  - apply Hf; [left; reflexivity | exact Ha].
Qed.

(** X7.  When each of the expected files is missing, cannot be read, or
    makes the analysis raise, whatever else the tree holds, there is no
    row to sort and [structural_analysis] ends with the [KeyError] of the
    first table's sort column. *)
Theorem unreadable_corpus_raises (fs : file_system) (root_dir : string) :
  (forall disease folder text,
     In disease DISEASE_LIST -> In folder WF_FOLDERS ->
     fs (Props.expected_path root_dir disease folder) = Some (Some text) ->
     analyze_workflow_raises text = true) ->
  structural_analysis fs root_dir = inl (KeyError "Avg Major Steps").
Proof.
  intros Hfs.
  assert (Hscan : scan_corpus fs root_dir = []).
  { unfold scan_corpus. apply fold_left_fixed. intros disease Hd.
    apply fold_left_fixed. intros folder Hf.
    destruct (scan_folder_cases fs root_dir disease folder [])
      as [H|[text [H [Hok _]]]]; [exact H|].
    rewrite (Hfs disease folder text Hd Hf H) in Hok. discriminate. }
  unfold structural_analysis. rewrite Hscan. reflexivity.
Qed.

Lemma unreadable_corpus_raises_witness :
  structural_analysis More_samples.nothing_usable "./"
  = inl (KeyError "Avg Major Steps").
Proof.
  apply (unreadable_corpus_raises More_samples.nothing_usable "./").
  intros disease folder text Hd Hf Hfs. simpl in Hd, Hf.
  repeat (destruct Hd as [<-|Hd];
          [repeat (destruct Hf as [<-|Hf];
                   [vm_compute in Hfs; try discriminate Hfs;
                    injection Hfs as <-; vm_compute; reflexivity|]);
           contradiction|]).
  contradiction.
Defined.

Lemma step_data_all (results : results_t) :
  (forall site t, In (site, t) results -> 1 <= count t) ->
  step_data results
  = map (fun '(site, data) =>
           mkStepRow (source_name site)
                     (format_2f (truediv (major data) (count data)))
                     (format_2f (truediv (sub data) (count data)))
                     (count data))
        results.
Proof.
  induction results as [|[site t] rest IH]; intros H; [reflexivity|].
  unfold step_data in *. cbn [flat_map map].
  assert (Hc : (0 <? count t) = true)
    by (apply Z.ltb_lt; specialize (H site t (or_introl eq_refl)); lia).
  rewrite Hc. cbn [app]. f_equal. apply IH.
  intros s t' Hin. apply (H s t'). right. exact Hin.
Qed.

Lemma aggression_data_filter (results : results_t) :
  aggression_data results
  = map (fun '(site, data) =>
           mkAggressionRow
             (source_name site)
             (format_2f (truediv (aggression_pos_sum data)
                                 (aggression_count data)))
             (aggression_count data))
        (filter (fun '(_, data) => 0 <? aggression_count data) results).
Proof.
  induction results as [|[site t] rest IH]; [reflexivity|].
  unfold aggression_data in *. cbn [flat_map filter].
  destruct (0 <? aggression_count t); cbn [app map]; rewrite IH; reflexivity.
Qed.

Lemma structural_analysis_tables (fs : file_system) (root_dir : string)
      (t1 : list step_row) (t2 : list aggression_row) :
  structural_analysis fs root_dir = inr (t1, t2) ->
  df_steps (scan_corpus fs root_dir) = inr t1 /\
  df_aggression (scan_corpus fs root_dir) = inr t2.
Proof.
  unfold structural_analysis.
  destruct (df_steps (scan_corpus fs root_dir)) as [e|a]; [discriminate|].
  destruct (df_aggression (scan_corpus fs root_dir)) as [e|b]; [discriminate|].
  intros H. inversion H; subst. split; reflexivity.
Qed.

Lemma scan_corpus_counts (fs : file_system) (root_dir : string) :
  forall site t, In (site, t) (scan_corpus fs root_dir) -> 1 <= count t.
Proof.
  intros site t Hin. destruct (scan_corpus_scanned fs root_dir) as [_ Hall].
  destruct (Hall site t Hin) as (_ & H & _). lia.
Qed.

(** X9.  Table 1 has exactly one row for each source with a counted
    file, carrying its file count, and Table 2 exactly one row for each
    source with at least one intervention position, carrying the number
    of positions: sorting neither drops nor repeats a row. *)
Theorem tables_list_every_source
        (fs : file_system) (root_dir : string)
        (t1 : list step_row) (t2 : list aggression_row) :
  structural_analysis fs root_dir = inr (t1, t2) ->
  Permutation
    (map (fun r => (Source r, Total_WFs_Processed r)) t1)
    (map (fun '(site, t) => (source_name site, count t))
         (scan_corpus fs root_dir)) /\
  Permutation
    (map (fun r => (Source' r, Applicable_WFs_Count r)) t2)
    (map (fun '(site, t) => (source_name site, aggression_count t))
         (filter (fun '(_, t) => 0 <? aggression_count t)
                 (scan_corpus fs root_dir))).
Proof.
  intros H. destruct (structural_analysis_tables fs root_dir t1 t2 H)
    as [H1 H2].
  unfold df_steps in H1. unfold df_aggression in H2.
  apply sort_values_perm in H1, H2.
  rewrite (step_data_all _ (scan_corpus_counts fs root_dir)) in H1.
  rewrite aggression_data_filter in H2.
  split.
  - eapply Permutation_trans; [apply Permutation_map, H1|].
    rewrite map_map. erewrite map_ext; [apply Permutation_refl|].
    intros [site t]. reflexivity.
  - eapply Permutation_trans; [apply Permutation_map, H2|].
    rewrite map_map. erewrite map_ext; [apply Permutation_refl|].
    intros [site t]. reflexivity.
Qed.

Lemma two_sources_tables :
  structural_analysis Samples.two_sources "./"
  = inr ([mkStepRow "Mayo" "9.50" "0.00" 2;
          mkStepRow "Cleveland" "10.25" "0.00" 4],
         [mkAggressionRow "Cleveland" "10.25" 4;
          mkAggressionRow "Mayo" "9.50" 2]).
Proof. vm_compute. reflexivity. Qed.

Lemma tables_list_every_source_witness :
  Permutation
    [("Mayo"%string, 2); ("Cleveland"%string, 4)]
    (map (fun '(site, t) => (source_name site, count t))
         (scan_corpus Samples.two_sources "./")) /\
  Permutation
    [("Cleveland"%string, 4); ("Mayo"%string, 2)]
    (map (fun '(site, t) => (source_name site, aggression_count t))
         (filter (fun '(_, t) => 0 <? aggression_count t)
                 (scan_corpus Samples.two_sources "./"))).
Proof.
  apply (tables_list_every_source
           Samples.two_sources "./"
           [mkStepRow "Mayo" "9.50" "0.00" 2;
            mkStepRow "Cleveland" "10.25" "0.00" 4]
           [mkAggressionRow "Cleveland" "10.25" 4;
            mkAggressionRow "Mayo" "9.50" 2]).
  exact two_sources_tables.
Defined.

(** X10.  The rows of Table 1 are in non-increasing order, and the rows
    of Table 2 in non-decreasing order, of the text of their formatted
    average, compared character by character. *)
Theorem tables_ordered_as_text
        (fs : file_system) (root_dir : string)
        (t1 : list step_row) (t2 : list aggression_row) :
  structural_analysis fs root_dir = inr (t1, t2) ->
  StronglySorted
    (fun r s => String.ltb (Avg_Major_Steps r) (Avg_Major_Steps s) = false)
    t1 /\
  StronglySorted
    (fun r s => String.ltb (Avg_Intervention_Step_Position s)
                           (Avg_Intervention_Step_Position r) = false)
    t2.
Proof.
  intros H. destruct (structural_analysis_tables fs root_dir t1 t2 H)
    as [H1 H2].
  split.
  - eapply sort_values_descending, H1.
  - eapply sort_values_ascending, H2.
Qed.

Lemma tables_ordered_as_text_witness :
  StronglySorted
    (fun r s => String.ltb (Avg_Major_Steps r) (Avg_Major_Steps s) = false)
    [mkStepRow "Mayo" "9.50" "0.00" 2;
     mkStepRow "Cleveland" "10.25" "0.00" 4] /\
  StronglySorted
    (fun r s => String.ltb (Avg_Intervention_Step_Position s)
                           (Avg_Intervention_Step_Position r) = false)
    [mkAggressionRow "Cleveland" "10.25" 4;
     mkAggressionRow "Mayo" "9.50" 2].
Proof.
  apply (tables_ordered_as_text Samples.two_sources "./").
  exact two_sources_tables.
Defined.

Lemma scan_folder_quiet (fs : file_system) (root_dir disease folder : string)
      (results : results_t) :
  (forall text,
     fs (Props.expected_path root_dir disease folder) = Some (Some text) ->
     analyze_workflow_raises text = false ->
     snd (analyze_workflow text) = None) ->
  (forall site t, In (site, t) results -> aggression_count t = 0) ->
  forall site t,
    In (site, t) (scan_folder fs root_dir disease results folder) ->
    aggression_count t = 0.
Proof.
  intros Hquiet Hall site t'.
  destruct (scan_folder_cases fs root_dir disease folder results)
    as [->|[text [Hfs [Hok ->]]]]; [apply Hall|].
  intros Hin. apply accumulate_in in Hin.
  destruct Hin as [Hin|[-> [t [Ht (_ & _ & _ & Hagg)]]]];
    [apply (Hall site t' Hin)|].
  assert (H0 : aggression_count t = 0)
    by (destruct Ht as [Ht| ->]; [apply (Hall folder t Ht) | reflexivity]).
  destruct Hagg as [(_ & Ha & _)|(Hsome & _)]; [lia|].
  exfalso. apply Hsome, (Hquiet text Hfs Hok).
Qed.

Lemma scan_folder_keeps_rows (fs : file_system)
      (root_dir disease folder : string) (results : results_t) :
  results <> [] -> scan_folder fs root_dir disease results folder <> [].
Proof.
  intros H. destruct (scan_folder_cases fs root_dir disease folder results)
    as [->|[text [_ [_ ->]]]]; [exact H | apply accumulate_nonempty].
Qed.

(** X8.  When at least one expected file is read and analysed, and the
    analysis finds no intervention position in any expected file that is
    read and analysed, Table 2 has no row and [structural_analysis] ends
    with the [KeyError] of its sort column. *)
Theorem no_intervention_raises
        (fs : file_system) (root_dir disease folder text : string) :
  In disease DISEASE_LIST -> In folder WF_FOLDERS ->
  fs (Props.expected_path root_dir disease folder) = Some (Some text) ->
  analyze_workflow_raises text = false ->
  (forall d f text',
     In d DISEASE_LIST -> In f WF_FOLDERS ->
     fs (Props.expected_path root_dir d f) = Some (Some text') ->
     analyze_workflow_raises text' = false ->
     snd (analyze_workflow text') = None) ->
  structural_analysis fs root_dir
  = inl (KeyError "Avg Intervention Step Position").
Proof.
  intros Hd Hf Hfile Hok Hquiet.
  assert (Hrows : scan_corpus fs root_dir <> []).
  { unfold scan_corpus.
    apply (fold_left_reached (fun r : results_t => r <> []) _ _ disease);
      [| |exact Hd].
    - intros r d Hr. apply fold_left_kept; [|exact Hr].
      intros a x. apply scan_folder_keeps_rows.
    - intros r.
      apply (fold_left_reached (fun r : results_t => r <> []) _ _ folder);
        [| |exact Hf].
      + intros a x. apply scan_folder_keeps_rows.
      + intros a. unfold scan_folder.
        fold (Props.expected_path root_dir disease folder).
        rewrite Hfile, Hok. apply accumulate_nonempty. }
  assert (Hzero : forall site t, In (site, t) (scan_corpus fs root_dir) ->
                                 aggression_count t = 0).
  { unfold scan_corpus.
    apply (fold_left_kept_in
             (fun r : results_t =>
                forall site t, In (site, t) r -> aggression_count t = 0)).
    - intros r d Hin Hr. apply fold_left_kept_in; [|exact Hr].
      intros a x Hx Ha. apply scan_folder_quiet; [|exact Ha].
      intros text' Hfs' Hok'. apply (Hquiet d x text'); assumption.
    - intros site t []. }
  unfold structural_analysis, df_steps, df_aggression.
  rewrite (step_data_all _ (scan_corpus_counts fs root_dir)).
  rewrite aggression_data_filter.
  destruct (scan_corpus fs root_dir) as [|[site t] rest] eqn:E;
    [contradiction|].
  cbn [map Np.sort_values].
  assert (Hnone : filter (fun '(_, data) => 0 <? aggression_count data)
                         ((site, t) :: rest) = []).
  { clear - Hzero. induction ((site, t) :: rest) as [|[s d] l IH];
      [reflexivity|].
    cbn [filter]. rewrite (Hzero s d) by (left; reflexivity). cbn.
    apply IH. intros s' d' Hin. apply (Hzero s' d'). right. exact Hin. }
  rewrite Hnone. reflexivity.
Qed.

Lemma no_intervention_raises_witness :
  structural_analysis More_samples.no_position "./"
  = inl (KeyError "Avg Intervention Step Position").
Proof.
  apply (no_intervention_raises More_samples.no_position
           "./" "asthma" "mayowf" "1. Use the inhaler").
  - simpl. tauto.
  - simpl. tauto.
  - reflexivity.
  - reflexivity.
  - intros d f text' Hd Hf Hfs Hok. simpl in Hd, Hf.
    repeat (destruct Hd as [<-|Hd];
            [repeat (destruct Hf as [<-|Hf];
                     [vm_compute in Hfs; try discriminate Hfs;
                      injection Hfs as <-;
                      first [reflexivity
                            | vm_compute in Hok; discriminate Hok]|]);
             contradiction|]).
    contradiction.
Defined.

End Table_facts.

(** * The loaded corpus and the report *)

Section Order_lemmas.
Context {A : Type}.

Lemma in_order_all_skipped (l : list A) : Props.in_order [] l.
Proof. induction l; constructor; assumption. Qed.

Lemma in_order_app (a l m : list A) :
  Props.in_order a l -> Props.in_order a (l ++ m).
Proof.
  induction 1; simpl;
    [apply in_order_all_skipped | constructor; assumption
     | constructor; assumption].
Qed.

Lemma in_order_snoc (a l : list A) (x : A) :
  Props.in_order a l -> Props.in_order (a ++ [x]) (l ++ [x]).
Proof.
  induction 1; simpl;
    [constructor; constructor | constructor; assumption
     | constructor; assumption].
Qed.

Lemma in_order_in (a l : list A) (x : A) :
  Props.in_order a l -> In x a -> In x l.
Proof.
  induction 1; simpl; intros Hin; [exact Hin | right; auto |].
  destruct Hin as [->|Hin]; [left; reflexivity | right; auto].
Qed.

Lemma in_order_without_last (a l : list A) (x : A) :
  Props.in_order a (l ++ [x]) -> ~ In x a -> Props.in_order a l.
Proof.
  revert a. induction l as [|y l IH]; intros a H Hnot; simpl in H.
  - inversion H as [|? ? ? H'|? ? ? H']; subst.
    + inversion H'; subst. apply Props.in_order_nil.
    + exfalso. apply Hnot. left. reflexivity.
  - inversion H as [|? ? ? H'|? ? ? H']; subst.
    + apply Props.in_order_skip. apply IH; assumption.
    + apply Props.in_order_keep. apply IH; [exact H'|].
      intros Hin. apply Hnot. right. exact Hin.
Qed.

Lemma in_order_unique (a l : list A) :
  Props.in_order a l -> NoDup l -> NoDup a.
Proof.
  induction 1; intros Hnd; [constructor | |].
  - inversion Hnd; subst. auto.
  - inversion Hnd as [|? ? Hnot Hnd']; subst. constructor; [|auto].
    intros Hin. apply Hnot. eapply in_order_in; eassumption.
Qed.

Lemma in_order_length (a l : list A) :
  Props.in_order a l -> length a <= length l.
Proof. induction 1; simpl; lia. Qed.

End Order_lemmas.

Section Corpus_shape.
Import Py Analyze_wfs.

Lemma set_item_keys {V : Type} (k : string) (v : V) (d : dict V) :
  keys (set_item k v d) = keys d \/
  (~ In k (keys d) /\ keys (set_item k v d) = keys d ++ [k]).
Proof.
  induction d as [|[k' v'] d IH]; simpl.
  - right. split; [tauto | reflexivity].
  - destruct (String.eqb_spec k' k) as [->|Hne]; simpl; [left; reflexivity|].
    destruct IH as [IH|[Hnot IH]].
    + left. rewrite IH. reflexivity.
    + right. split; [|rewrite IH; reflexivity].
      intros [H|H]; [congruence | contradiction].
Qed.

Lemma set_item_nonempty {V : Type} (k : string) (v : V) (d : dict V) :
  set_item k v d <> [].
Proof.
  destruct d as [|[k' v'] d]; simpl; [discriminate|].
  destruct (String.eqb k' k); discriminate.
Qed.

Lemma loaded_more (done more : list string) (data : corpus) :
  Props.loaded done data -> Props.loaded (done ++ more) data.
Proof.
  intros H d inner Hget. destruct (H d inner Hget) as [H1 H2].
  split; [exact H1 | apply in_order_app, H2].
Qed.

Lemma load_file_loaded (done : list string) (folder : string)
      (entry : string * result string) (data data' : corpus) :
  Props.loaded (done ++ [folder]) data ->
  load_file folder data entry = inr data' ->
  Props.loaded (done ++ [folder]) data'.
Proof.
  intros Hl Hload.
  destruct (load_file_ok_shape folder data data' entry Hload)
    as [name [text [d [ds [-> E]]]]].
  revert Hload.
  destruct (load_file_lookup folder name text d ds data E) as [x [Hx Hget]].
  rewrite Hx. intros H. inversion H; subst x.
  intros k inner. rewrite Hget.
  destruct (String.eqb_spec d k) as [<-|Hne]; [|apply Hl].
  intros Hin. inversion Hin; subst inner.
  split; [apply set_item_nonempty|].
  assert (Hold : Props.in_order
                   (keys match get_item d data with
                         | Some m => m
                         | None => []
                         end) (done ++ [folder])).
  { destruct (get_item d data) as [m|] eqn:Em.
    - apply (Hl d m Em).
    - apply in_order_all_skipped. }
  destruct (set_item_keys folder text
              match get_item d data with Some m => m | None => [] end)
    as [->|[Hnot ->]]; [exact Hold|].
  apply in_order_snoc. eapply in_order_without_last; eassumption.
Qed.

Lemma load_files_loaded (done : list string) (folder : string)
      (files : directory) :
  forall data data',
    Props.loaded (done ++ [folder]) data ->
    load_files folder files data = inr data' ->
    Props.loaded (done ++ [folder]) data'.
Proof.
  induction files as [|entry rest IH]; intros data data' Hl; simpl.
  - intros H. inversion H; subst. exact Hl.
  - destruct (load_file folder data entry) as [e|d1] eqn:E; [discriminate|].
    apply IH. eapply load_file_loaded; eassumption.
Qed.

Lemma load_folders_loaded (fs : file_system) (root : string)
      (todo : list string) :
  forall done data data',
    Props.loaded done data ->
    load_folders fs root todo data = inr data' ->
    Props.loaded (done ++ todo) data'.
Proof.
  induction todo as [|f todo IH]; intros done data data' Hl; simpl.
  - intros H. inversion H; subst. rewrite app_nil_r. exact Hl.
  - replace (done ++ f :: todo) with ((done ++ [f]) ++ todo)
      by (rewrite <- app_assoc; reflexivity).
    destruct (fs (path_join root f)) as [entries|].
    + destruct (load_files f (glob_txt entries) data) as [e|d1] eqn:E;
        [discriminate|].
      apply IH. eapply load_files_loaded; [|exact E].
      apply loaded_more, Hl.
    + apply IH. apply loaded_more, Hl.
Qed.

Lemma load_workflows_loaded (fs : file_system) (root : string)
      (data : corpus) :
  load_workflows fs root = inr data ->
  NoDup (keys data) /\ Props.loaded WF_FOLDERS data.
Proof.
  unfold load_workflows. intros H. split.
  - eapply load_folders_keys_unique; [|exact H]. constructor.
  - apply (load_folders_loaded fs root WF_FOLDERS [] [] data);
      [|exact H].
    intros d inner Hget. discriminate.
Qed.

(** X12.  In a loaded corpus each disease appears once, has at least
    one source, and lists its sources in the order of the five folders,
    each at most once. *)
Theorem loaded_corpus_shape (fs : file_system) (root : string)
        (data : corpus) :
  load_workflows fs root = inr data ->
  NoDup (keys data) /\
  Forall (fun '(_, inner) =>
            inner <> [] /\ Props.in_order (keys inner) WF_FOLDERS /\
            NoDup (keys inner))
         data.
Proof.
  intros H. destruct (load_workflows_loaded fs root data H) as [Hnd Hl].
  split; [exact Hnd|]. apply Forall_forall. intros [d inner] Hin.
  destruct (Hl d inner (in_get_item d inner data Hnd Hin)) as [H1 H2].
  split; [exact H1|]. split; [exact H2|].
  apply (in_order_unique _ _ H2).
  unfold WF_FOLDERS. repeat constructor; simpl; intuition discriminate.
Qed.

Lemma loaded_corpus_shape_witness :
  NoDup (keys [("gerd", [("mayowf", "Surgery"); ("wikiwf", "Surgery")])]) /\
  Forall (fun '(_, inner) =>
            inner <> [] /\ Props.in_order (keys inner) WF_FOLDERS /\
            NoDup (keys inner))
         [("gerd", [("mayowf", "Surgery"); ("wikiwf", "Surgery")])].
Proof.
  apply (loaded_corpus_shape Samples.listing_a "./"). reflexivity.
Defined.

(** X11.  When no source folder lists a text file, because it is
    missing or holds none, the corpus and the report are empty. *)
Theorem nothing_listed_empty_report
        (tfidf : option nat -> list string -> result (list string * list (list R)))
        (fs : file_system) (root : string) :
  (forall folder,
     In folder WF_FOLDERS ->
     match fs (path_join root folder) with
     | None => True
     | Some entries => glob_txt entries = []
     end) ->
  load_workflows fs root = inr [] /\ analyze tfidf fs root = inr [].
Proof.
  intros H.
  assert (Hload : forall todo, incl todo WF_FOLDERS ->
                               load_folders fs root todo [] = inr []).
  { induction todo as [|f todo IH]; intros Hincl; [reflexivity|].
    cbn [load_folders]. pose proof (H f (Hincl f (or_introl eq_refl))) as Hf.
    assert (Hrest : incl todo WF_FOLDERS)
      by (intros x Hx; apply Hincl; right; exact Hx).
    destruct (fs (path_join root f)) as [entries|]; [|apply IH, Hrest].
    rewrite Hf. cbn [load_files]. apply IH, Hrest. }
  assert (Hw : load_workflows fs root = inr [])
    by (apply Hload, incl_refl).
  split; [exact Hw|]. unfold analyze. rewrite Hw. reflexivity.
Qed.

Lemma nothing_listed_empty_report_witness :
  load_workflows (Samples.dirs [("./mayowf", [("README.md", inr "notes")])]) "./"
  = inr [] /\
  analyze Samples.gerd_tfidf
          (Samples.dirs [("./mayowf", [("README.md", inr "notes")])]) "./"
  = inr [].
Proof.
  apply (nothing_listed_empty_report
           Samples.gerd_tfidf
           (Samples.dirs [("./mayowf", [("README.md", inr "notes")])]) "./").
  intros folder Hin. simpl in Hin.
  repeat (destruct Hin as [<-|Hin]; [reflexivity|]). contradiction.
Defined.

End Corpus_shape.

Section Report_shape.
Import Py Analyze_wfs.

Variable tfidf : option nat -> list string -> result (list string * list (list R)).

Lemma analyze_item_entry (workflows : dict string) (e : entry_t) :
  analyze_item tfidf workflows = Some (inr e) ->
  2 <= length workflows /\ sites e = keys workflows /\
  keys (unique_terms e) = keys workflows.
Proof.
  unfold analyze_item. destruct (length workflows <? 2)%nat eqn:El;
    [discriminate|].
  apply Nat.ltb_ge in El.
  destruct (compute_similarity tfidf workflows) as [x|[s m]] eqn:Ec;
    [discriminate|].
  destruct (find_unique_terms tfidf workflows) as [x|uniq] eqn:Eu;
    [discriminate|].
  intros H. inversion H; subst e. cbn [sites unique_terms].
  split; [exact El|]. split.
  - unfold compute_similarity in Ec.
    destruct (tfidf None (map preprocess (values workflows))) as [x|[t r]];
      [discriminate|].
    inversion Ec; reflexivity.
  - destruct (find_unique_terms_spec tfidf workflows uniq Eu)
      as [terms [rows [_ [Hk _]]]].
    exact Hk.
Qed.

Lemma analyze_items_entries (items : corpus) :
  forall report,
    analyze_items tfidf items = inr report ->
    Props.in_order (keys report) (keys items) /\
    forall d e, In (d, e) report ->
                exists workflows,
                  In (d, workflows) items /\
                  analyze_item tfidf workflows = Some (inr e).
Proof.
  induction items as [|[d0 wf] rest IH]; intros report.
  - intros H. inversion H; subst. split; [constructor | intros d e []].
  - rewrite analyze_items_step.
    destruct (analyze_item tfidf wf) as [[x|entry]|] eqn:E; [discriminate| |].
    + destruct (analyze_items tfidf rest) as [x|report'] eqn:Er;
        [discriminate|].
      intros H. inversion H; subst report.
      destruct (IH report' eq_refl) as [Ho Hin]. split.
      * cbn. apply Props.in_order_keep. exact Ho.
      * intros d e [Hde|Hde].
        -- inversion Hde; subst. exists wf. split; [left; reflexivity | exact E].
        -- destruct (Hin d e Hde) as [w [H1 H2]].
           exists w. split; [right; exact H1 | exact H2].
    + intros H. destruct (IH report H) as [Ho Hin]. split.
      * cbn. apply Props.in_order_skip. exact Ho.
      * intros d e Hde. destruct (Hin d e Hde) as [w [H1 H2]].
        exists w. split; [right; exact H1 | exact H2].
Qed.

(** X14.  In a report each disease appears once; its site list has at
    least two sources, in the order of the five folders, and its
    distinctive terms are listed for exactly those sources in that
    order. *)
Theorem report_shape (fs : file_system) (root : string)
        (report : dict entry_t) :
  analyze tfidf fs root = inr report ->
  NoDup (keys report) /\
  Forall (fun '(_, e) =>
            2 <= length (sites e) /\
            Props.in_order (sites e) WF_FOLDERS /\
            keys (unique_terms e) = sites e)
         report.
Proof.
  unfold analyze. destruct (load_workflows fs root) as [x|data] eqn:El;
    [discriminate|].
  intros H. destruct (load_workflows_loaded fs root data El) as [Hnd Hl].
  destruct (analyze_items_entries data report H) as [Ho Hin].
  split; [eapply in_order_unique; eassumption|].
  apply Forall_forall. intros [d e] Hde.
  destruct (Hin d e Hde) as [wf [Hwf He]].
  destruct (analyze_item_entry wf e He) as (H2 & Hs & Hu).
  destruct (Hl d wf (in_get_item d wf data Hnd Hwf)) as [_ Hord].
  rewrite Hs, Hu. unfold keys at 1. rewrite length_map.
  split; [exact H2|]. split; [exact Hord | reflexivity].
Qed.

(** X15.  A disease is in the report exactly when the loaded corpus has
    it with at least two sources. *)
Theorem report_omits_single_source (fs : file_system) (root : string)
        (data : corpus) (report : dict entry_t) :
  load_workflows fs root = inr data ->
  analyze tfidf fs root = inr report ->
  forall disease,
    get_item disease report <> None <->
    exists workflows,
      get_item disease data = Some workflows /\ 2 <= length workflows.
Proof.
  intros El. unfold analyze. rewrite El. intros H disease.
  destruct (load_workflows_loaded fs root data El) as [Hnd _].
  destruct (analyze_items_returns tfidf data report H) as [Hok Hget].
  rewrite (Hget Hnd disease).
  destruct (get_item disease data) as [wf|] eqn:Ew.
  - destruct (analyze_item tfidf wf) as [[x|e]|] eqn:Ea.
    + exfalso. apply (Hok disease wf x); [apply get_item_in, Ew | exact Ea].
    + destruct (analyze_item_entry wf e Ea) as (H2 & _).
      split; [intros _; exists wf; split; [reflexivity | exact H2]
             | discriminate].
    + split; [congruence|]. intros [w [Hw H2]]. inversion Hw; subst w.
      unfold analyze_item in Ea. apply Nat.ltb_ge in H2. rewrite H2 in Ea.
      discriminate.
  - split; [congruence|]. intros [w [Hw _]]. discriminate.
Qed.

End Report_shape.

Section Report_shape_witnesses.
Import Py Analyze_wfs.

Lemma report_shape_witness :
  NoDup
    (keys [("gerd",
            mkEntry ["mayowf"; "wikiwf"]
                    (cosine_similarity (map (map Q2R) [[1]; [1]]%Q))
                    [("mayowf", ["surgery"]); ("wikiwf", ["surgery"])])]) /\
  Forall (fun '(_, e) =>
            2 <= length (sites e) /\
            Props.in_order (sites e) WF_FOLDERS /\
            keys (unique_terms e) = sites e)
         [("gerd",
           mkEntry ["mayowf"; "wikiwf"]
                   (cosine_similarity (map (map Q2R) [[1]; [1]]%Q))
                   [("mayowf", ["surgery"]); ("wikiwf", ["surgery"])])].
Proof.
  apply (report_shape Samples.gerd_tfidf Samples.listing_a "./").
  exact analyze_listing_a.
Defined.

Lemma plain_report :
  analyze Samples.gerd_tfidf Samples.plain_a "./"
  = inr [("gerd",
          mkEntry ["mayowf"; "wikiwf"]
                  (cosine_similarity (map (map Q2R) [[1; 0]; [0; 1]]%Q))
                  [("mayowf", ["antacid"; "surgery"]);
                   ("wikiwf", ["surgery"; "antacid"])])].
Proof.
  unfold analyze.
  change (load_workflows Samples.plain_a "./")
    with (@inr exn corpus
            [("gerd", [("mayowf", "Antacid"); ("wikiwf", "Surgery")]);
             ("asthma", [("mayowf", "Inhaler")])]).
  cbv beta iota. rewrite analyze_items_step.
  assert (Hg : analyze_item Samples.gerd_tfidf
                 [("mayowf", "Antacid"); ("wikiwf", "Surgery")]
               = Some (inr (mkEntry
                              ["mayowf"; "wikiwf"]
                              (cosine_similarity
                                 (map (map Q2R) [[1; 0]; [0; 1]]%Q))
                              [("mayowf", ["antacid"; "surgery"]);
                               ("wikiwf", ["surgery"; "antacid"])]))).
  { unfold analyze_item. cbn [length Nat.ltb Nat.leb].
    unfold compute_similarity, find_unique_terms.
    rewrite values_preprocessed, keys_preprocessed.
    change (Samples.gerd_tfidf None _)
      with (@inr exn _ (["antacid"; "surgery"],
                        map (map Q2R) [[1; 0]; [0; 1]]%Q)).
    change (Samples.gerd_tfidf (Some 40) _)
      with (@inr exn _ (["antacid"; "surgery"],
                        map (map Q2R) [[1; 0]; [0; 1]]%Q)).
    cbv iota beta.
    change (keys [("mayowf", "Antacid"); ("wikiwf", "Surgery")])
      with ["mayowf"; "wikiwf"].
    cbn [unique_terms_from]. rewrite !nth_error_map.
    cbn [nth_error option_map]. rewrite !top_idxs_Q2R.
    vm_compute. reflexivity. }
  rewrite Hg. rewrite analyze_items_step.
  change (analyze_item Samples.gerd_tfidf [("mayowf", "Inhaler")])
    with (@None (result entry_t)).
  reflexivity.
Qed.

Lemma report_omits_single_source_witness :
  get_item "asthma"
    [("gerd",
      mkEntry ["mayowf"; "wikiwf"]
              (cosine_similarity (map (map Q2R) [[1; 0]; [0; 1]]%Q))
              [("mayowf", ["antacid"; "surgery"]);
               ("wikiwf", ["surgery"; "antacid"])])] <> None <->
  exists workflows,
    get_item "asthma"
      [("gerd", [("mayowf", "Antacid"); ("wikiwf", "Surgery")]);
       ("asthma", [("mayowf", "Inhaler")])] = Some workflows /\
    2 <= length workflows.
Proof.
  exact (report_omits_single_source
           Samples.gerd_tfidf Samples.plain_a "./"
           [("gerd", [("mayowf", "Antacid"); ("wikiwf", "Surgery")]);
            ("asthma", [("mayowf", "Inhaler")])]
           _ eq_refl plain_report "asthma").
Defined.

End Report_shape_witnesses.

Section Stored_text.
Import Py Analyze_wfs.

Lemma get_set_item {V : Type} (k k0 : string) (v : V) (d : dict V) :
  get_item k0 (set_item k v d)
  = if String.eqb k k0 then Some v else get_item k0 d.
Proof.
  destruct (String.eqb_spec k k0) as [<-|Hne].
  - apply get_set_same.
  - apply get_set_other. congruence.
Qed.

Lemma load_file_stored (folder name text d0 : string) (ds : list string)
      (data : corpus) :
  findall_wf name = d0 :: ds ->
  exists data',
    load_file folder data (name, inr text) = inr data' /\
    forall d f,
      Props.stored d f data' =
      if String.eqb d0 d
      then (if String.eqb folder f then Some text else Props.stored d f data)
      else Props.stored d f data.
Proof.
  intros E. destruct (load_file_lookup folder name text d0 ds data E)
    as [data' [Hl Hget]].
  exists data'. split; [exact Hl|]. intros d f. unfold Props.stored.
  rewrite Hget. destruct (String.eqb_spec d0 d) as [<-|Hne]; [|reflexivity].
  rewrite get_set_item. destruct (String.eqb folder f); [reflexivity|].
  destruct (get_item d0 data); reflexivity.
Qed.

Lemma load_files_other_ids (folder d : string) (files : directory) :
  forall data data',
    ~ In d (disease_ids files) ->
    load_files folder files data = inr data' ->
    forall f, Props.stored d f data' = Props.stored d f data.
Proof.
  induction files as [|entry rest IH]; intros data data' Hnot;
    cbn [load_files].
  - intros H. inversion H; subst. reflexivity.
  - destruct (load_file folder data entry) as [e|d1] eqn:Hl; [discriminate|].
    destruct (load_file_ok_shape folder data d1 entry Hl)
      as [name [text [d0 [ds [-> E]]]]].
    destruct (load_file_stored folder name text d0 ds data E)
      as [d1' [Hl' Hst]].
    rewrite Hl' in Hl. inversion Hl; subst d1'.
    intros H f.
    assert (Hne : d0 <> d).
    { intros ->. apply Hnot. unfold disease_ids. simpl. rewrite E.
      left. reflexivity. }
    rewrite (IH d1 data'); [| |exact H].
    + rewrite Hst. destruct (String.eqb_spec d0 d); [contradiction|].
      reflexivity.
    + intros Hin. apply Hnot. unfold disease_ids in *. simpl.
      apply in_or_app. right. exact Hin.
Qed.

Lemma load_files_split (folder : string) (pre post : directory)
      (x : string * result string) :
  forall data data',
    load_files folder (pre ++ x :: post) data = inr data' ->
    exists d1 d2,
      load_files folder pre data = inr d1 /\
      load_file folder d1 x = inr d2 /\
      load_files folder post d2 = inr data'.
Proof.
  induction pre as [|y pre IH]; intros data data'; cbn [app load_files].
  - destruct (load_file folder data x) as [e|d2] eqn:E; [discriminate|].
    intros H. exists data, d2. repeat split; assumption.
  - destruct (load_file folder data y) as [e|d0]; [discriminate|].
    apply IH.
Qed.

Lemma load_files_other_folder (folder f d text : string) (files : directory) :
  folder <> f ->
  forall data data',
    load_files folder files data = inr data' ->
    Props.stored d f data = Some text -> Props.stored d f data' = Some text.
Proof.
  intros Hne. induction files as [|entry rest IH]; intros data data';
    cbn [load_files].
  - intros H. inversion H; subst. trivial.
  - destruct (load_file folder data entry) as [e|d1] eqn:Hl; [discriminate|].
    destruct (load_file_ok_shape folder data d1 entry Hl)
      as [name [t [d0 [ds [-> E]]]]].
    destruct (load_file_stored folder name t d0 ds data E) as [d1' [Hl' Hst]].
    rewrite Hl' in Hl. inversion Hl; subst d1'.
    intros H Hs. apply (IH d1 data' H).
    rewrite Hst. destruct (String.eqb d0 d); [|exact Hs].
    destruct (String.eqb_spec folder f); [contradiction | exact Hs].
Qed.

Lemma load_folders_other_folders (fs : file_system) (root f d text : string)
      (todo : list string) :
  ~ In f todo ->
  forall data data',
    load_folders fs root todo data = inr data' ->
    Props.stored d f data = Some text -> Props.stored d f data' = Some text.
Proof.
  induction todo as [|g todo IH]; intros Hnot data data'; simpl.
  - intros H. inversion H; subst. trivial.
  - assert (Hg : g <> f) by (intros ->; apply Hnot; left; reflexivity).
    assert (Hrest : ~ In f todo) by (intros H; apply Hnot; right; exact H).
    destruct (fs (path_join root g)) as [entries|]; [|apply IH, Hrest].
    destruct (load_files g (glob_txt entries) data) as [e|d1] eqn:E;
      [discriminate|].
    intros H Hs. apply (IH Hrest d1 data' H).
    eapply load_files_other_folder; eassumption.
Qed.

Lemma load_files_last (folder name text d : string) (ds : list string)
      (pre post : directory) (data data' : corpus) :
  findall_wf name = d :: ds ->
  ~ In d (disease_ids post) ->
  load_files folder (pre ++ (name, inr text) :: post) data = inr data' ->
  Props.stored d folder data' = Some text.
Proof.
  intros E Hnot H.
  destruct (load_files_split folder pre post (name, inr text) data data' H)
    as [d1 [d2 [_ [H2 H3]]]].
  rewrite (load_files_other_ids folder d post d2 data' Hnot H3).
  destruct (load_file_stored folder name text d ds d1 E) as [x [Hx Hst]].
  rewrite Hx in H2. inversion H2; subst x.
  rewrite Hst, !String.eqb_refl. reflexivity.
Qed.

Lemma load_folders_last (fs : file_system) (root f name text d : string)
      (ds : list string) (entries pre post : directory)
      (todo : list string) :
  fs (path_join root f) = Some entries ->
  glob_txt entries = pre ++ (name, inr text) :: post ->
  findall_wf name = d :: ds ->
  ~ In d (disease_ids post) ->
  NoDup todo -> In f todo ->
  forall data data',
    load_folders fs root todo data = inr data' ->
    Props.stored d f data' = Some text.
Proof.
  intros Hdir Hglob E Hnot.
  induction todo as [|g todo IH]; intros Hnd Hin data data'; [contradiction|].
  inversion Hnd as [|? ? Hg Hnd']; subst. simpl.
  destruct Hin as [->|Hin].
  - rewrite Hdir, Hglob.
    destruct (load_files f (pre ++ (name, inr text) :: post) data)
      as [e|d1] eqn:El;
      [discriminate|].
    intros H. eapply load_folders_other_folders; [exact Hg | exact H|].
    eapply load_files_last; eassumption.
  - destruct (fs (path_join root g)) as [entries'|]; [|apply IH; assumption].
    destruct (load_files g (glob_txt entries') data) as [e|d1];
      [discriminate|].
    apply IH; assumption.
Qed.

(** X13.  After a successful load the text stored for a disease and a
    source folder is that of the last file the folder lists for the
    disease. *)
Theorem last_listed_file_is_stored
        (fs : file_system) (root folder name text disease : string)
        (ds : list string) (entries pre post : directory) (data : corpus) :
  In folder WF_FOLDERS ->
  fs (path_join root folder) = Some entries ->
  glob_txt entries = pre ++ (name, inr text) :: post ->
  findall_wf name = disease :: ds ->
  ~ In disease (disease_ids post) ->
  load_workflows fs root = inr data ->
  exists workflows,
    get_item disease data = Some workflows /\
    get_item folder workflows = Some text.
Proof.
  intros Hin Hdir Hglob E Hnot Hload.
  assert (Hs : Props.stored disease folder data = Some text).
  { eapply (load_folders_last fs root folder name text disease ds
              entries pre post WF_FOLDERS); try eassumption.
    unfold WF_FOLDERS. repeat constructor; simpl; intuition discriminate. }
  unfold Props.stored in Hs.
  destruct (get_item disease data) as [wf|]; [|discriminate].
  exists wf. split; [reflexivity | exact Hs].
Qed.

Lemma last_listed_file_is_stored_witness :
  exists workflows,
    get_item "gerd"
      [("gerd", [("mayowf", "Surgery"); ("wikiwf", "Surgery")])]
    = Some workflows /\
    get_item "mayowf" workflows = Some "Surgery".
Proof.
  apply (last_listed_file_is_stored
           Samples.listing_a "./" "mayowf" "wf_gerd_mayo_old.txt" "Surgery"
           "gerd" []
           [("wf_gerd_mayo.txt", inr "Antacid");
            ("wf_gerd_mayo_old.txt", inr "Surgery")]
           [("wf_gerd_mayo.txt", inr "Antacid")] []).
  - simpl. tauto.
  - reflexivity.
  - reflexivity.
  - reflexivity.
  - simpl. tauto.
  - reflexivity.
Defined.

Lemma lazy_group_plain (d rest : string) :
  Props.plain_id d = true ->
  lazy_group (d ++ String "_"%char rest) = Some d.
Proof.
  induction d as [|c d IH]; simpl; [reflexivity|]. intros H.
  apply andb_prop in H. destruct H as [H Hd]. apply andb_prop in H.
  destruct H as [H1 H2]. apply negb_true_iff in H1, H2.
  rewrite H1, H2, (IH Hd). reflexivity.
Qed.

Lemma ends_with_txt_append (s : string) : ends_with_txt (s ++ ".txt") = true.
Proof.
  induction s as [|c s IH]; [reflexivity|].
  change ((String c s ++ ".txt")%string) with (String c (s ++ ".txt")).
  cbn [ends_with_txt]. rewrite IH. apply orb_true_r.
Qed.

(** X16.  The file name under which [structural_analysis] looks for a
    workflow, [wf_<disease>_<suffix>.txt] with a disease id free of
    underscores and newlines, is one that [load_workflows] lists and keys
    by that same disease; the twenty disease ids of the list are of that
    kind. *)
Theorem expected_name_is_keyed (disease suffix : string)
        (content : result string) :
  Props.plain_id disease = true ->
  glob_txt [(("wf_" ++ disease ++ "_" ++ suffix ++ ".txt")%string, content)]
  = [(("wf_" ++ disease ++ "_" ++ suffix ++ ".txt")%string, content)] /\
  first_item (findall_wf ("wf_" ++ disease ++ "_" ++ suffix ++ ".txt"))
  = inr disease /\
  forallb Props.plain_id Str_wfs.DISEASE_LIST = true.
Proof.
  intros Hp. split; [|split; [|reflexivity]].
  - unfold glob_txt. cbn [filter].
    replace ("wf_" ++ disease ++ "_" ++ suffix ++ ".txt")%string
      with (("wf_" ++ disease ++ "_" ++ suffix) ++ ".txt")%string
      by (rewrite !append_assoc; reflexivity).
    rewrite ends_with_txt_append. reflexivity.
  - unfold findall_wf.
    change ("wf_" ++ disease ++ "_" ++ suffix ++ ".txt")%string
      with (String "w" ("f_" ++ disease ++ "_" ++ suffix ++ ".txt")).
    cbn [findall_from].
    change (String "w" ("f_" ++ disease ++ "_" ++ suffix ++ ".txt"))
      with ("wf_" ++ (disease ++ String "_"%char (suffix ++ ".txt")))%string.
    rewrite match_wf_head, (lazy_group_plain _ _ Hp). reflexivity.
Qed.

Lemma expected_name_is_keyed_witness :
  glob_txt [(("wf_" ++ "asthma" ++ "_" ++ "mayo" ++ ".txt")%string,
             inr "1. x")]
  = [(("wf_" ++ "asthma" ++ "_" ++ "mayo" ++ ".txt")%string, inr "1. x")] /\
  first_item (findall_wf ("wf_" ++ "asthma" ++ "_" ++ "mayo" ++ ".txt"))
  = inr "asthma" /\
  forallb Props.plain_id Str_wfs.DISEASE_LIST = true.
Proof.
  apply (expected_name_is_keyed "asthma" "mayo" (inr "1. x")). reflexivity.
Defined.

End Stored_text.

(** * Further properties of the text normaliser *)

Section Normaliser_twice.
Import Py Analyze_wfs.

Lemma lower_char_classes (c : ascii) :
  is_digit (lower_char c) = is_digit c /\
  is_enum_mark (lower_char c) = is_enum_mark c /\
  lower_char (lower_char c) = lower_char c.
Proof.
  destruct c as [[] [] [] [] [] [] [] []]; repeat split.
Qed.

Lemma lower_twice (s : string) : lower (lower s) = lower s.
Proof.
  induction s as [|c s IH]; simpl; [reflexivity|].
  rewrite IH. destruct (lower_char_classes c) as (_ & _ & ->). reflexivity.
Qed.

Lemma lower_length (s : string) : String.length (lower s) = String.length s.
Proof. induction s as [|c s IH]; simpl; [reflexivity | now rewrite IH]. Qed.

Lemma span_digits_lower (s : string) :
  span_digits (lower s)
  = (lower (fst (span_digits s)), lower (snd (span_digits s))).
Proof.
  induction s as [|c s IH]; [reflexivity|]. cbn [lower span_digits].
  destruct (lower_char_classes c) as (-> & _ & _).
  destruct (is_digit c); [|reflexivity].
  rewrite IH. destruct (span_digits s) as [d rest]. reflexivity.
Qed.

Lemma match_enum_lower (s : string) : match_enum (lower s) = match_enum s.
Proof.
  unfold match_enum. rewrite span_digits_lower.
  destruct (span_digits s) as [d rest]. cbn [fst snd].
  destruct d as [|c d]; [reflexivity|].
  destruct rest as [|m rest]; [reflexivity|]. cbn [lower].
  destruct (lower_char_classes m) as (_ & -> & _).
  change (String (lower_char c) (lower d)) with (lower (String c d)).
  rewrite lower_length. reflexivity.
Qed.

Lemma sub_from_lower (s : string) :
  forall k, sub_from k (lower s) = lower (sub_from k s).
Proof.
  induction s as [|c s IH]; intros k; [reflexivity|].
  change (lower (String c s)) with (String (lower_char c) (lower s)).
  cbn [sub_from]. destruct k as [|k]; [|apply IH].
  change (String (lower_char c) (lower s)) with (lower (String c s)).
  rewrite match_enum_lower.
  destruct (match_enum (String c s)) as [[|k]|]; cbn [lower];
    rewrite IH; reflexivity.
Qed.

Lemma sub_from_length (s : string) :
  forall k, String.length (sub_from k s) <= String.length s.
Proof.
  induction s as [|c s IH]; intros k; [simpl; lia|].
  cbn [sub_from]. destruct k as [|k].
  - destruct (match_enum (String c s)) as [[|k]|]; cbn [String.length];
      [specialize (IH 0) | specialize (IH k) | specialize (IH 0)]; lia.
  - specialize (IH k). cbn [String.length]. lia.
Qed.

Lemma span_digits_append (s : string) :
  s = (fst (span_digits s) ++ snd (span_digits s))%string.
Proof.
  induction s as [|c s IH]; [reflexivity|]. cbn [span_digits].
  destruct (is_digit c); [|reflexivity].
  destruct (span_digits s) as [d rest]. cbn [fst snd] in *.
  simpl. rewrite <- IH. reflexivity.
Qed.

Lemma span_digits_rest (s : string) :
  match snd (span_digits s) with
  | EmptyString => True
  | String c _ => is_digit c = false
  end.
Proof.
  induction s as [|c s IH]; [exact I|]. cbn [span_digits].
  destruct (is_digit c) eqn:E; [|exact E].
  destruct (span_digits s) as [d rest]. exact IH.
Qed.

(** A text is empty, starts with a character that is no digit, or
    starts with a run of digits that a mark follows or not. *)
Lemma text_cases (s : string) :
  s = EmptyString \/
  (exists c r, s = String c r /\ is_digit c = false) \/
  (exists d rest,
     s = (d ++ rest)%string /\ all_digits d = true /\ d <> EmptyString /\
     (bare_end rest = true \/
      exists m rest', rest = String m rest' /\ is_enum_mark m = true)).
Proof.
  destruct s as [|c r]; [left; reflexivity|]. right.
  destruct (is_digit c) eqn:Ec; [right | left; exists c, r; tauto].
  pose proof (span_digits_append (String c r)) as Happ.
  pose proof (span_digits_all (String c r)) as Hall.
  pose proof (span_digits_rest (String c r)) as Hrest.
  destruct (span_digits (String c r)) as [d rest] eqn:E. cbn [fst snd] in *.
  exists d, rest. split; [exact Happ|]. split; [exact Hall|]. split.
  - intros ->. cbn [span_digits] in E. rewrite Ec in E.
    destruct (span_digits r). discriminate.
  - destruct rest as [|m rest']; [left; reflexivity|].
    destruct (is_enum_mark m) eqn:Em.
    + right. exists m, rest'. split; reflexivity || exact Em.
    + left. simpl. rewrite Hrest, Em. reflexivity.
Qed.

Lemma re_sub_enum_twice_bounded (n : nat) :
  forall s, String.length s <= n ->
            re_sub_enum (re_sub_enum s) = re_sub_enum s.
Proof.
  induction n as [|n IH]; intros s Hn.
  - destruct s; [reflexivity | simpl in Hn; lia].
  - destruct (text_cases s)
      as [->|[[c [r [-> Hc]]]|[d [rest [-> [Hd [Hne Hrest]]]]]]].
    + reflexivity.
    + rewrite (sub_nondigit c r Hc), (sub_nondigit c _ Hc), IH;
        [reflexivity | simpl in Hn; lia].
    + assert (Hlen : String.length rest <= n).
      { rewrite length_append in Hn. destruct d; [contradiction|].
        simpl in Hn. lia. }
      destruct Hrest as [Hbare|[m [rest' [-> Hm]]]].
      * rewrite (sub_bare d rest Hd Hbare).
        assert (Hb : bare_end (re_sub_enum rest) = true).
        { destruct rest as [|c r]; [reflexivity|]. simpl in Hbare.
          apply andb_prop in Hbare. destruct Hbare as [Hc Hmk].
          apply negb_true_iff in Hc.
          rewrite (sub_nondigit c r Hc). simpl. rewrite Hc, Hmk. reflexivity. }
        rewrite (sub_bare d _ Hd Hb), (IH rest Hlen). reflexivity.
      * rewrite (sub_enumerator d m rest' Hd Hne Hm).
        rewrite (sub_nondigit " "%char _ eq_refl), IH;
          [reflexivity | simpl in Hlen; lia].
Qed.

Lemma lower_char_ascii (c : ascii) :
  (nat_of_ascii c <? 128)%nat = true ->
  (nat_of_ascii (lower_char c) <? 128)%nat = true.
Proof.
  destruct c as [[] [] [] [] [] [] [] []]; intros H;
    try reflexivity; vm_compute in H; discriminate.
Qed.

Lemma lower_ascii (s : string) : is_ascii s = true -> is_ascii (lower s) = true.
Proof.
  induction s as [|c s IH]; [trivial|]. cbn [is_ascii lower]. intros H.
  apply andb_prop in H. destruct H as [Hc Hs].
  rewrite (lower_char_ascii c Hc), (IH Hs). reflexivity.
Qed.

Lemma sub_from_ascii (s : string) :
  is_ascii s = true -> forall k, is_ascii (sub_from k s) = true.
Proof.
  induction s as [|c s IH]; intros H k; [reflexivity|].
  cbn [is_ascii] in H. apply andb_prop in H. destruct H as [Hc Hs].
  cbn [sub_from]. destruct k as [|k]; [|apply IH, Hs].
  destruct (match_enum (String c s)) as [[|k]|]; cbn [is_ascii];
    rewrite ?Hc, (IH Hs); reflexivity.
Qed.

(** X17.  On ASCII text the normalised text is ASCII again, normalising
    it a second time changes nothing, and it is never longer than the
    text. *)
Theorem preprocess_idempotent (text : string) :
  is_ascii text = true ->
  is_ascii (preprocess text) = true /\
  preprocess (preprocess text) = preprocess text /\
  String.length (preprocess text) <= String.length text.
Proof.
  intros Hascii. unfold preprocess, re_sub_enum. split; [|split].
  - apply lower_ascii, sub_from_ascii, Hascii.
  - rewrite sub_from_lower, lower_twice.
    fold (re_sub_enum text). fold (re_sub_enum (re_sub_enum text)).
    rewrite (re_sub_enum_twice_bounded (String.length text) text (le_n _)).
    reflexivity.
  - rewrite lower_length. apply sub_from_length.
Qed.

Lemma preprocess_idempotent_witness :
  is_ascii (preprocess "1. Rest 2) Take 2 Pills") = true /\
  preprocess (preprocess "1. Rest 2) Take 2 Pills")
  = preprocess "1. Rest 2) Take 2 Pills" /\
  String.length (preprocess "1. Rest 2) Take 2 Pills")
  <= String.length "1. Rest 2) Take 2 Pills".
Proof.
  apply (preprocess_idempotent "1. Rest 2) Take 2 Pills"). reflexivity.
Defined.

End Normaliser_twice.

(** * Further properties of the extractor *)

Section Extractor_total.
Import Py Analyze_wfs.

Lemma skipn_in {A : Type} (n : nat) (l : list A) (x : A) :
  In x (skipn n l) -> In x l.
Proof.
  intros H. rewrite <- (firstn_skipn n l). apply in_or_app. right. exact H.
Qed.

Lemma skipn_unique {A : Type} (n : nat) (l : list A) :
  NoDup l -> NoDup (skipn n l).
Proof.
  intros H. rewrite <- (firstn_skipn n l) in H.
  eapply NoDup_app_remove_l, H.
Qed.

Lemma top_idxs_range (row : list R) (j : nat) :
  In j (top_idxs row) -> j < length row.
Proof.
  unfold top_idxs, Np.last_n. intros H. apply in_rev, skipn_in in H.
  apply (Permutation_in _ (argsort_perm Rltb row)) in H.
  apply in_seq in H. lia.
Qed.

Lemma top_idxs_unique (row : list R) : NoDup (top_idxs row).
Proof.
  unfold top_idxs, Np.last_n. apply NoDup_rev, skipn_unique.
  eapply Permutation_NoDup;
    [apply Permutation_sym, (argsort_perm Rltb row) | apply seq_NoDup].
Qed.

Lemma index_all_total (terms : list string) (idxs : list nat) :
  Forall (fun j => j < length terms) idxs ->
  exists top, index_all terms idxs = inr top.
Proof.
  induction 1 as [|j rest Hj _ [top IH]]; simpl.
  - exists []. reflexivity.
  - destruct (nth_error terms j) as [t|] eqn:Et;
      [|apply nth_error_None in Et; lia].
    rewrite IH. exists (t :: top). reflexivity.
Qed.

Lemma unique_terms_from_total (terms : list string) (rows : list (list R))
      (site_list : list string) :
  Forall (fun row => length row <= length terms) rows ->
  forall i, i + length site_list <= length rows ->
            exists out, unique_terms_from terms rows i site_list = inr out.
Proof.
  intros Hrows. induction site_list as [|s rest IH]; intros i Hi; simpl.
  - exists []. reflexivity.
  - simpl in Hi. destruct (nth_error rows i) as [row|] eqn:Er;
      [|apply nth_error_None in Er; lia].
    assert (Hrow : length row <= length terms).
    { rewrite Forall_forall in Hrows. apply Hrows.
      eapply nth_error_In, Er. }
    destruct (index_all_total terms (top_idxs row)) as [top Ht].
    { apply Forall_forall. intros j Hj. apply top_idxs_range in Hj. lia. }
    rewrite Ht. destruct (IH (S i)) as [out Ho]; [lia|].
    rewrite Ho. exists ((s, top) :: out). reflexivity.
Qed.

Lemma picked_terms (terms : list string) (idxs : list nat)
      (top : list string) :
  Forall2 (fun j t => nth_error terms j = Some t) idxs top ->
  (forall t, In t top -> In t terms) /\
  (NoDup terms -> NoDup idxs -> NoDup top).
Proof.
  induction 1 as [|j t idxs top Hjt HF [IHin IHnd]].
  - split; [intros t [] | intros _ _; constructor].
  - split.
    + intros t' [<-|Hin]; [eapply nth_error_In, Hjt | apply IHin, Hin].
    + intros Hterms Hidxs. inversion Hidxs as [|? ? Hnot Hidxs']; subst.
      constructor; [|apply IHnd; assumption].
      intros Hin. apply Hnot. clear - HF Hin Hjt Hterms.
      induction HF as [|j' t' idxs top Hj' _ IH]; [contradiction|].
      destruct Hin as [->|Hin]; [|right; apply IH, Hin].
      left. symmetry.
      apply (proj1 (NoDup_nth_error terms) Hterms j j');
        [apply nth_error_Some; congruence | congruence].
Qed.

(** X18.  When the vectoriser returns at least one row per document and
    no row longer than the vocabulary, [find_unique_terms] returns; the
    terms it lists for a source are terms of the vocabulary, and no term
    is listed twice for a source when the vocabulary has no duplicate. *)
Theorem unique_terms_returned
        (tfidf : option nat -> list string -> result (list string * list (list R)))
        (workflows : dict string) (terms : list string)
        (rows : list (list R)) :
  tfidf (Some 40) (map preprocess (values workflows)) = inr (terms, rows) ->
  length workflows <= length rows ->
  Forall (fun row => length row <= length terms) rows ->
  exists out,
    find_unique_terms tfidf workflows = inr out /\
    forall k site top,
      nth_error out k = Some (site, top) ->
      (forall t, In t top -> In t terms) /\ (NoDup terms -> NoDup top).
Proof.
  intros Ht Hlen Hrows.
  assert (Hex : exists out, find_unique_terms tfidf workflows = inr out).
  { unfold find_unique_terms.
    rewrite values_preprocessed, keys_preprocessed, Ht.
    apply unique_terms_from_total; [exact Hrows|].
    unfold keys. rewrite length_map. simpl. exact Hlen. }
  destruct Hex as [out Hout]. exists out. split; [exact Hout|].
  destruct (find_unique_terms_spec tfidf workflows out Hout)
    as [terms' [rows' [Ht' [_ Hspec]]]].
  rewrite Ht in Ht'. inversion Ht'; subst terms' rows'.
  intros k site top Hk. destruct (Hspec k site top Hk) as [row [_ Hidx]].
  apply index_all_spec, picked_terms in Hidx. destruct Hidx as [H1 H2].
  split; [exact H1|]. intros Hnd. apply H2; [exact Hnd|].
  apply top_idxs_unique.
Qed.

Lemma unique_terms_returned_witness :
  exists out,
    find_unique_terms Samples.twelve_tfidf Samples.twelve_workflows = inr out /\
    forall k site top,
      nth_error out k = Some (site, top) ->
      (forall t, In t top -> In t Samples.twelve_terms) /\
      (NoDup Samples.twelve_terms -> NoDup top).
Proof.
  apply (unique_terms_returned
           Samples.twelve_tfidf Samples.twelve_workflows Samples.twelve_terms
           [map Q2R Samples.first_weights; map Q2R Samples.second_weights]).
  - reflexivity.
  - simpl. lia.
  - repeat constructor; rewrite length_map; simpl; lia.
Defined.

End Extractor_total.


(** * The order of the listed terms *)

Section Term_order.
Import Py Analyze_wfs.

Lemma Rltb_asym (a b : R) : Rltb a b = true -> Rltb b a = false.
Proof.
  unfold Rltb. destruct (Rlt_dec a b), (Rlt_dec b a); try reflexivity;
    try discriminate. lra.
Qed.

Lemma Rltb_not_trans (a b c : R) :
  Rltb a b = false -> Rltb b c = false -> Rltb a c = false.
Proof.
  unfold Rltb. destruct (Rlt_dec a b), (Rlt_dec b c), (Rlt_dec a c);
    try reflexivity; try discriminate. lra.
Qed.

(** The insertion loop returns one of the admissible results. *)
Lemma argsort_is_argsort (row : list R) :
  Props.is_argsort Rltb row (Np.argsort Rltb row).
Proof.
  split; [apply argsort_perm|]. unfold Np.argsort.
  apply sorted_rev, (insertion_descending Rltb Rltb_asym Rltb_not_trans).
Qed.

Lemma sorted_skipn {A : Type} (R : A -> A -> Prop) (n : nat) (l : list A) :
  StronglySorted R l -> StronglySorted R (skipn n l).
Proof.
  revert l. induction n as [|n IH]; intros l H; [exact H|].
  destruct l as [|a l]; [constructor|].
  apply StronglySorted_inv in H. apply IH, H.
Qed.

Lemma sorted_in {A : Type} (R R' : A -> A -> Prop) (l : list A) :
  (forall x y, In x l -> In y l -> R x y -> R' x y) ->
  StronglySorted R l -> StronglySorted R' l.
Proof.
  intros H Hs. rewrite <- (map_id l). apply (sorted_map_in R R' (fun x => x)).
  - exact H.
  - exact Hs.
Qed.

(** Whatever order the sort leaves equal weights in, the selection
    [p[-10:][::-1]] runs through weights that do not increase. *)
Lemma selection_descending (row : list R) (p : list nat) :
  Props.is_argsort Rltb row p ->
  StronglySorted (fun i j => (weight row j <= weight row i)%R)
                 (rev (Np.last_n 10 p)).
Proof.
  intros [Hp Hs]. unfold Np.last_n.
  apply (sorted_in (fun i j => Props.not_below Rltb row i j)).
  - intros x y Hx Hy Hxy.
    assert (Hrange : forall z, In z (rev (skipn (length p - 10) p)) ->
                               z < length row).
    { intros z Hz. apply in_rev, skipn_in in Hz.
      apply (Permutation_in _ Hp), in_seq in Hz. lia. }
    destruct (nth_error row x) as [a|] eqn:Ea;
      [|apply nth_error_None in Ea; specialize (Hrange x Hx); lia].
    destruct (nth_error row y) as [b|] eqn:Eb;
      [|apply nth_error_None in Eb; specialize (Hrange y Hy); lia].
    rewrite (weight_nth_error row x a Ea), (weight_nth_error row y b Eb).
    apply Rltb_false, (Hxy a b Ea Eb).
  - apply (sorted_rev (fun i j => Props.not_below Rltb row j i)).
    apply sorted_skipn, Hs.
Qed.

(** C7, as the code has it.  The terms of a source are those at the
    indices [top_idxs] of its term vector, in that order, and the weights
    along them do not increase; this holds for the result of the
    insertion loop and for every other result the sort may return.  Which
    of two terms of equal weight comes first is not fixed by the order of
    the vocabulary. *)
Theorem unique_terms_order
        (tfidf : option nat -> list string -> result (list string * list (list R)))
        (workflows : dict string) (out : dict (list string)) :
  find_unique_terms tfidf workflows = inr out ->
  exists terms rows,
    tfidf (Some 40) (map preprocess (values workflows)) = inr (terms, rows) /\
    forall k site top,
      nth_error out k = Some (site, top) ->
      exists row,
        nth_error rows k = Some row /\
        Forall2 (fun j t => nth_error terms j = Some t) (top_idxs row) top /\
        StronglySorted (fun i j => (weight row j <= weight row i)%R)
                       (top_idxs row) /\
        forall p,
          Props.is_argsort Rltb row p ->
          StronglySorted (fun i j => (weight row j <= weight row i)%R)
                         (rev (Np.last_n 10 p)).
Proof.
  intros H. destruct (find_unique_terms_spec tfidf workflows out H)
    as [terms [rows [Ht [_ Hrows]]]].
  exists terms, rows. split; [exact Ht|].
  intros k site top Hnth. destruct (Hrows k site top Hnth) as [row [H1 H2]].
  exists row. split; [exact H1|]. split; [apply index_all_spec, H2|].
  split; [|apply selection_descending].
  apply (selection_descending row (Np.argsort Rltb row)), argsort_is_argsort.
Qed.

Lemma unique_terms_order_witness :
  exists terms rows,
    Samples.twelve_tfidf (Some 40)
      (map preprocess (values Samples.twelve_workflows)) = inr (terms, rows) /\
    forall k site top,
      nth_error
        [("mayowf",
          ["cream"; "aspirin"; "ointment"; "water"; "surgery"; "steroids";
           "sleep"; "inhaler"; "fluids"; "exercise"]);
         ("wikiwf",
          ["water"; "surgery"; "steroids"; "sleep"; "inhaler"; "fluids";
           "exercise"; "diet"; "ablation"; "ointment"])] k
      = Some (site, top) ->
      exists row,
        nth_error rows k = Some row /\
        Forall2 (fun j t => nth_error terms j = Some t) (top_idxs row) top /\
        StronglySorted (fun i j => (weight row j <= weight row i)%R)
                       (top_idxs row) /\
        forall p,
          Props.is_argsort Rltb row p ->
          StronglySorted (fun i j => (weight row j <= weight row i)%R)
                         (rev (Np.last_n 10 p)).
Proof.
  apply (unique_terms_order Samples.twelve_tfidf Samples.twelve_workflows).
  exact twelve_unique_terms.
Defined.

End Term_order.

(** * Detection after a numbered step, dominant terms, failing vectoriser *)

Section Detection.
Import Py Str_wfs.

Local Open Scope Z_scope.

Lemma scan_line_major_grows (st : scan) (line : string) :
  major_steps st <= major_steps (scan_line st line) /\
  (major_step_re line <> None ->
   major_steps (scan_line st line) = major_steps st + 1).
Proof.
  destruct (scan_line_fields st line) as (Fm & _ & _). rewrite Fm.
  destruct (major_step_re line); split; try lia; congruence.
Qed.

Lemma scan_lines_major_grows (lines : list string) :
  forall st, major_steps st <= major_steps (scan_lines lines st).
Proof.
  induction lines as [|l ls IH]; intros st; [simpl; lia|].
  cbn [scan_lines fold_left].
  destruct (scan_line_major_grows st l) as [H _].
  specialize (IH (scan_line st l)). unfold scan_lines in IH. lia.
Qed.

Lemma scan_lines_major_seen (lines : list string) (l : string) :
  In l lines -> major_step_re l <> None ->
  forall st, major_steps st + 1 <= major_steps (scan_lines lines st).
Proof.
  intros Hin Hl. induction lines as [|x ls IH]; intros st; [contradiction|].
  cbn [scan_lines fold_left].
  pose proof (scan_lines_major_grows ls (scan_line st x)) as Hg.
  unfold scan_lines in Hg.
  destruct (scan_line_major_grows st x) as [H1 H2].
  destruct Hin as [->|Hin].
  - specialize (H2 Hl). lia.
  - specialize (IH Hin (scan_line st x)). unfold scan_lines in IH. lia.
Qed.

Lemma scan_lines_app (a b : list string) (st : scan) :
  scan_lines (a ++ b) st = scan_lines b (scan_lines a st).
Proof. unfold scan_lines. apply fold_left_app. Qed.

(** X21.  A keyword on a line that is a major step, or that comes after
    one, always yields an intervention position. *)
Theorem keyword_after_step_is_found
        (text line step : string) (before after : list string) :
  split_lines (strip text) = before ++ line :: after ->
  has_keyword (lower line) = true ->
  In step (before ++ [line]) -> major_step_re step <> None ->
  snd (analyze_workflow text) <> None.
Proof.
  intros Hsplit Hkw Hin Hstep. unfold analyze_workflow. cbn [snd].
  rewrite Hsplit.
  replace (before ++ line :: after) with ((before ++ [line]) ++ after)
    by (rewrite <- app_assoc; reflexivity).
  rewrite scan_lines_app.
  pose proof (scan_lines_major_seen (before ++ [line]) step Hin Hstep scan0)
    as Hmajor.
  rewrite scan_lines_app in *. cbn [scan_lines fold_left] in *.
  fold (scan_lines before scan0) in *.
  set (st := scan_lines before scan0) in *.
  assert (Hpos : intervention_step_position (scan_line st line) <> None).
  { rewrite scan_line_position, Hkw.
    destruct (intervention_step_position st); [discriminate|].
    destruct (0 <? current_major_step (scan_line st line)); [discriminate|].
    destruct (0 <? major_steps (scan_line st line)) eqn:E; [discriminate|].
    apply Z.ltb_ge in E. simpl in Hmajor. lia. }
  destruct (intervention_step_position (scan_line st line)) as [p|] eqn:Ep;
    [|contradiction].
  fold (scan_lines after (scan_line st line)).
  rewrite (position_kept_lines after _ p Ep). discriminate.
Qed.

Lemma keyword_after_step_is_found_witness :
  snd (analyze_workflow ("1. Rest" ++ nl ++ "then consider surgery")) <> None.
Proof.
  apply (keyword_after_step_is_found
           ("1. Rest" ++ nl ++ "then consider surgery")
           "then consider surgery" "1. Rest" ["1. Rest"] []).
  - reflexivity.
  - reflexivity.
  - simpl. tauto.
  - discriminate.
Defined.

End Detection.

Section Dominant_terms.
Import Py Analyze_wfs.

Lemma sorted_app_rel {A : Type} (R : A -> A -> Prop) (l1 l2 : list A)
      (a b : A) :
  StronglySorted R (l1 ++ l2) -> In a l1 -> In b l2 -> R a b.
Proof.
  induction l1 as [|x l1 IH]; intros Hs Ha Hb; [contradiction|].
  simpl in Hs. apply StronglySorted_inv in Hs. destruct Hs as [Hs Hx].
  destruct Ha as [->|Ha]; [|apply IH; assumption].
  rewrite Forall_forall in Hx. apply Hx, in_or_app. right. exact Hb.
Qed.

Lemma top_idxs_dominate (row : list R) (i j : nat) :
  In i (top_idxs row) -> j < length row -> ~ In j (top_idxs row) ->
  (weight row j <= weight row i)%R.
Proof.
  unfold top_idxs, Np.last_n, Np.argsort.
  set (rp := Np.insertion_pass Rltb row row 0 []).
  rewrite skipn_rev, rev_involutive, length_rev.
  set (m := length rp - (length rp - 10)). intros Hi Hj Hnot.
  assert (Hs : StronglySorted (ranked_before row) rp)
    by (apply insertion_pass_sorted; [reflexivity | constructor | constructor]).
  assert (Hin : In j rp).
  { pose proof (insertion_pass_perm Rltb row row 0 []) as Hp.
    rewrite app_nil_r in Hp.
    apply (Permutation_in _ (Permutation_sym Hp)), in_seq. lia. }
  rewrite <- (firstn_skipn m rp) in Hs, Hin.
  apply in_app_or in Hin. destruct Hin as [Hin|Hin]; [contradiction|].
  destruct (sorted_app_rel _ _ _ i j Hs Hi Hin) as [H|[H _]]; lra.
Qed.

(** X22.  The vocabulary terms that are not listed for a source weigh
    no more, in its term vector, than each of the terms listed for
    it. *)
Theorem listed_terms_dominate
        (tfidf : option nat -> list string -> result (list string * list (list R)))
        (workflows : dict string) (out : dict (list string)) :
  find_unique_terms tfidf workflows = inr out ->
  exists terms rows,
    tfidf (Some 40) (map preprocess (values workflows)) = inr (terms, rows) /\
    forall k site top,
      nth_error out k = Some (site, top) ->
      exists row,
        nth_error rows k = Some row /\
        Forall2 (fun j t => nth_error terms j = Some t) (top_idxs row) top /\
        forall i j,
          In i (top_idxs row) -> j < length row -> ~ In j (top_idxs row) ->
          (weight row j <= weight row i)%R.
Proof.
  intros H. destruct (find_unique_terms_spec tfidf workflows out H)
    as [terms [rows [Ht [_ Hrows]]]].
  exists terms, rows. split; [exact Ht|].
  intros k site top Hnth. destruct (Hrows k site top Hnth) as [row [H1 H2]].
  exists row. split; [exact H1|]. split; [apply index_all_spec, H2|].
  intros i j. apply top_idxs_dominate.
Qed.

Lemma listed_terms_dominate_witness :
  exists terms rows,
    Samples.twelve_tfidf (Some 40)
      (map preprocess (values Samples.twelve_workflows)) = inr (terms, rows) /\
    forall k site top,
      nth_error
        [("mayowf",
          ["cream"; "aspirin"; "ointment"; "water"; "surgery"; "steroids";
           "sleep"; "inhaler"; "fluids"; "exercise"]);
         ("wikiwf",
          ["water"; "surgery"; "steroids"; "sleep"; "inhaler"; "fluids";
           "exercise"; "diet"; "ablation"; "ointment"])] k
      = Some (site, top) ->
      exists row,
        nth_error rows k = Some row /\
        Forall2 (fun j t => nth_error terms j = Some t) (top_idxs row) top /\
        forall i j,
          In i (top_idxs row) -> j < length row -> ~ In j (top_idxs row) ->
          (weight row j <= weight row i)%R.
Proof.
  apply (listed_terms_dominate Samples.twelve_tfidf Samples.twelve_workflows).
  exact twelve_unique_terms.
Defined.

(** X23.  When the vectoriser raises for a disease of the loaded corpus
    that has at least two sources, [analyze] raises and returns no
    report for any disease. *)
Theorem vectoriser_failure_aborts
        (tfidf : option nat -> list string -> result (list string * list (list R)))
        (fs : file_system) (root disease : string) (data : corpus)
        (workflows : dict string) (e : exn) :
  load_workflows fs root = inr data ->
  In (disease, workflows) data ->
  2 <= length workflows ->
  tfidf None (map preprocess (values workflows)) = inl e ->
  exists e', analyze tfidf fs root = inl e'.
Proof.
  intros Hload Hin Hlen Hfail. unfold analyze. rewrite Hload.
  destruct (analyze_items tfidf data) as [e'|report] eqn:E;
    [exists e'; reflexivity|].
  exfalso. destruct (analyze_items_returns tfidf data report E) as [Hok _].
  apply (Hok disease workflows e Hin).
  unfold analyze_item, compute_similarity. apply Nat.ltb_ge in Hlen.
  rewrite Hlen, Hfail. reflexivity.
Qed.

End Dominant_terms.

Section Failure_witness.
Import Py Analyze_wfs.

Lemma vectoriser_failure_aborts_witness :
  exists e', analyze More_samples.failing_tfidf Samples.listing_a "./" = inl e'.
Proof.
  apply (vectoriser_failure_aborts
           More_samples.failing_tfidf Samples.listing_a "./" "gerd"
           [("gerd", [("mayowf", "Surgery"); ("wikiwf", "Surgery")])]
           [("mayowf", "Surgery"); ("wikiwf", "Surgery")]
           (ValueError
              "empty vocabulary; perhaps the documents only contain stop words")).
  - reflexivity.
  - left. reflexivity.
  - simpl. lia.
  - reflexivity.
Defined.

End Failure_witness.
